(** * Neon Tycoon core logic: a shallow embedding of [core_logic.cpp]

    The C++ engine keeps its currency in [double]s and its counters in
    [int] / [long long].  The embedding keeps both as the machine has them:

    - [double] is Rocq's primitive binary64 [float]; [+], [-], [*], [/],
      [sqrt] and the comparisons are the IEEE-754 operations the compiler
      emits, so rounding, overflow to infinity and NaN are all in the model;
    - [int] and [long long] are [Z] with the two's complement wrap-around
      written out at every arithmetic operation ([wrap32], [wrap64]);
    - [std::vector<int>] is a [list Z] (indexing outside the vector has no
      defined result, hence [option]), [std::map<std::string,bool>] is a
      [gmap string bool].

    Three library functions of <cmath> are not primitive in Rocq and are
    defined here on the IEEE specification level ([spec_float]):
    [floor], [pow] with an integral exponent, and the conversion
    [double -> long long]. *)

From Stdlib Require Import ZArith Lia List Uint63 Floats.
From stdpp Require Import gmap strings list.

Set Warnings "-inexact-float".
Local Open Scope Z_scope.

(** ** Machine integers *)

Definition wrap (w z : Z) : Z := (z + 2 ^ (w - 1)) mod 2 ^ w - 2 ^ (w - 1).
Definition wrap32 : Z -> Z := wrap 32.
Definition wrap64 : Z -> Z := wrap 64.

Definition INT_MAX : Z := 2 ^ 31 - 1.
Definition LLONG_MIN : Z := - 2 ^ 63.
Definition LLONG_MAX : Z := 2 ^ 63 - 1.

Definition in_int (z : Z) : Prop := - 2 ^ 31 <= z <= INT_MAX.
Definition in_long_long (z : Z) : Prop := LLONG_MIN <= z <= LLONG_MAX.

(** ** Doubles *)

Abbreviation double := float.

(** [(double) z] for an integer [z] of a 64-bit signed type: the nearest
    binary64 value (exact for every [int]). *)
Definition double_of_Z (z : Z) : double :=
  if z <? 0 then (- of_uint63 (Uint63.of_Z (- z)))%float
  else of_uint63 (Uint63.of_Z z).

(** [std::floor] on the specification level: an infinity, a NaN, a zero and
    a value whose exponent is non-negative are their own floor; otherwise the
    mantissa is shifted right, rounding towards minus infinity. *)
Definition SFfloor (x : spec_float) : spec_float :=
  match x with
  | S754_finite s m e =>
      if 0 <=? e then x
      else binary_normalize prec emax (Z.shiftr (cond_Zopp s (Zpos m)) (- e)) 0 s
  | _ => x
  end.

Definition floor (x : double) : double := SF2Prim (SFfloor (Prim2SF x)).

(** The integral part of a finite double, rounding towards zero; infinities
    and NaN have none. *)
Definition SFtrunc (x : spec_float) : option Z :=
  match x with
  | S754_zero _ => Some 0
  | S754_finite s m e =>
      Some (cond_Zopp s (if 0 <=? e then Zpos m * 2 ^ e else Zpos m / 2 ^ (- e)))
  | _ => None
  end.

(** [(long long) x]: the conversion is defined only when the integral part
    of [x] fits the destination type. *)
Definition long_long_of_double (x : double) : option Z :=
  match SFtrunc (Prim2SF x) with
  | Some z => if (LLONG_MIN <=? z) && (z <=? LLONG_MAX) then Some z else None
  | None => None
  end.

(** [std::pow (x, (double) n)] for an integer [n].  [std::pow] belongs to
    the C library, not to the repository, and the C++ standard does not fix
    its rounding.  It is modelled as the correctly rounded power, the
    result IEEE-754 recommends: the exact rational [x ^ n] rounded once to
    the nearest binary64 value, with the special cases of C Annex F.  A
    libm is accurate to within a unit in the last place without always
    rounding correctly: glibc 2.36 returns the neighbouring double for
    [pow (1.15, n)] at [n = 715], [734] and [4095], and the value of the
    model at every other [n] from 0 up to the overflow. *)
Definition SFpow (x : spec_float) (n : Z) : spec_float :=
  if n =? 0 then S754_finite false 4503599627370496 (-52)
  else
    match x with
    | S754_nan => S754_nan
    | S754_infinity s =>
        if 0 <? n then S754_infinity (s && Z.odd n) else S754_zero (s && Z.odd n)
    | S754_zero s =>
        if 0 <? n then S754_zero (s && Z.odd n) else S754_infinity (s && Z.odd n)
    | S754_finite s m e =>
        if 0 <? n
        then binary_normalize prec emax (cond_Zopp s (Zpos m) ^ n) (e * n) false
        else
          let '(q, e', l) :=
            SFdiv_core_binary prec emax 1 0 (Zpos m ^ (- n)) (e * (- n)) in
          binary_round_aux prec emax (s && Z.odd n) q e' l
    end.

Definition pow (x : double) (n : Z) : double := SF2Prim (SFpow (Prim2SF x) n).

(** ** Configuration constants *)

Definition PRICE_GROWTH_RATE : double := 1.15%float.
Definition DISCOUNT_RATE : double := 0.9%float.
Definition AUTO_CLICK_BONUS : double := 0.05%float.

(** ** The catalog ([GameData]) *)

Record BuildingDef := {
  b_id : Z;
  b_name : string;
  baseCost : double;
  income : double;
  icon : string
}.

Record SkillDef := {
  s_id : string;
  s_name : string;
  cost : Z;
  description : string
}.

Definition getBuildings : list BuildingDef :=
  [ {| b_id := 0; b_name := "Data Miner"; baseCost := 15; income := 1; icon := "💾" |};
    {| b_id := 1; b_name := "Bot Network"; baseCost := 100; income := 5; icon := "🤖" |};
    {| b_id := 2; b_name := "Server Rack"; baseCost := 1100; income := 22; icon := "🔋" |};
    {| b_id := 3; b_name := "AI Cluster"; baseCost := 12000; income := 85; icon := "🧠" |};
    {| b_id := 4; b_name := "Quantum Core"; baseCost := 130000; income := 350; icon := "⚛️" |};
    {| b_id := 5; b_name := "Dyson Swarm"; baseCost := 1500000; income := 1500; icon := "☀️" |};
    {| b_id := 6; b_name := "Reality Engine"; baseCost := 25000000; income := 8000; icon := "🌀" |} ].

Definition getSkills : list SkillDef :=
  [ {| s_id := "auto_click"; s_name := "Auto-Clicker"; cost := 5;
       description := "Automatic clicks 1x/sec" |};
    {| s_id := "cheaper"; s_name := "Optimization"; cost := 10;
       description := "Buildings are 10% cheaper" |};
    {| s_id := "offline"; s_name := "Deep Sleep"; cost := 15;
       description := "Offline earnings x2" |};
    {| s_id := "hack_freq"; s_name := "Backdoor"; cost := 25;
       description := "Hacks appear more frequently" |} ].

(** ** The engine state ([GameEngine]) *)

Record GameEngine := {
  money : double;
  neuralData : Z;
  buildingCounts : list Z;
  ownedSkills : gmap string bool;
  startTime : Z;
  lastSaveTime : Z;
  totalClicks : Z;
  totalEarnings : double;
  incomeMultiplier : double;
  globalIncomePerSec : double
}.

(** The constructor's initialiser list sets six members and the body sizes
    [buildingCounts]; [lastSaveTime] and [globalIncomePerSec] are left
    uninitialised, so whatever their storage holds is a parameter here. *)
Definition newGameEngine (now junkSaveTime : Z) (junkIncome : double) : GameEngine :=
  {| money := 0;
     neuralData := 0;
     buildingCounts := replicate (length getBuildings) 0;
     ownedSkills := ∅;
     startTime := now;
     lastSaveTime := junkSaveTime;
     totalClicks := 0;
     totalEarnings := 0;
     incomeMultiplier := 1;
     globalIncomePerSec := junkIncome |}.

Definition set_money (g : GameEngine) (v : double) : GameEngine :=
  {| money := v; neuralData := neuralData g; buildingCounts := buildingCounts g;
     ownedSkills := ownedSkills g; startTime := startTime g;
     lastSaveTime := lastSaveTime g; totalClicks := totalClicks g;
     totalEarnings := totalEarnings g; incomeMultiplier := incomeMultiplier g;
     globalIncomePerSec := globalIncomePerSec g |}.

Definition set_neuralData (g : GameEngine) (v : Z) : GameEngine :=
  {| money := money g; neuralData := v; buildingCounts := buildingCounts g;
     ownedSkills := ownedSkills g; startTime := startTime g;
     lastSaveTime := lastSaveTime g; totalClicks := totalClicks g;
     totalEarnings := totalEarnings g; incomeMultiplier := incomeMultiplier g;
     globalIncomePerSec := globalIncomePerSec g |}.

Definition set_buildingCounts (g : GameEngine) (v : list Z) : GameEngine :=
  {| money := money g; neuralData := neuralData g; buildingCounts := v;
     ownedSkills := ownedSkills g; startTime := startTime g;
     lastSaveTime := lastSaveTime g; totalClicks := totalClicks g;
     totalEarnings := totalEarnings g; incomeMultiplier := incomeMultiplier g;
     globalIncomePerSec := globalIncomePerSec g |}.

Definition set_ownedSkills (g : GameEngine) (v : gmap string bool) : GameEngine :=
  {| money := money g; neuralData := neuralData g; buildingCounts := buildingCounts g;
     ownedSkills := v; startTime := startTime g;
     lastSaveTime := lastSaveTime g; totalClicks := totalClicks g;
     totalEarnings := totalEarnings g; incomeMultiplier := incomeMultiplier g;
     globalIncomePerSec := globalIncomePerSec g |}.

Definition set_totalClicks (g : GameEngine) (v : Z) : GameEngine :=
  {| money := money g; neuralData := neuralData g; buildingCounts := buildingCounts g;
     ownedSkills := ownedSkills g; startTime := startTime g;
     lastSaveTime := lastSaveTime g; totalClicks := v;
     totalEarnings := totalEarnings g; incomeMultiplier := incomeMultiplier g;
     globalIncomePerSec := globalIncomePerSec g |}.

Definition set_totalEarnings (g : GameEngine) (v : double) : GameEngine :=
  {| money := money g; neuralData := neuralData g; buildingCounts := buildingCounts g;
     ownedSkills := ownedSkills g; startTime := startTime g;
     lastSaveTime := lastSaveTime g; totalClicks := totalClicks g;
     totalEarnings := v; incomeMultiplier := incomeMultiplier g;
     globalIncomePerSec := globalIncomePerSec g |}.

Definition set_incomeMultiplier (g : GameEngine) (v : double) : GameEngine :=
  {| money := money g; neuralData := neuralData g; buildingCounts := buildingCounts g;
     ownedSkills := ownedSkills g; startTime := startTime g;
     lastSaveTime := lastSaveTime g; totalClicks := totalClicks g;
     totalEarnings := totalEarnings g; incomeMultiplier := v;
     globalIncomePerSec := globalIncomePerSec g |}.

Definition set_globalIncomePerSec (g : GameEngine) (v : double) : GameEngine :=
  {| money := money g; neuralData := neuralData g; buildingCounts := buildingCounts g;
     ownedSkills := ownedSkills g; startTime := startTime g;
     lastSaveTime := lastSaveTime g; totalClicks := totalClicks g;
     totalEarnings := totalEarnings g; incomeMultiplier := incomeMultiplier g;
     globalIncomePerSec := v |}.

(** ** Helper calculation methods *)

(** [hasSkill]: [find] does not touch the map. *)
Definition hasSkill (g : GameEngine) (skillId : string) : bool :=
  match ownedSkills g !! skillId with
  | Some owned => owned
  | None => false
  end.

(** [getBuildingCost]: both [operator[]] reads are unchecked in the source,
    so an id outside the catalog or outside [buildingCounts] gives [None]. *)
Definition getBuildingCost (g : GameEngine) (buildingId : Z) : option double :=
  if buildingId <? 0 then None
  else
    match getBuildings !! Z.to_nat buildingId, buildingCounts g !! Z.to_nat buildingId with
    | Some b, Some count =>
        let growth := pow PRICE_GROWTH_RATE count in
        let discount := if hasSkill g "cheaper" then DISCOUNT_RATE else 1%float in
        Some (floor (baseCost b * growth * discount)%float)
    | _, _ => None
    end.

(** ** Core economy logic *)

Definition calculateIncomePerSec (g : GameEngine) : GameEngine :=
  let db := getBuildings in
  let baseIncome :=
    fold_left
      (fun (baseIncome : double) (i : nat) =>
         match db !! i, buildingCounts g !! i with
         | Some b, Some count => (baseIncome + income b * double_of_Z count)%float
         | _, _ => baseIncome
         end)
      (seq 0 (length db)) 0%float in
  let baseIncome :=
    if hasSkill g "auto_click"
    then (baseIncome + baseIncome * AUTO_CLICK_BONUS)%float
    else baseIncome in
  set_globalIncomePerSec g (baseIncome * incomeMultiplier g)%float.

Definition addMoney (g : GameEngine) (amount : double) : GameEngine :=
  let g := set_money g (money g + amount)%float in
  set_totalEarnings g (totalEarnings g + amount)%float.

Definition update (g : GameEngine) (deltaTime : double) : GameEngine :=
  let g := calculateIncomePerSec g in
  if (0 <? globalIncomePerSec g)%float
  then addMoney g (globalIncomePerSec g * deltaTime)%float
  else g.

(** ** User actions *)

Definition click (g : GameEngine) : GameEngine :=
  let g := set_totalClicks g (wrap64 (totalClicks g + 1)) in
  let clickValue := (1 + globalIncomePerSec g * 0.05)%float in
  addMoney g clickValue.

Definition buyBuilding (g : GameEngine) (buildingId : Z) : option (bool * GameEngine) :=
  if (buildingId <? 0) || (Z.of_nat (length getBuildings) <=? buildingId)
  then Some (false, g)
  else
    match getBuildingCost g buildingId with
    | Some cost =>
        if (cost <=? money g)%float
        then
          let g' := set_money g (money g - cost)%float in
          match buildingCounts g' !! Z.to_nat buildingId with
          | Some count =>
              Some (true,
                    set_buildingCounts g'
                      (<[Z.to_nat buildingId := wrap32 (count + 1)]> (buildingCounts g')))
          | None => None
          end
        else Some (false, g)
    | None => None
    end.

(** The range-for of [buySkill]: a match that cannot be paid for does not
    leave the loop, the scan goes on to the next catalog entry. *)
Fixpoint buySkill_scan (skills : list SkillDef) (g : GameEngine) (skillId : string)
  : bool * GameEngine :=
  match skills with
  | [] => (false, g)
  | skill :: rest =>
      if String.eqb (s_id skill) skillId && (cost skill <=? neuralData g)
      then
        let g := set_neuralData g (wrap64 (neuralData g - cost skill)) in
        (true, set_ownedSkills g (<[skillId := true]> (ownedSkills g)))
      else buySkill_scan rest g skillId
  end.

(** [ownedSkills[skillId]] is [std::map::operator[]]: a missing key is
    inserted with the value [false] before it is read. *)
Definition buySkill (g : GameEngine) (skillId : string) : bool * GameEngine :=
  match ownedSkills g !! skillId with
  | Some true => (false, g)
  | Some false => buySkill_scan getSkills g skillId
  | None =>
      buySkill_scan getSkills
        (set_ownedSkills g (<[skillId := false]> (ownedSkills g))) skillId
  end.

(** ** Prestige system *)

Definition calculatePrestigePotential (g : GameEngine) : option Z :=
  if (money g <? 1000000)%float then Some 0
  else long_long_of_double (floor (sqrt (money g / 1000000)%float)).

Definition doPrestige (g : GameEngine) : option GameEngine :=
  match calculatePrestigePotential g with
  | Some potential =>
      if 0 <? potential
      then
        let g := set_neuralData g (wrap64 (neuralData g + potential)) in
        let g := set_money g 0%float in
        let g := set_buildingCounts g (replicate (length (buildingCounts g)) 0) in
        Some (set_incomeMultiplier g 1%float)
      else Some g
  | None => None
  end.

Definition getMoney (g : GameEngine) : double := money g.
Definition getIncomePerSec (g : GameEngine) : double := globalIncomePerSec g.
Definition getNeuralData (g : GameEngine) : Z := neuralData g.


(** * Specification-side definitions *)

(** A state as the class can hold it: every integer member within its
    type, one counter per catalog building. *)
Record well_typed (g : GameEngine) : Prop := {
  wt_neuralData : in_long_long (neuralData g);
  wt_totalClicks : in_long_long (totalClicks g);
  wt_counts : Forall in_int (buildingCounts g);
  wt_length : length (buildingCounts g) = length getBuildings
}.

(** The catalog entry a skill id names: the first one the scan meets. *)
Definition findSkill (skillId : string) : option SkillDef :=
  List.find (fun skill => String.eqb (s_id skill) skillId) getSkills.

(** Everything [buySkill] must leave alone, whatever its outcome. *)
Definition same_economy (g g' : GameEngine) : Prop :=
  money g' = money g /\ buildingCounts g' = buildingCounts g /\
  totalClicks g' = totalClicks g /\ totalEarnings g' = totalEarnings g /\
  incomeMultiplier g' = incomeMultiplier g /\
  globalIncomePerSec g' = globalIncomePerSec g.

(** The integer a double stands for once it has no fractional part. *)
Definition integral_value (x : double) : option Z := SFtrunc (Prim2SF x).

Definition negative (x : double) : Prop := (x <? 0)%float = true.

(** Not below zero, on the specification level: a NaN, a zero of either
    sign, or a positive value. *)
Definition SFnonneg (x : spec_float) : Prop := SFltb x (S754_zero false) = false.

(** *** Prestige, as the specification words it *)

Definition prestige_reset (g g' : GameEngine) (newNeuralData : Z) : Prop :=
  neuralData g' = newNeuralData /\
  money g' = 0%float /\
  length (buildingCounts g') = length (buildingCounts g) /\
  Forall (fun count => count = 0) (buildingCounts g') /\
  incomeMultiplier g' = 1%float /\
  (forall skillId, hasSkill g skillId = true -> hasSkill g' skillId = true).

Definition doPrestige_as_specified (g : GameEngine) : Prop :=
  forall p, calculatePrestigePotential g = Some p ->
    (0 < p -> exists g', doPrestige g = Some g' /\ prestige_reset g g' (neuralData g + p)) /\
    (p = 0 -> doPrestige g = Some g).

Definition potential_as_specified (g : GameEngine) : Prop :=
  calculatePrestigePotential g =
  if (money g <? 1000000)%float then Some 0
  else integral_value (floor (sqrt (money g / 1000000)%float)).

(** *** Building purchase, as the specification words it *)

Definition bought (g : GameEngine) (buildingId : Z) (cost : double) (newCount : Z)
  : GameEngine :=
  set_buildingCounts (set_money g (money g - cost)%float)
    (<[Z.to_nat buildingId := newCount]> (buildingCounts g)).

Definition buyBuilding_as_specified (g : GameEngine) (buildingId : Z) : Prop :=
  ((buildingId < 0 \/ Z.of_nat (length getBuildings) <= buildingId) ->
   buyBuilding g buildingId = Some (false, g)) /\
  (forall cost count,
     getBuildingCost g buildingId = Some cost ->
     buildingCounts g !! Z.to_nat buildingId = Some count ->
     ((money g <? cost)%float = true -> buyBuilding g buildingId = Some (false, g)) /\
     ((money g <? cost)%float = false ->
      buyBuilding g buildingId = Some (true, bought g buildingId cost (count + 1)))) /\
  (forall ok g',
     (0 <=? money g)%float = true -> buyBuilding g buildingId = Some (ok, g') ->
     ~ negative (money g')) /\
  (forall g',
     buyBuilding g buildingId = Some (false, g') ->
     money g' = money g /\ buildingCounts g' = buildingCounts g).

(** *** Income, as the specification words it *)

(** The sum of [income * count] over the catalog, accumulated in catalog
    order as the loop does. *)
Definition baseIncomeSum (counts : list Z) : double :=
  fold_left (fun (acc : double) (bc : BuildingDef * Z) =>
               (acc + income (fst bc) * double_of_Z (snd bc))%float)
            (zip getBuildings counts) 0%float.

Definition income_as_specified (g : GameEngine) : Prop :=
  globalIncomePerSec (calculateIncomePerSec g) =
  ((if hasSkill g "auto_click"
    then baseIncomeSum (buildingCounts g) * 1.05
    else baseIncomeSum (buildingCounts g)) * incomeMultiplier g)%float.

Definition clickValue (g : GameEngine) : double :=
  (1 + globalIncomePerSec g * 0.05)%float.

Definition click_as_specified (g : GameEngine) : Prop :=
  totalClicks (click g) = totalClicks g + 1 /\
  money (click g) = (money g + clickValue g)%float /\
  totalEarnings (click g) = (totalEarnings g + clickValue g)%float.

(** *** Cost curve, as the specification words it *)

(** The cost a given value of [pow (1.15, count)] leads to. *)
Definition cost_of_power (b : BuildingDef) (cheaper : bool) (growth : double) : double :=
  floor (baseCost b * growth * (if cheaper then DISCOUNT_RATE else 1))%float.

(** [getBuildingCost] as a function of the count alone, for a catalog entry
    and a skill state. *)
Definition costAt (b : BuildingDef) (cheaper : bool) (count : Z) : double :=
  cost_of_power b cheaper (pow PRICE_GROWTH_RATE count).

Definition cost_strictly_increasing_at (b : BuildingDef) (cheaper : bool) (n : Z) : Prop :=
  (costAt b cheaper n <? costAt b cheaper (n + 1))%float = true.

Definition cost_strictly_increasing : Prop :=
  forall (b : BuildingDef) (cheaper : bool) (n : Z),
    b ∈ getBuildings -> 0 <= n -> cost_strictly_increasing_at b cheaper n.

(** For each catalog building, the first count at which the cost is
    [+infinity]. *)
Definition overflow_counts : list Z := [5060; 5046; 5029; 5012; 4995; 4977; 4957].

(** *** Evaluating the correctly rounded power

    [pow (1.15, n)] rounds an integer of some [52 * n] bits.  To evaluate it
    without building that integer, the power is enclosed between two
    128-bit numbers scaled by a power of two; the enclosure fixes the
    digits that are kept and shows that the discarded ones are not all
    zero, which is all that rounding to nearest looks at. *)

(** [(L, U, t)] encloses [M] when [L * 2^t <= M <= U * 2^t]. *)
Definition encloses (M : Z) (b : Z * Z * Z) : Prop :=
  let '(L, U, t) := b in 0 <= t /\ 0 < L /\ L * 2 ^ t <= M <= U * 2 ^ t.

(** Multiply an enclosure by [m], keeping about 128 bits. *)
Definition enclosure_mul (m : Z) (b : Z * Z * Z) : Z * Z * Z :=
  let '(L, U, t) := b in
  let s := Zdigits2 (L * m) - 128 in
  if 0 <? s then ((L * m) / 2 ^ s, (U * m) / 2 ^ s + 1, t + s)
  else (L * m, U * m, t).

(** An enclosure that proves [2^d <= M]. *)
Definition enclosure_at_least (b : Z * Z * Z) (d : Z) : bool :=
  let '(L, U, t) := b in (0 <=? d - t) && (2 ^ (d - t) <=? L).

(** The rounding of [M * 2^E] read off an enclosure of [M], when the
    enclosure is tight enough to decide it. *)
Definition round_enclosed (E : Z) (b : Z * Z * Z) : option spec_float :=
  let '(L, U, t) := b in
  if (t =? 0) && (L =? U) then Some (binary_normalize prec emax L E false)
  else
    let x := Zdigits2 L - 64 in
    let A := L / 2 ^ x in
    let j := t + x in
    if (0 <? x) && (0 <? A) && (A =? U / 2 ^ x) && (A * 2 ^ x <? L)
       && (j <? fexp prec emax (Zdigits2 A + j + E) - E)
    then Some (binary_round_aux prec emax false A (E + j) (loc_Inexact Lt))
    else None.

(** The correctly rounded powers [m^k * 2^(e*k)] for [k], [k+1], ...,
    each from an enclosure of [m^k]. *)
Fixpoint rounded_powers (m e : Z) (n : nat) (b : Z * Z * Z) (E : Z)
  : list (option spec_float) :=
  match n with
  | O => nil
  | S n' => round_enclosed E b :: rounded_powers m e n' (enclosure_mul m b) (E + e)
  end.

(** Mantissa and exponent of the double [1.15]. *)
Definition growth_mantissa : positive := 5179139571476070.
Definition growth_exponent : Z := -52.


(** [pow (1.15, k)] for [k = 1 .. n]. *)
Definition growth_powers (n : nat) : list (option spec_float) :=
  rounded_powers (Zpos growth_mantissa) growth_exponent n
    (Zpos growth_mantissa, Zpos growth_mantissa, 0) growth_exponent.

(** A walk along the costs at counts [k], [k+1], ... given the powers and
    the cost [prev] at [k - 1]: up to the count [T] each cost exceeds the one
    before, from [T] on each is [+infinity]. *)
Fixpoint costs_ok (b : BuildingDef) (cheaper : bool) (T k : Z) (prev : double)
    (powers : list (option spec_float)) : bool :=
  match powers with
  | [] => true
  | None :: _ => false
  | Some p :: powers' =>
      let c := cost_of_power b cheaper (SF2Prim p) in
      (if k <=? T then (prev <? c)%float else true)
      && (if T <=? k then PrimFloat.Leibniz.eqb c infinity else true)
      && costs_ok b cheaper T (k + 1) c powers'
  end.

(** The walk for each building of a catalog, with and without the
    discount. *)
Fixpoint all_costs_ok (buildings : list BuildingDef) (overflows : list Z)
    (powers : list (option spec_float)) : bool :=
  match buildings, overflows with
  | b :: buildings', T :: overflows' =>
      costs_ok b false T 1 (cost_of_power b false 1) powers
      && costs_ok b true T 1 (cost_of_power b true 1) powers
      && all_costs_ok buildings' overflows' powers
  | _, _ => true
  end.


(** *** Sequences of public operations *)

Inductive Op :=
  | Click
  | BuyBuilding (buildingId : Z)
  | BuySkill (skillId : string)
  | DoPrestige
  | Update (deltaTime : double).

(** One call; [None] when the call has no defined result. *)
Definition step (g : GameEngine) (op : Op) : option GameEngine :=
  match op with
  | Click => Some (click g)
  | BuyBuilding buildingId => snd <$> buyBuilding g buildingId
  | BuySkill skillId => Some (snd (buySkill g skillId))
  | DoPrestige => doPrestige g
  | Update deltaTime => Some (update g deltaTime)
  end.

Fixpoint run (g : GameEngine) (ops : list Op) : option GameEngine :=
  match ops with
  | [] => Some g
  | op :: ops' =>
      match step g op with
      | Some g' => run g' ops'
      | None => None
      end
  end.

(** Time only advances by a non-negative amount. *)
Definition allowed (op : Op) : Prop :=
  match op with
  | Update deltaTime => (0 <=? deltaTime)%float = true
  | _ => True
  end.

Definition state_invariant (g : GameEngine) : Prop :=
  length (buildingCounts g) = length getBuildings /\
  ~ negative (money g) /\ 0 <= neuralData g /\ 0 <= totalClicks g /\
  ~ negative (totalEarnings g).

Definition invariant_as_specified : Prop :=
  forall (now junkSaveTime : Z) (junkIncome : double) (ops ops' : list Op)
         (g g' : GameEngine),
    Forall allowed (ops ++ ops') ->
    run (newGameEngine now junkSaveTime junkIncome) ops = Some g ->
    run g ops' = Some g' ->
    state_invariant g /\
    (forall skillId, hasSkill g skillId = true -> hasSkill g' skillId = true).

(** Fifteen clicks buy a Data Miner, a long tick fills the bank, prestige
    cashes it in; twice over. *)
Definition prestige_round : list Op :=
  replicate 15 Click ++ [BuyBuilding 0; Update 7e43; DoPrestige].

(** The number of clicks in a sequence. *)
Fixpoint clicks (ops : list Op) : Z :=
  match ops with
  | [] => 0
  | Click :: ops' => 1 + clicks ops'
  | _ :: ops' => clicks ops'
  end.

(** No prestige of the run adds more than [neuralData] can take. *)
Fixpoint prestige_fits (g : GameEngine) (ops : list Op) : Prop :=
  match ops with
  | [] => True
  | op :: ops' =>
      match op with
      | DoPrestige =>
          match calculatePrestigePotential g with
          | Some p => neuralData g + p <= LLONG_MAX
          | None => True
          end
      | _ => True
      end /\
      match step g op with
      | Some g' => prestige_fits g' ops'
      | None => True
      end
  end.

(** What every reachable state satisfies, whatever the counters do. *)
Definition economy_invariant (g : GameEngine) : Prop :=
  length (buildingCounts g) = length getBuildings /\
  incomeMultiplier g = 1%float /\
  ~ negative (money g) /\ ~ negative (totalEarnings g) /\
  ~ negative (globalIncomePerSec g) /\
  (Forall (fun count => 0 <= count <= 5100) (buildingCounts g) \/
   (money g = nan /\ Forall (fun count => 0 <= count <= 5101) (buildingCounts g))).

(** *** Further notions *)

(** The neural data sunk into the skills a state owns. *)
Definition skillsValue (g : GameEngine) : Z :=
  fold_right
    (fun skill acc => (if hasSkill g (s_id skill) then cost skill else 0) + acc)
    0 getSkills.

(** A value without a fractional part (infinities and NaN have none to
    speak of). *)
Definition whole (x : spec_float) : Prop :=
  match x with
  | S754_finite _ m e => e < 0 -> Zpos m mod 2 ^ (- e) = 0
  | _ => True
  end.

(** Zero or of positive sign; NaN counts, having no sign. *)
Definition SFunsigned (x : spec_float) : Prop :=
  match x with
  | S754_infinity true | S754_finite true _ _ => False
  | _ => True
  end.

Definition no_buildings (g : GameEngine) : Prop :=
  Forall (fun count => count = 0) (buildingCounts g).

(** The state with the entry [skillId] of the skill map set to [owned]. *)
Definition withSkill (g : GameEngine) (skillId : string) (owned : bool) : GameEngine :=
  set_ownedSkills g (<[skillId := owned]> (ownedSkills g)).

(** The state with other values in the two clock members. *)
Definition withTimes (g : GameEngine) (start saved : Z) : GameEngine :=
  {| money := money g; neuralData := neuralData g; buildingCounts := buildingCounts g;
     ownedSkills := ownedSkills g; startTime := start;
     lastSaveTime := saved; totalClicks := totalClicks g;
     totalEarnings := totalEarnings g; incomeMultiplier := incomeMultiplier g;
     globalIncomePerSec := globalIncomePerSec g |}.

(** Positive and not below 1: the leading bit sits at [2^0] or higher. *)
Definition at_least_one (x : spec_float) : Prop :=
  match x with
  | S754_infinity false => True
  | S754_finite false m e => 1 <= Zpos (digits2_pos m) + e
  | _ => False
  end.

(** A positive result that is not below the positive double [(mx, ex)], both
    in canonical form: a higher exponent, or the same with a mantissa that is
    not smaller. *)
Definition not_below (mx : positive) (ex : Z) (r : spec_float) : Prop :=
  match r with
  | S754_infinity false => True
  | S754_finite false m e => ex < e \/ (e = ex /\ Zpos mx <= Zpos m)
  | _ => False
  end.

(** A result that is not above the positive double [(mx, ex)]; NaN, which
    compares with nothing, counts. *)
Definition not_above (mx : positive) (ex : Z) (r : spec_float) : Prop :=
  match r with
  | S754_finite false m e => e < ex \/ (e = ex /\ Zpos m <= Zpos mx)
  | S754_infinity false => False
  | _ => True
  end.

(** The value of a finite double in units of [2^-1074], the smallest
    positive double. *)
Definition SFscaled (x : spec_float) : Z :=
  match x with
  | S754_finite s m e => cond_Zopp s (Zpos m) * 2 ^ (e + 1074)
  | _ => 0
  end.

(** Zero or finite. *)
Definition SFfinite (x : spec_float) : Prop :=
  match x with
  | S754_zero _ | S754_finite _ _ _ => True
  | _ => False
  end.
(** * Arithmetic facts *)

Lemma wrap64_id (z : Z) : in_long_long z -> wrap64 z = z.
Proof.
  unfold in_long_long, LLONG_MIN, LLONG_MAX, wrap64, wrap. intros H.
  rewrite Z.mod_small; lia.
Qed.

Lemma wrap32_id (z : Z) : in_int z -> wrap32 z = z.
Proof.
  unfold in_int, INT_MAX, wrap32, wrap. intros H.
  rewrite Z.mod_small; lia.
Qed.

(** ** Comparisons of doubles *)

Lemma SFcompare_antisym (x y : spec_float) :
  SFcompare y x = option_map CompOpp (SFcompare x y).
Proof.
  destruct x as [[]|[]| |[] mx ex], y as [[]|[]| |[] my ey]; cbn; try reflexivity.
  all: rewrite (Z.compare_antisym ex ey);
    change (Pos.compare_cont Eq my mx) with (Pos.compare my mx);
    change (Pos.compare_cont Eq mx my) with (Pos.compare mx my);
    rewrite (Pos.compare_antisym mx my);
    destruct (ex ?= ey); cbn; try reflexivity;
    destruct (mx ?= my)%positive; reflexivity.
Qed.

(** [x < y] rules out [y <= x]; the converse fails when either is NaN. *)
Lemma ltb_not_leb (x y : double) : (x <? y)%float = true -> (y <=? x)%float = false.
Proof.
  rewrite ltb_spec, leb_spec. unfold SFltb, SFleb.
  rewrite (SFcompare_antisym (Prim2SF x)).
  destruct (SFcompare (Prim2SF x) (Prim2SF y)) as [[| |]|]; cbn; congruence.
Qed.

(** ** Mantissas and exponents *)

Lemma digits2_pos_bounds (m : positive) :
  2 ^ (Zpos (digits2_pos m) - 1) <= Zpos m < 2 ^ Zpos (digits2_pos m).
Proof.
  induction m as [m IH|m IH|]; cbn [digits2_pos]; [| |cbn; lia].
  all: rewrite Pos2Z.inj_succ;
    replace (Z.succ (Zpos (digits2_pos m)) - 1) with (Zpos (digits2_pos m)) by lia;
    rewrite Z.pow_succ_r by lia;
    assert (Hd : 2 ^ Zpos (digits2_pos m) = 2 * 2 ^ (Zpos (digits2_pos m) - 1))
      by (rewrite <- Z.pow_succ_r by lia; f_equal; lia);
    lia.
Qed.

Lemma iter_xO_mul (m d : positive) : Zpos (Pos.iter xO m d) = Zpos m * 2 ^ Zpos d.
Proof.
  induction d as [|d IH] using Pos.peano_ind.
  - cbn. lia.
  - rewrite Pos.iter_succ, Pos2Z.inj_succ, Z.pow_succ_r by lia.
    rewrite Pos2Z.inj_xO, IH. lia.
Qed.

Lemma shl_align_fst (m : positive) (e ez : Z) :
  ez <= e -> Zpos (fst (shl_align m e ez)) = Zpos m * 2 ^ (e - ez).
Proof.
  intros Hle. unfold shl_align.
  destruct (ez - e) as [|d|d] eqn:Hd; cbn [fst].
  - replace (e - ez) with 0 by lia. lia.
  - lia.
  - rewrite iter_xO_mul. f_equal. f_equal. lia.
Qed.

Lemma valid_finite_inv (s : bool) (m : positive) (e : Z) :
  valid_binary (S754_finite s m e) = true ->
  Z.max (Zpos (digits2_pos m) + e - 53) (-1074) = e /\ e <= 971.
Proof.
  cbn. unfold bounded, canonical_mantissa, fexp, emin, prec, emax.
  intros H. apply andb_true_iff in H as [H1 H2].
  apply Z.eqb_eq in H1. apply Z.leb_le in H2. lia.
Qed.

(** Of two valid finite values the one with the larger exponent is the
    larger in magnitude. *)
Lemma valid_exp_lt (s1 s2 : bool) (m1 m2 : positive) (e1 e2 : Z) :
  valid_binary (S754_finite s1 m1 e1) = true ->
  valid_binary (S754_finite s2 m2 e2) = true ->
  e1 < e2 -> Zpos m1 < Zpos m2 * 2 ^ (e2 - e1).
Proof.
  intros [H1 _]%valid_finite_inv [H2 _]%valid_finite_inv Hlt.
  pose proof (digits2_pos_bounds m1) as B1. pose proof (digits2_pos_bounds m2) as B2.
  assert (D1 : Zpos (digits2_pos m1) <= 53) by lia.
  assert (D2 : Zpos (digits2_pos m2) = 53) by lia.
  rewrite D2 in B2.
  assert (Zpos m1 < 2 ^ 53).
  { eapply Z.lt_le_trans; [apply B1|]. apply Z.pow_le_mono_r; lia. }
  assert (2 ^ 1 <= 2 ^ (e2 - e1)) by (apply Z.pow_le_mono_r; lia).
  change (2 ^ (53 - 1)) with 4503599627370496 in B2.
  change (2 ^ 53) with 9007199254740992 in *. change (2 ^ 1) with 2 in *.
  nia.
Qed.

(** ** Signs *)

Lemma binary_round_aux_cases (s : bool) (m e : Z) (l : location) :
  let r := binary_round_aux prec emax s m e l in
  r = S754_zero s \/ (exists m' e', r = S754_finite s m' e') \/
  r = S754_infinity s \/ r = S754_nan.
Proof.
  unfold binary_round_aux.
  destruct (shr_fexp prec emax m e l) as [mrs' e'].
  destruct (shr_fexp prec emax _ e' loc_Exact) as [mrs'' e''].
  destruct (shr_m mrs'') as [|m''|m'']; cbn; auto.
  destruct (e'' <=? emax - prec); eauto.
Qed.

Lemma binary_round_aux_nonneg (m e : Z) (l : location) :
  SFnonneg (binary_round_aux prec emax false m e l).
Proof.
  destruct (binary_round_aux_cases false m e l) as [H|[(m' & e' & H)|[H|H]]];
    unfold SFnonneg; rewrite H; reflexivity.
Qed.

Lemma binary_normalize_nonneg (z e : Z) :
  0 <= z -> SFnonneg (binary_normalize prec emax z e false).
Proof.
  intros Hz. destruct z as [|m|m]; [reflexivity| |lia].
  unfold binary_normalize, binary_round.
  destruct (shl_align m e _) as [mz ez]. apply binary_round_aux_nonneg.
Qed.

(** Subtracting a value from one that is not below it never gives a
    negative result (it gives NaN for infinity minus infinity). *)
Lemma SFsub_nonneg (x y : spec_float) :
  valid_binary x = true -> valid_binary y = true ->
  SFleb y x = true -> SFnonneg (SFsub prec emax x y).
Proof.
  intros Vx Vy Hle.
  destruct x as [sx|sx| |sx mx ex], y as [sy|sy| |sy my ey];
    try (repeat match goal with b : bool |- _ => destruct b end;
         first [discriminate Hle | reflexivity]).
  unfold SFsub. apply binary_normalize_nonneg.
  rewrite !shl_align_fst by lia.
  unfold SFleb, SFcompare in Hle.
  assert (P1 : 0 < 2 ^ (ex - Z.min ex ey)) by (apply Z.pow_pos_nonneg; lia).
  assert (P2 : 0 < 2 ^ (ey - Z.min ex ey)) by (apply Z.pow_pos_nonneg; lia).
  destruct sx, sy; cbn [cond_Zopp]; try discriminate Hle; [| nia |].
  - (* both negative *)
    destruct (Z.compare_spec ey ex) as [->|Hlt|Hgt]; try discriminate Hle.
    + rewrite Z.min_id, Z.sub_diag in *. change (2 ^ 0) with 1.
      change (Pos.compare_cont Eq my mx) with (Pos.compare my mx) in Hle.
      destruct (Pos.compare_spec my mx); cbn in Hle; try discriminate Hle; lia.
    + pose proof (valid_exp_lt _ _ _ _ _ _ Vx Vy Hgt).
      rewrite Z.min_l, Z.sub_diag in * by lia. change (2 ^ 0) with 1 in *. lia.
  - (* both positive *)
    destruct (Z.compare_spec ey ex) as [->|Hlt|Hgt]; try discriminate Hle.
    + rewrite Z.min_id, Z.sub_diag in *. change (2 ^ 0) with 1.
      change (Pos.compare_cont Eq my mx) with (Pos.compare my mx) in Hle.
      destruct (Pos.compare_spec my mx); cbn in Hle; try discriminate Hle; lia.
    + pose proof (valid_exp_lt _ _ _ _ _ _ Vy Vx Hlt).
      rewrite Z.min_r, Z.sub_diag in * by lia. change (2 ^ 0) with 1 in *. lia.
Qed.

Lemma sub_not_negative (x y : double) :
  (y <=? x)%float = true -> ~ negative (x - y)%float.
Proof.
  unfold negative. rewrite leb_spec, ltb_spec, sub_spec. intros Hle Hneg.
  pose proof (SFsub_nonneg _ _ (Prim2SF_valid x) (Prim2SF_valid y) Hle) as H.
  unfold SFnonneg in H. change (Prim2SF 0) with (S754_zero false) in Hneg.
  unfold SF64sub in Hneg. congruence.
Qed.

Lemma nonneg_not_negative (x : double) : (0 <=? x)%float = true -> ~ negative x.
Proof.
  unfold negative. intros Hle Hlt. apply ltb_not_leb in Hlt. congruence.
Qed.
(** * Skill purchase *)

Lemma hasSkill_insert_false (g : GameEngine) (skillId k : string) :
  ownedSkills g !! skillId = None ->
  hasSkill (set_ownedSkills g (<[skillId := false]> (ownedSkills g))) k = hasSkill g k.
Proof.
  intros Hnone. unfold hasSkill. simpl.
  destruct (decide (skillId = k)) as [->|Hne].
  - rewrite lookup_insert_eq, Hnone. reflexivity.
  - rewrite lookup_insert_ne by assumption. reflexivity.
Qed.

(** The scan over any catalog: it stops at the first entry that has the id
    and can be paid for. *)
Lemma buySkill_scan_spec (skills : list SkillDef) (g : GameEngine) (skillId : string) :
  buySkill_scan skills g skillId =
  match List.find (fun skill => String.eqb (s_id skill) skillId && (cost skill <=? neuralData g)) skills with
  | Some skill =>
      (true,
       set_ownedSkills (set_neuralData g (wrap64 (neuralData g - cost skill)))
         (<[skillId := true]> (ownedSkills g)))
  | None => (false, g)
  end.
Proof.
  induction skills as [|skill rest IH]; simpl; [reflexivity|].
  destruct (String.eqb (s_id skill) skillId && (cost skill <=? neuralData g)); auto.
Qed.

(** In the supplied catalog the ids are pairwise different, so the entry
    the scan can stop at is the one [findSkill] returns. *)
Lemma scan_find_getSkills (skillId : string) (nd : Z) :
  List.find (fun skill => String.eqb (s_id skill) skillId && (cost skill <=? nd)) getSkills =
  match findSkill skillId with
  | Some skill => if cost skill <=? nd then Some skill else None
  | None => None
  end.
Proof.
  unfold findSkill, getSkills. cbn -[String.eqb Z.leb].
  destruct (String.eqb_spec "auto_click" skillId) as [<-|?]; cbn -[String.eqb Z.leb].
  { destruct (5 <=? nd); reflexivity. }
  destruct (String.eqb_spec "cheaper" skillId) as [<-|?]; cbn -[String.eqb Z.leb].
  { destruct (10 <=? nd); reflexivity. }
  destruct (String.eqb_spec "offline" skillId) as [<-|?]; cbn -[String.eqb Z.leb].
  { destruct (15 <=? nd); reflexivity. }
  destruct (String.eqb_spec "hack_freq" skillId) as [<-|?]; cbn -[String.eqb Z.leb].
  { destruct (25 <=? nd); reflexivity. }
  reflexivity.
Qed.

Lemma findSkill_cost_nonneg (skillId : string) (skill : SkillDef) :
  findSkill skillId = Some skill -> 0 <= cost skill <= 25.
Proof.
  unfold findSkill, getSkills. cbn -[String.eqb].
  repeat (match goal with
          | |- context [String.eqb ?a ?b] => destruct (String.eqb a b)
          end; [intros [= <-]; cbn; lia|]).
  discriminate.
Qed.

(** [buySkill] in closed form, for every state. *)
Lemma buySkill_unfold (g : GameEngine) (skillId : string) :
  buySkill g skillId =
  if hasSkill g skillId then (false, g)
  else
    let g1 := match ownedSkills g !! skillId with
              | Some _ => g
              | None => set_ownedSkills g (<[skillId := false]> (ownedSkills g))
              end in
    match findSkill skillId with
    | Some skill =>
        if cost skill <=? neuralData g
        then (true,
              set_ownedSkills (set_neuralData g1 (wrap64 (neuralData g - cost skill)))
                (<[skillId := true]> (ownedSkills g1)))
        else (false, g1)
    | None => (false, g1)
    end.
Proof.
  unfold buySkill, hasSkill.
  destruct (ownedSkills g !! skillId) as [[|]|] eqn:Hlook; try reflexivity.
  - rewrite buySkill_scan_spec, scan_find_getSkills.
    destruct (findSkill skillId) as [skill|]; [|reflexivity].
    destruct (cost skill <=? neuralData g); reflexivity.
  - rewrite buySkill_scan_spec, scan_find_getSkills. simpl.
    destruct (findSkill skillId) as [skill|]; [|reflexivity].
    destruct (cost skill <=? neuralData g); reflexivity.
Qed.

(** C6.  [buySkill] for every state and every id string.  It declines
    (returns [false], [neuralData] and every [hasSkill] answer unchanged)
    when the skill is already owned, when the catalog has no skill of that
    id, and when [neuralData] is below the skill's cost.  Otherwise it
    returns [true], takes exactly the skill's cost off [neuralData] and makes
    [hasSkill] true for the id (and for no other id).  A second call after a
    success returns [false] and changes nothing, so [neuralData] is not
    charged twice.  In no case does the call touch the economy. *)
Theorem buySkill_correct (g : GameEngine) (skillId : string) :
  in_long_long (neuralData g) ->
  let r := buySkill g skillId in
  ((hasSkill g skillId = true \/ findSkill skillId = None \/
    (exists skill, findSkill skillId = Some skill /\ neuralData g < cost skill)) ->
   fst r = false /\ neuralData (snd r) = neuralData g /\
   (forall k, hasSkill (snd r) k = hasSkill g k)) /\
  (forall skill,
     hasSkill g skillId = false -> findSkill skillId = Some skill ->
     cost skill <= neuralData g ->
     fst r = true /\ neuralData (snd r) = neuralData g - cost skill /\
     hasSkill (snd r) skillId = true /\
     (forall k, k <> skillId -> hasSkill (snd r) k = hasSkill g k)) /\
  (fst r = true ->
   let r2 := buySkill (snd r) skillId in
   fst r2 = false /\ snd r2 = snd r /\ neuralData (snd r2) = neuralData (snd r)) /\
  same_economy g (snd r).
Proof.
  intros Hrange r. subst r. rewrite buySkill_unfold.
  set (g1 := match ownedSkills g !! skillId with
             | Some _ => g
             | None => set_ownedSkills g (<[skillId := false]> (ownedSkills g))
             end).
  assert (Hg1 : forall k, hasSkill g1 k = hasSkill g k).
  { intros k. subst g1. destruct (ownedSkills g !! skillId) eqn:Hlook; [reflexivity|].
    apply hasSkill_insert_false, Hlook. }
  assert (Hnd1 : neuralData g1 = neuralData g).
  { subst g1. destruct (ownedSkills g !! skillId); reflexivity. }
  assert (Heco1 : same_economy g g1).
  { subst g1. destruct (ownedSkills g !! skillId); repeat split. }
  destruct (hasSkill g skillId) eqn:Howned.
  { (* already owned *)
    cbn [fst snd]. split; [|split; [|split]].
    - intros _. repeat split.
    - intros skill [=].
    - discriminate.
    - repeat split. }
  destruct (findSkill skillId) as [skill|] eqn:Hfind.
  2:{ (* not in the catalog *)
    cbn [fst snd]. split; [|split; [|split]].
    - intros _. repeat split; auto.
    - intros skill _ [=].
    - discriminate.
    - apply Heco1. }
  destruct (Z.leb_spec (cost skill) (neuralData g)) as [Hle|Hlt]; cbn [fst snd].
  - (* bought *)
    pose proof (findSkill_cost_nonneg _ _ Hfind) as Hcost.
    assert (Hdeduct : wrap64 (neuralData g - cost skill) = neuralData g - cost skill).
    { apply wrap64_id. unfold in_long_long, LLONG_MIN, LLONG_MAX in *. lia. }
    split; [|split; [|split]].
    + intros [Hyes|[Hno|[skill' [[= <-] Hlt]]]]; [discriminate|discriminate|lia].
    + intros skill' _ [= <-] _. cbn. rewrite Hdeduct.
      split; [reflexivity|]. split; [reflexivity|]. split.
      * unfold hasSkill. cbn. rewrite lookup_insert_eq. reflexivity.
      * intros k Hk. unfold hasSkill. cbn.
        rewrite lookup_insert_ne by congruence. exact (Hg1 k).
    + intros _. rewrite buySkill_unfold.
      replace (hasSkill _ skillId) with true; [repeat split|].
      unfold hasSkill. cbn. rewrite lookup_insert_eq. reflexivity.
    + destruct Heco1 as (? & ? & ? & ? & ? & ?). repeat split; cbn; assumption.
  - (* too expensive *)
    split; [|split; [|split]].
    + intros _. repeat split; auto.
    + intros skill' _ [= <-] Hle. lia.
    + discriminate.
    + apply Heco1.
Qed.

Lemma buySkill_correct_witness :
  in_long_long 7 /\
  fst (buySkill (set_neuralData (newGameEngine 0 0 0) 7) "auto_click") = true /\
  neuralData (snd (buySkill (set_neuralData (newGameEngine 0 0 0) 7) "auto_click")) = 2.
Proof.
  assert (Hrange : in_long_long 7) by (unfold in_long_long, LLONG_MIN, LLONG_MAX; lia).
  split; [exact Hrange|].
  pose proof (buySkill_correct (set_neuralData (newGameEngine 0 0 0) 7) "auto_click" Hrange)
    as (_ & Hbuy & _).
  specialize (Hbuy {| s_id := "auto_click"; s_name := "Auto-Clicker"; cost := 5;
                      description := "Automatic clicks 1x/sec" |}
                eq_refl eq_refl ltac:(cbn; lia)).
  destruct Hbuy as (Hok & Hnd & _). split; [exact Hok|exact Hnd].
Defined.
(** * Prestige *)

Lemma hasSkill_ownedSkills (g g' : GameEngine) (skillId : string) :
  ownedSkills g' = ownedSkills g -> hasSkill g' skillId = hasSkill g skillId.
Proof. unfold hasSkill. intros ->. reflexivity. Qed.

Lemma Forall_replicate_zero (n : nat) : Forall (fun count : Z => count = 0) (replicate n 0).
Proof. induction n; cbn; constructor; auto. Qed.

(** C1, the claim as written fails: with [neuralData] at the top of
    [long long] and one million in the bank the potential is 1, and the
    addition wraps to [LLONG_MIN] instead of adding 1. *)
Lemma doPrestige_as_specified_fails :
  ~ doPrestige_as_specified
      (set_money (set_neuralData (newGameEngine 0 0 0) LLONG_MAX) 1000000).
Proof.
  intros H.
  assert (Hp : calculatePrestigePotential
                 (set_money (set_neuralData (newGameEngine 0 0 0) LLONG_MAX) 1000000)
               = Some 1) by (vm_compute; reflexivity).
  destruct (H 1 Hp) as [Hpos _].
  destruct (Hpos ltac:(lia)) as (g' & Hdo & Hnd & _).
  vm_compute in Hdo. injection Hdo as <-.
  vm_compute in Hnd. discriminate Hnd.
Qed.

(** C1, amended.  For every state in which the potential is a value [p]:
    if [p > 0], [doPrestige] replaces [neuralData] by the 64-bit wrap of
    [neuralData + p] (that is [neuralData + p] itself whenever the sum fits
    [long long]), sets [money] to 0, every [buildingCounts] entry to 0 and
    [incomeMultiplier] to 1.0, and leaves the skill map and the statistics
    untouched; if [p = 0] the state is unchanged. *)
Theorem doPrestige_correct (g : GameEngine) (p : Z) :
  calculatePrestigePotential g = Some p ->
  (0 < p ->
   exists g', doPrestige g = Some g' /\
     prestige_reset g g' (wrap64 (neuralData g + p)) /\
     (in_long_long (neuralData g + p) -> prestige_reset g g' (neuralData g + p)) /\
     ownedSkills g' = ownedSkills g /\
     totalClicks g' = totalClicks g /\ totalEarnings g' = totalEarnings g /\
     globalIncomePerSec g' = globalIncomePerSec g) /\
  (p = 0 -> doPrestige g = Some g).
Proof.
  intros Hp. unfold doPrestige. rewrite Hp. split.
  - intros Hpos. apply Z.ltb_lt in Hpos. rewrite Hpos.
    eexists. split; [reflexivity|].
    assert (Hreset : forall nd, wrap64 (neuralData g + p) = nd ->
              prestige_reset g
                (set_incomeMultiplier
                   (set_buildingCounts
                      (set_money (set_neuralData g (wrap64 (neuralData g + p))) 0)
                      (replicate (length (buildingCounts g)) 0)) 1) nd).
    { intros nd Hnd. unfold prestige_reset. cbn.
      rewrite length_replicate.
      repeat split; auto using Forall_replicate_zero. }
    split; [apply Hreset; reflexivity|].
    split; [intros Hfit; apply Hreset, wrap64_id, Hfit|].
    cbn. repeat split.
  - intros ->. reflexivity.
Qed.

Lemma doPrestige_correct_witness :
  calculatePrestigePotential (set_money (newGameEngine 0 0 0) 2000000) = Some 1 /\
  exists g', doPrestige (set_money (newGameEngine 0 0 0) 2000000) = Some g' /\
             neuralData g' = 1 /\ money g' = 0%float.
Proof.
  assert (Hp : calculatePrestigePotential (set_money (newGameEngine 0 0 0) 2000000) = Some 1)
    by (vm_compute; reflexivity).
  split; [exact Hp|].
  destruct (doPrestige_correct _ _ Hp) as [Hpos _].
  destruct (Hpos ltac:(lia)) as (g' & Hdo & _ & Hfit & _).
  exists g'. split; [exact Hdo|].
  destruct (Hfit ltac:(vm_compute; split; discriminate)) as (Hnd & Hmoney & _).
  split; [exact Hnd|exact Hmoney].
Defined.

(** C2, the claim as written fails: at [money = 1e300] the value
    [floor (sqrt (money / 1000000))] is a whole number near [1e147]; no
    [long long] holds it, and the conversion has no defined result. *)
Lemma potential_as_specified_fails :
  ~ potential_as_specified (set_money (newGameEngine 0 0 0) 1e300).
Proof.
  unfold potential_as_specified. vm_compute. discriminate.
Qed.

(** C2, amended.  [calculatePrestigePotential] returns 0 when
    [money < 1,000,000].  Otherwise it returns the whole number
    [floor (sqrt (money / 1,000,000))] when that number fits [long long]
    (with [money = 2,000,000] it returns 1); when the number is too large,
    or when [money] is infinite or NaN, the conversion to [long long] has
    no defined result. *)
Theorem calculatePrestigePotential_correct (g : GameEngine) :
  ((money g <? 1000000)%float = true -> calculatePrestigePotential g = Some 0) /\
  ((money g <? 1000000)%float = false ->
   match integral_value (floor (sqrt (money g / 1000000)%float)) with
   | Some z =>
       (in_long_long z -> calculatePrestigePotential g = Some z) /\
       (~ in_long_long z -> calculatePrestigePotential g = None)
   | None => calculatePrestigePotential g = None
   end) /\
  (money g = 2000000%float -> calculatePrestigePotential g = Some 1).
Proof.
  unfold calculatePrestigePotential, long_long_of_double, integral_value.
  split; [intros ->; reflexivity|]. split.
  - intros ->.
    destruct (SFtrunc (Prim2SF (floor (sqrt (money g / 1000000))))) as [z|]; [|reflexivity].
    unfold in_long_long. split.
    + intros [Hlo Hhi]. apply Z.leb_le in Hlo, Hhi. rewrite Hlo, Hhi. reflexivity.
    + intros Hout.
      destruct (LLONG_MIN <=? z) eqn:Hlo; [|reflexivity].
      destruct (z <=? LLONG_MAX) eqn:Hhi; [|reflexivity].
      apply Z.leb_le in Hlo, Hhi. exfalso. apply Hout. split; assumption.
  - intros ->. vm_compute. reflexivity.
Qed.

Lemma calculatePrestigePotential_correct_witness :
  (money (set_money (newGameEngine 0 0 0) 25000000) <? 1000000)%float = false /\
  calculatePrestigePotential (set_money (newGameEngine 0 0 0) 25000000) = Some 5.
Proof.
  split; [vm_compute; reflexivity|].
  destruct (calculatePrestigePotential_correct (set_money (newGameEngine 0 0 0) 25000000))
    as (_ & Hge & _).
  specialize (Hge ltac:(vm_compute; reflexivity)).
  change (integral_value (floor (sqrt (money (set_money (newGameEngine 0 0 0) 25000000) / 1000000))))
    with (Some 5) in Hge.
  apply Hge. vm_compute. split; discriminate.
Defined.
(** * Cost curve and building purchase *)

Lemma getBuildingCost_Some (g : GameEngine) (buildingId : Z) (cost : double) :
  getBuildingCost g buildingId = Some cost ->
  0 <= buildingId < Z.of_nat (length getBuildings).
Proof.
  unfold getBuildingCost. destruct (Z.ltb_spec buildingId 0) as [|Hge]; [discriminate|].
  destruct (getBuildings !! Z.to_nat buildingId) as [b|] eqn:Hb; [|discriminate].
  intros _. apply lookup_lt_Some in Hb. lia.
Qed.

Lemma getBuildingCost_eq (g : GameEngine) (buildingId : Z) (b : BuildingDef) (count : Z) :
  0 <= buildingId ->
  getBuildings !! Z.to_nat buildingId = Some b ->
  buildingCounts g !! Z.to_nat buildingId = Some count ->
  getBuildingCost g buildingId = Some (costAt b (hasSkill g "cheaper") count).
Proof.
  intros Hid Hb Hcount. unfold getBuildingCost.
  destruct (Z.ltb_spec buildingId 0); [lia|].
  rewrite Hb, Hcount. reflexivity.
Qed.

(** [buyBuilding] in closed form, for an id that has a cost. *)
Lemma buyBuilding_unfold (g : GameEngine) (buildingId : Z) (cost : double) (count : Z) :
  getBuildingCost g buildingId = Some cost ->
  buildingCounts g !! Z.to_nat buildingId = Some count ->
  buyBuilding g buildingId =
  if (cost <=? money g)%float
  then Some (true, bought g buildingId cost (wrap32 (count + 1)))
  else Some (false, g).
Proof.
  intros Hcost Hcount. pose proof (getBuildingCost_Some _ _ _ Hcost) as Hid.
  unfold buyBuilding.
  destruct (Z.ltb_spec buildingId 0); [lia|].
  destruct (Z.leb_spec (Z.of_nat (length getBuildings)) buildingId); [lia|].
  cbn [orb]. rewrite Hcost.
  destruct (cost <=? money g)%float; [|reflexivity].
  cbn [buildingCounts set_money]. rewrite Hcount. reflexivity.
Qed.

Lemma buyBuilding_outside (g : GameEngine) (buildingId : Z) :
  buildingId < 0 \/ Z.of_nat (length getBuildings) <= buildingId ->
  buyBuilding g buildingId = Some (false, g).
Proof.
  intros Hout. unfold buyBuilding. destruct Hout as [Hlt|Hge].
  - apply Z.ltb_lt in Hlt. rewrite Hlt. reflexivity.
  - apply Z.leb_le in Hge. rewrite Hge, orb_true_r. reflexivity.
Qed.

(** C5, the claim as written fails: when [money] is NaN it is not below
    the cost, yet [money >= cost] is false as well and the purchase is
    declined. *)
Lemma buyBuilding_as_specified_fails :
  ~ buyBuilding_as_specified (set_money (newGameEngine 0 0 0) nan) 0.
Proof.
  intros (_ & H & _).
  destruct (H 15%float 0 eq_refl eq_refl) as [_ Hbuy].
  specialize (Hbuy eq_refl). vm_compute in Hbuy. discriminate Hbuy.
Qed.

(** C5, amended.  [buyBuilding] returns [false] and changes nothing when
    the id is outside the catalog and when [money >= cost] does not hold
    (money below the cost, or NaN).  When [money >= cost] it returns [true],
    replaces [money] by [money - cost] and the counter by the 32-bit wrap of
    [count + 1] (that is [count + 1] whenever the counter is below
    [INT_MAX]).  It never turns a non-negative [money] into a negative one,
    a declined purchase leaves the whole state as it was, and with one
    counter per catalog building the call always has a result. *)
Theorem buyBuilding_correct (g : GameEngine) (buildingId : Z) :
  ((buildingId < 0 \/ Z.of_nat (length getBuildings) <= buildingId) ->
   buyBuilding g buildingId = Some (false, g)) /\
  (forall cost count,
     getBuildingCost g buildingId = Some cost ->
     buildingCounts g !! Z.to_nat buildingId = Some count ->
     ((money g <? cost)%float = true -> buyBuilding g buildingId = Some (false, g)) /\
     ((cost <=? money g)%float = false -> buyBuilding g buildingId = Some (false, g)) /\
     ((cost <=? money g)%float = true ->
      buyBuilding g buildingId = Some (true, bought g buildingId cost (wrap32 (count + 1))) /\
      (in_int (count + 1) ->
       buyBuilding g buildingId = Some (true, bought g buildingId cost (count + 1))))) /\
  (forall ok g',
     buyBuilding g buildingId = Some (ok, g') ->
     ~ negative (money g) -> ~ negative (money g')) /\
  (forall g', buyBuilding g buildingId = Some (false, g') -> g' = g) /\
  (length (buildingCounts g) = length getBuildings -> is_Some (buyBuilding g buildingId)).
Proof.
  pose proof (buyBuilding_unfold g buildingId) as Hvalid.
  split; [|split; [|split; [|split]]].
  - apply buyBuilding_outside.
  - intros cost count Hcost Hcount. rewrite (Hvalid _ _ Hcost Hcount).
    split; [|split].
    + intros Hlt. rewrite (ltb_not_leb _ _ Hlt). reflexivity.
    + intros ->. reflexivity.
    + intros ->. split; [reflexivity|].
      intros Hfit. rewrite (wrap32_id _ Hfit). reflexivity.
  - intros ok g' Hbuy Hnonneg. unfold buyBuilding in Hbuy.
    destruct ((buildingId <? 0) || (Z.of_nat (length getBuildings) <=? buildingId)).
    { injection Hbuy as <- <-. exact Hnonneg. }
    destruct (getBuildingCost g buildingId) as [cost|]; [|discriminate].
    destruct (cost <=? money g)%float eqn:Hle.
    + cbn [buildingCounts set_money] in Hbuy.
      destruct (buildingCounts g !! Z.to_nat buildingId); [|discriminate].
      injection Hbuy as <- <-. cbn. apply sub_not_negative, Hle.
    + injection Hbuy as <- <-. exact Hnonneg.
  - intros g' Hbuy. unfold buyBuilding in Hbuy.
    destruct ((buildingId <? 0) || (Z.of_nat (length getBuildings) <=? buildingId)).
    { injection Hbuy as <-. reflexivity. }
    destruct (getBuildingCost g buildingId) as [cost|]; [|discriminate].
    destruct (cost <=? money g)%float.
    + cbn [buildingCounts set_money] in Hbuy.
      destruct (buildingCounts g !! Z.to_nat buildingId); discriminate.
    + injection Hbuy as <-. reflexivity.
  - intros Hlen. unfold buyBuilding.
    destruct (Z.ltb_spec buildingId 0) as [|Hge]; [eexists; reflexivity|].
    destruct (Z.leb_spec (Z.of_nat (length getBuildings)) buildingId) as [|Hlt];
      [eexists; reflexivity|].
    cbn [orb].
    destruct (lookup_lt_is_Some_2 (buildingCounts g) (Z.to_nat buildingId)
                ltac:(rewrite Hlen; lia)) as [count Hcount].
    destruct (lookup_lt_is_Some_2 getBuildings (Z.to_nat buildingId) ltac:(lia))
      as [b Hb].
    unfold getBuildingCost. destruct (Z.ltb_spec buildingId 0); [lia|].
    rewrite Hb, Hcount.
    destruct (_ <=? money g)%float; [|eexists; reflexivity].
    cbn [buildingCounts set_money]. rewrite Hcount. eexists; reflexivity.
Qed.

Lemma buyBuilding_correct_witness :
  ~ negative (money (set_money (newGameEngine 0 0 0) 15)) /\
  buyBuilding (set_money (newGameEngine 0 0 0) 15) 0
  = Some (true, set_buildingCounts (newGameEngine 0 0 0) [1; 0; 0; 0; 0; 0; 0]).
Proof.
  split; [unfold negative; vm_compute; discriminate|].
  destruct (buyBuilding_correct (set_money (newGameEngine 0 0 0) 15) 0) as (_ & H & _).
  destruct (H 15%float 0 eq_refl eq_refl) as (_ & _ & Hbuy).
  destruct (Hbuy eq_refl) as [_ Hexact].
  rewrite (Hexact ltac:(vm_compute; split; discriminate)). reflexivity.
Defined.
(** * Income, time and clicks *)

(** The indexed loop of [calculateIncomePerSec] visits the catalog entries
    that have a counter, in order. *)
Lemma income_loop_zip (counts : list Z) :
  fold_left
    (fun (baseIncome : double) (i : nat) =>
       match getBuildings !! i, counts !! i with
       | Some b, Some count => (baseIncome + income b * double_of_Z count)%float
       | _, _ => baseIncome
       end)
    (seq 0 (length getBuildings)) 0%float
  = baseIncomeSum counts.
Proof.
  unfold baseIncomeSum.
  do 7 (destruct counts as [|? counts]; [reflexivity|]). reflexivity.
Qed.

Lemma calculateIncomePerSec_unfold (g : GameEngine) :
  calculateIncomePerSec g =
  set_globalIncomePerSec g
    ((if hasSkill g "auto_click"
      then baseIncomeSum (buildingCounts g) + baseIncomeSum (buildingCounts g) * 0.05
      else baseIncomeSum (buildingCounts g)) * incomeMultiplier g)%float.
Proof.
  unfold calculateIncomePerSec. rewrite income_loop_zip. reflexivity.
Qed.

Lemma float_neq (x y : double) : Prim2SF x <> Prim2SF y -> x <> y.
Proof. intros H ->. apply H. reflexivity. Qed.

(** C7, the claim as written fails: with three Data Miners and
    "auto_click" the code computes [3 + 3 * 0.05], which is not the double
    [3 * 1.05]. *)
Lemma income_as_specified_fails :
  ~ income_as_specified
      (set_ownedSkills (set_buildingCounts (newGameEngine 0 0 0) [3; 0; 0; 0; 0; 0; 0])
         {[ "auto_click" := true ]}).
Proof.
  unfold income_as_specified. apply float_neq. vm_compute. discriminate.
Qed.

(** C7, amended.  [calculateIncomePerSec] sets the income rate to the sum
    over the buildings of [income * count], increased when "auto_click" is
    owned by 0.05 times itself ([s + s * 0.05], which in binary64 is not
    always [s * 1.05]), times [incomeMultiplier]; nothing else changes.  With
    "auto_click" owned, a sum of 100 and a multiplier of 1 the rate is
    105.0. *)
Theorem calculateIncomePerSec_correct (g : GameEngine) :
  let s := baseIncomeSum (buildingCounts g) in
  calculateIncomePerSec g =
    set_globalIncomePerSec g
      ((if hasSkill g "auto_click" then s + s * 0.05 else s) * incomeMultiplier g)%float /\
  (hasSkill g "auto_click" = true -> s = 100%float -> incomeMultiplier g = 1%float ->
   globalIncomePerSec (calculateIncomePerSec g) = 105%float).
Proof.
  cbn zeta. split; [apply calculateIncomePerSec_unfold|].
  intros Hskill Hsum Hmult. rewrite calculateIncomePerSec_unfold, Hskill, Hsum, Hmult.
  reflexivity.
Qed.

Lemma calculateIncomePerSec_correct_witness :
  globalIncomePerSec
    (calculateIncomePerSec
       (set_ownedSkills
          (set_buildingCounts (newGameEngine 0 0 0) [100; 0; 0; 0; 0; 0; 0])
          {[ "auto_click" := true ]}))
  = 105%float.
Proof.
  apply (calculateIncomePerSec_correct
           (set_ownedSkills
              (set_buildingCounts (newGameEngine 0 0 0) [100; 0; 0; 0; 0; 0; 0])
              {[ "auto_click" := true ]})); reflexivity.
Defined.

(** C8.  [update] first recomputes the income rate from the counters, the
    skills and the multiplier of the current state; if that rate is
    positive, [money] and [totalEarnings] both grow by [rate * deltaTime],
    whatever the size of [deltaTime]; otherwise neither changes.  The
    recomputed rate is stored, and no other member is touched. *)
Theorem update_correct (g : GameEngine) (deltaTime : double) :
  (0 <=? deltaTime)%float = true ->
  let s := baseIncomeSum (buildingCounts g) in
  let rate :=
    ((if hasSkill g "auto_click" then s + s * 0.05 else s) * incomeMultiplier g)%float in
  globalIncomePerSec (update g deltaTime) = rate /\
  ((0 <? rate)%float = true ->
   money (update g deltaTime) = (money g + rate * deltaTime)%float /\
   totalEarnings (update g deltaTime) = (totalEarnings g + rate * deltaTime)%float) /\
  ((0 <? rate)%float = false ->
   money (update g deltaTime) = money g /\
   totalEarnings (update g deltaTime) = totalEarnings g) /\
  neuralData (update g deltaTime) = neuralData g /\
  buildingCounts (update g deltaTime) = buildingCounts g /\
  ownedSkills (update g deltaTime) = ownedSkills g /\
  totalClicks (update g deltaTime) = totalClicks g /\
  incomeMultiplier (update g deltaTime) = incomeMultiplier g.
Proof.
  intros _ s rate. unfold update. rewrite calculateIncomePerSec_unfold.
  fold s. fold rate. cbn [globalIncomePerSec set_globalIncomePerSec].
  destruct (0 <? rate)%float; cbn; repeat split; discriminate.
Qed.

Lemma update_correct_witness :
  (0 <=? 10)%float = true /\
  money (update (set_buildingCounts (newGameEngine 0 0 0) [2; 1; 0; 0; 0; 0; 0]) 10)
  = 70%float.
Proof.
  split; [reflexivity|].
  destruct (update_correct
              (set_buildingCounts (newGameEngine 0 0 0) [2; 1; 0; 0; 0; 0; 0]) 10 eq_refl)
    as (_ & Hpos & _).
  destruct (Hpos eq_refl) as [Hmoney _]. rewrite Hmoney. reflexivity.
Defined.

(** C9, the claim as written fails: at [totalClicks = LLONG_MAX] the
    increment wraps to [LLONG_MIN]. *)
Lemma click_as_specified_fails :
  ~ click_as_specified (set_totalClicks (newGameEngine 0 0 0) LLONG_MAX).
Proof.
  intros [Hclicks _]. vm_compute in Hclicks. discriminate Hclicks.
Qed.

(** C9, amended.  [click] replaces [totalClicks] by the 64-bit wrap of
    [totalClicks + 1] (that is [totalClicks + 1] whenever the counter is
    below [LLONG_MAX]) and adds [1 + globalIncomePerSec * 0.05] to [money]
    and to [totalEarnings], where [globalIncomePerSec] is the stored rate:
    [click] neither recomputes nor changes it, so two states with the same
    stored rate get the same click value whatever their counters, skills and
    multiplier are. *)
Theorem click_correct (g : GameEngine) :
  click g =
    set_totalEarnings
      (set_money (set_totalClicks g (wrap64 (totalClicks g + 1)))
                 (money g + (1 + globalIncomePerSec g * 0.05))%float)
      (totalEarnings g + (1 + globalIncomePerSec g * 0.05))%float /\
  (in_long_long (totalClicks g + 1) -> click_as_specified g) /\
  globalIncomePerSec (click g) = globalIncomePerSec g /\
  (forall g', globalIncomePerSec g' = globalIncomePerSec g ->
     (money (click g') = money g' + clickValue g)%float).
Proof.
  split; [reflexivity|]. split; [|split; [reflexivity|]].
  - intros Hfit. unfold click_as_specified, clickValue. cbn.
    rewrite (wrap64_id _ Hfit). repeat split.
  - intros g' Hrate. unfold clickValue. cbn. rewrite Hrate. reflexivity.
Qed.

Lemma click_correct_witness :
  in_long_long (totalClicks (newGameEngine 0 0 0) + 1) /\
  totalClicks (click (newGameEngine 0 0 0)) = 1.
Proof.
  assert (Hfit : in_long_long (totalClicks (newGameEngine 0 0 0) + 1))
    by (vm_compute; split; discriminate).
  split; [exact Hfit|].
  destruct (click_correct (newGameEngine 0 0 0)) as (_ & Hspec & _).
  destruct (Hspec Hfit) as [Hclicks _]. exact Hclicks.
Defined.

(** The stored rate is not kept in step with the counters: after a
    purchase and before the next [update], [click] still pays the old
    value. *)
Lemma click_uses_stale_rate :
  let g := set_buildingCounts (newGameEngine 0 0 0) [100; 0; 0; 0; 0; 0; 0] in
  globalIncomePerSec (calculateIncomePerSec g) = 100%float /\
  money (click g) = 1%float /\
  money (click (calculateIncomePerSec g)) = 6%float.
Proof. cbn zeta. repeat split. Qed.
(** * The cost curve *)

(** ** Bit lengths *)

(** [Zdigits2] is the bit length. *)
Lemma Zdigits2_unique (z d : Z) :
  2 ^ (d - 1) <= z < 2 ^ d -> 0 < z -> Zdigits2 z = d.
Proof.
  intros [Hlo Hhi] Hz. destruct z as [|m|m]; try lia. cbn.
  pose proof (digits2_pos_bounds m) as [Blo Bhi].
  destruct (Z.lt_trichotomy (Zpos (digits2_pos m)) d) as [Hlt|[Heq|Hgt]]; [|exact Heq|].
  - assert (2 ^ Zpos (digits2_pos m) <= 2 ^ (d - 1)) by (apply Z.pow_le_mono_r; lia). lia.
  - assert (0 <= d).
    { destruct (Z.lt_ge_cases d 0) as [Hneg|]; [|assumption].
      rewrite Z.pow_neg_r in Hhi by lia. lia. }
    assert (2 ^ d <= 2 ^ (Zpos (digits2_pos m) - 1)) by (apply Z.pow_le_mono_r; lia). lia.
Qed.

Lemma Zdigits2_bounds (z : Z) :
  0 < z -> 2 ^ (Zdigits2 z - 1) <= z < 2 ^ Zdigits2 z.
Proof. destruct z as [|m|m]; try lia. intros _. apply digits2_pos_bounds. Qed.

Lemma Zdigits2_pos (z : Z) : 0 < z -> 0 < Zdigits2 z.
Proof. destruct z; cbn; lia. Qed.

Lemma Zdigits2_div_pow2 (z j : Z) :
  0 < z -> 0 <= j < Zdigits2 z -> Zdigits2 (z / 2 ^ j) = Zdigits2 z - j.
Proof.
  intros Hz Hj. pose proof (Zdigits2_bounds z Hz) as [Blo Bhi].
  assert (Hp : 0 < 2 ^ j) by (apply Z.pow_pos_nonneg; lia).
  assert (Hlo : 2 ^ (Zdigits2 z - j - 1) <= z / 2 ^ j).
  { apply Z.div_le_lower_bound; [lia|].
    rewrite <- Z.pow_add_r by lia. replace (j + (Zdigits2 z - j - 1)) with (Zdigits2 z - 1) by lia.
    exact Blo. }
  assert (Hhi : z / 2 ^ j < 2 ^ (Zdigits2 z - j)).
  { apply Z.div_lt_upper_bound; [lia|].
    rewrite <- Z.pow_add_r by lia. replace (j + (Zdigits2 z - j)) with (Zdigits2 z) by lia.
    exact Bhi. }
  apply Zdigits2_unique; [split; assumption|].
  assert (0 < 2 ^ (Zdigits2 z - j - 1)) by (apply Z.pow_pos_nonneg; lia). lia.
Qed.

(** ** Right shifts with round and sticky bits *)

Lemma iter_pos_nat {A : Type} (f : A -> A) (p : positive) (x : A) :
  SpecFloat.iter_pos f p x = Nat.iter (Pos.to_nat p) f x.
Proof.
  revert x. induction p as [p IH|p IH|]; intros x; cbn [SpecFloat.iter_pos].
  - rewrite !IH, Pos2Nat.inj_xI.
    replace (S (2 * Pos.to_nat p))%nat with (Pos.to_nat p + S (Pos.to_nat p))%nat by lia.
    rewrite Nat.iter_add. f_equal. rewrite Nat.iter_succ_r. reflexivity.
  - rewrite !IH, Pos2Nat.inj_xO.
    replace (2 * Pos.to_nat p)%nat with (Pos.to_nat p + Pos.to_nat p)%nat by lia.
    rewrite Nat.iter_add. reflexivity.
  - reflexivity.
Qed.

Lemma shr_1_spec (m : Z) (r s : bool) :
  0 <= m ->
  shr_1 (Build_shr_record m r s) = Build_shr_record (Z.div2 m) (Z.odd m) (r || s).
Proof.
  intros Hm. destruct m as [|[p|p|]|]; try lia; reflexivity.
Qed.

(** After [j] shifts of a non-negative [m]: the quotient, and whether
    anything was shifted out. *)
Lemma shr_iter_spec (m : Z) (j : nat) :
  0 <= m ->
  let R := Nat.iter j shr_1 (Build_shr_record m false false) in
  shr_m R = m / 2 ^ Z.of_nat j /\
  (shr_r R || shr_s R)%bool = negb (m mod 2 ^ Z.of_nat j =? 0).
Proof.
  intros Hm. induction j as [|j IH]; cbn zeta.
  - cbn. rewrite Z.div_1_r, Z.mod_1_r. split; reflexivity.
  - rewrite Nat.iter_succ. cbn zeta in IH. destruct IH as [IHm IHs].
    destruct (Nat.iter j shr_1 _) as [mj rj sj]. cbn [shr_m shr_r shr_s] in *.
    assert (Hp : 0 < 2 ^ Z.of_nat j) by (apply Z.pow_pos_nonneg; lia).
    assert (Hmj : 0 <= mj) by (subst mj; apply Z.div_pos; lia).
    rewrite (shr_1_spec _ _ _ Hmj). cbn [shr_m shr_r shr_s].
    rewrite Nat2Z.inj_succ, Z.pow_succ_r by lia.
    split.
    + rewrite Z.div2_div, IHm, Z.div_div by lia. f_equal. lia.
    + rewrite IHs, IHm. rewrite (Z.mul_comm 2), Z.rem_mul_r by lia.
      rewrite (Zmod_odd (m / 2 ^ Z.of_nat j)).
      pose proof (Z.mod_pos_bound m (2 ^ Z.of_nat j) Hp).
      destruct (Z.odd (m / 2 ^ Z.of_nat j));
      destruct (Z.eqb_spec (m mod 2 ^ Z.of_nat j) 0) as [E2|E2];
      cbn [orb negb];
      match goal with
      | |- _ = negb (?x =? 0) => destruct (Z.eqb_spec x 0) as [E3|E3]
      end; cbn; try reflexivity; lia.
Qed.

Lemma shr_fexp_preshift (M : positive) (E A j : Z) :
  0 < j -> A = Zpos M / 2 ^ j -> 0 < A -> Zpos M mod 2 ^ j <> 0 ->
  j < fexp prec emax (Zdigits2 A + j + E) - E ->
  shr_fexp prec emax (Zpos M) E loc_Exact
  = shr_fexp prec emax A (E + j) (loc_Inexact Lt).
Proof.
  intros Hj HA Hpos Hrem Hk.
  assert (Hp : 0 < 2 ^ j) by (apply Z.pow_pos_nonneg; lia).
  assert (Hdj : j < Zdigits2 (Zpos M)).
  { destruct (Z.lt_ge_cases j (Zdigits2 (Zpos M))) as [|Hge]; [assumption|exfalso].
    pose proof (Zdigits2_bounds (Zpos M) ltac:(lia)) as [_ Bhi].
    assert (2 ^ Zdigits2 (Zpos M) <= 2 ^ j) by (apply Z.pow_le_mono_r; lia).
    rewrite Z.div_small in HA by lia. lia. }
  assert (HdA : Zdigits2 A = Zdigits2 (Zpos M) - j).
  { rewrite HA. apply Zdigits2_div_pow2; lia. }
  unfold shr_fexp.
  replace (Zdigits2 A + (E + j)) with (Zdigits2 A + j + E) by lia.
  replace (Zdigits2 (Zpos M) + E) with (Zdigits2 A + j + E) by lia.
  set (k := fexp prec emax (Zdigits2 A + j + E) - E) in *.
  replace (fexp prec emax (Zdigits2 A + j + E) - (E + j)) with (k - j) by (unfold k; lia).
  unfold shr.
  destruct k as [|kp|kp] eqn:Hkp; try lia.
  destruct (Zpos kp - j) as [|rp|rp] eqn:Hrp; try lia.
  f_equal; [|lia].
  rewrite !iter_pos_nat. cbn [shr_record_of_loc].
  replace (Pos.to_nat kp) with (Pos.to_nat rp + Z.to_nat j)%nat by lia.
  rewrite Nat.iter_add.
  destruct (Pos.to_nat rp) as [|r'] eqn:Hr'; [lia|].
  rewrite !Nat.iter_succ_r. f_equal.
  pose proof (shr_iter_spec (Zpos M) (Z.to_nat j) ltac:(lia)) as [Hm Hs].
  rewrite Z2Nat.id in Hm, Hs by lia.
  destruct (Nat.iter (Z.to_nat j) shr_1 _) as [mR rR sR]. cbn [shr_m shr_r shr_s] in *.
  rewrite <- HA in Hm. subst mR.
  rewrite !shr_1_spec by lia. f_equal.
  rewrite Hs. destruct (Z.eqb_spec (Zpos M mod 2 ^ j) 0); [contradiction|reflexivity].
Qed.

(** Rounding a long mantissa: the bits below the guard digits matter only
    through being non-zero. *)
Lemma binary_round_preshift (s : bool) (M : positive) (E A j : Z) :
  0 < j -> A = Zpos M / 2 ^ j -> 0 < A -> Zpos M mod 2 ^ j <> 0 ->
  j < fexp prec emax (Zdigits2 A + j + E) - E ->
  binary_round prec emax s M E
  = binary_round_aux prec emax s A (E + j) (loc_Inexact Lt).
Proof.
  intros Hj HA Hpos Hrem Hk.
  assert (Hp : 0 < 2 ^ j) by (apply Z.pow_pos_nonneg; lia).
  assert (Hdj : j < Zdigits2 (Zpos M)).
  { destruct (Z.lt_ge_cases j (Zdigits2 (Zpos M))) as [|Hge]; [assumption|exfalso].
    pose proof (Zdigits2_bounds (Zpos M) ltac:(lia)) as [_ Bhi].
    assert (2 ^ Zdigits2 (Zpos M) <= 2 ^ j) by (apply Z.pow_le_mono_r; lia).
    rewrite Z.div_small in HA by lia. lia. }
  assert (HdA : Zdigits2 A = Zdigits2 (Zpos M) - j).
  { rewrite HA. apply Zdigits2_div_pow2; lia. }
  unfold binary_round, shl_align.
  change (Zpos (digits2_pos M)) with (Zdigits2 (Zpos M)).
  replace (Zdigits2 (Zpos M) + E) with (Zdigits2 A + j + E) by lia.
  destruct (fexp prec emax (Zdigits2 A + j + E) - E) as [|kp|kp] eqn:Hkp; try lia.
  unfold binary_round_aux.
  rewrite (shr_fexp_preshift M E A j) by (try assumption; lia).
  reflexivity.
Qed.

Lemma enclosure_mul_ok (m M : Z) (b : Z * Z * Z) :
  0 < m -> encloses M b -> encloses (M * m) (enclosure_mul m b).
Proof.
  intros Hm. destruct b as [[L U] t]. unfold encloses, enclosure_mul.
  intros (Ht & HL & Hlo & Hhi).
  assert (Hpt : 0 < 2 ^ t) by (apply Z.pow_pos_nonneg; lia).
  destruct (Z.ltb_spec 0 (Zdigits2 (L * m) - 128)) as [Hs|Hs].
  - set (s := Zdigits2 (L * m) - 128) in *.
    assert (Hps : 0 < 2 ^ s) by (apply Z.pow_pos_nonneg; lia).
    rewrite Z.pow_add_r by lia.
    pose proof (Z.mul_div_le (L * m) (2 ^ s) Hps).
    pose proof (Z.mul_succ_div_gt (U * m) (2 ^ s) Hps).
    assert (0 < L * m / 2 ^ s).
    { apply Z.div_str_pos. split; [lia|].
      pose proof (Zdigits2_bounds (L * m) ltac:(nia)) as [Blo _].
      eapply Z.le_trans; [|exact Blo]. apply Z.pow_le_mono_r; lia. }
    repeat split; try lia; nia.
  - repeat split; try lia; nia.
Qed.

Lemma round_enclosed_ok (E : Z) (M : positive) (b : Z * Z * Z) (r : spec_float) :
  encloses (Zpos M) b -> round_enclosed E b = Some r ->
  binary_normalize prec emax (Zpos M) E false = r.
Proof.
  destruct b as [[L U] t]. unfold encloses, round_enclosed.
  intros (Ht & HL & Hlo & Hhi).
  destruct ((t =? 0) && (L =? U)) eqn:Hexact.
  - apply andb_true_iff in Hexact as [Ht0 HLU].
    apply Z.eqb_eq in Ht0, HLU. subst t U.
    cbv iota. intros [= <-]. f_equal. change (2 ^ 0) with 1 in *. lia.
  - set (x := Zdigits2 L - 64). set (A := L / 2 ^ x). set (j := t + x).
    match goal with
    | |- (if ?c then _ else _) = _ -> _ => destruct c eqn:Hchk
    end; [|discriminate]. intros [= <-].
    repeat (apply andb_true_iff in Hchk as [Hchk ?]).
    repeat match goal with
           | H : (_ <? _) = true |- _ => apply Z.ltb_lt in H
           | H : (_ =? _) = true |- _ => apply Z.eqb_eq in H
           end.
    assert (Hpt : 0 < 2 ^ t) by (apply Z.pow_pos_nonneg; lia).
    assert (Hpx : 0 < 2 ^ x) by (apply Z.pow_pos_nonneg; lia).
    assert (Hpj : 2 ^ j = 2 ^ x * 2 ^ t) by (unfold j; rewrite Z.pow_add_r; lia).
    assert (HA : A = Zpos M / 2 ^ j).
    { rewrite Hpj. apply Z.le_antisymm.
      - apply Z.div_le_lower_bound; [nia|].
        pose proof (Z.mul_div_le L (2 ^ x) Hpx). fold A in H3. nia.
      - apply Z.lt_succ_r. apply Z.div_lt_upper_bound; [nia|].
        pose proof (Z.mul_succ_div_gt U (2 ^ x) Hpx).
        replace (U / 2 ^ x) with A in * by assumption. nia. }
    unfold binary_normalize. apply binary_round_preshift; try assumption; try lia.
    rewrite Z.mod_eq by lia. rewrite <- HA, Hpj. nia.
Qed.

Lemma rounded_powers_ok (m : positive) (e : Z) (n : nat) :
  forall (k : positive) (b : Z * Z * Z) (E : Z) (i : nat) (r : spec_float),
    encloses (Zpos (m ^ k)) b -> E = e * Zpos k ->
    nth_error (rounded_powers (Zpos m) e n b E) i = Some (Some r) ->
    binary_normalize prec emax (Zpos m ^ (Zpos k + Z.of_nat i))
      (e * (Zpos k + Z.of_nat i)) false = r.
Proof.
  induction n as [|n IH]; intros k b E i r Hb HE Hnth.
  - destruct i; discriminate Hnth.
  - destruct i as [|i]; cbn [rounded_powers nth_error] in Hnth.
    + injection Hnth as Hr. rewrite Z.add_0_r, <- HE.
      rewrite <- Pos2Z.inj_pow. apply (round_enclosed_ok _ _ b); assumption.
    + replace (Zpos k + Z.of_nat (S i)) with (Zpos (k + 1) + Z.of_nat i) by lia.
      apply (IH (k + 1)%positive (enclosure_mul (Zpos m) b) (E + e)).
      * rewrite Pos.add_1_r, Pos.pow_succ_r, Pos.mul_comm, Pos2Z.inj_mul.
        apply enclosure_mul_ok; [lia|assumption].
      * lia.
      * exact Hnth.
Qed.


Lemma shr_iter_m (R : shr_record) (j : nat) :
  0 <= shr_m R -> shr_m (Nat.iter j shr_1 R) = shr_m R / 2 ^ Z.of_nat j.
Proof.
  intros Hm. induction j as [|j IH].
  - cbn. rewrite Z.div_1_r. reflexivity.
  - rewrite Nat.iter_succ.
    destruct (Nat.iter j shr_1 R) as [mj rj sj]. cbn [shr_m] in IH.
    assert (Hp : 0 < 2 ^ Z.of_nat j) by (apply Z.pow_pos_nonneg; lia).
    assert (Hmj : 0 <= mj) by (rewrite IH; apply Z.div_pos; lia).
    rewrite (shr_1_spec _ _ _ Hmj). cbn [shr_m].
    rewrite Nat2Z.inj_succ, Z.pow_succ_r, Z.div2_div, IH, Z.div_div by lia.
    f_equal. lia.
Qed.

Lemma Zdigits2_le (a b : Z) : 0 < a -> a <= b -> Zdigits2 a <= Zdigits2 b.
Proof.
  intros Ha Hab.
  destruct (Z.le_gt_cases (Zdigits2 a) (Zdigits2 b)) as [|Hgt]; [assumption|exfalso].
  pose proof (Zdigits2_bounds a Ha) as [Alo _].
  pose proof (Zdigits2_bounds b ltac:(lia)) as [_ Bhi].
  assert (2 ^ Zdigits2 b <= 2 ^ (Zdigits2 a - 1)).
  { apply Z.pow_le_mono_r; [lia|]. lia. }
  lia.
Qed.

(** What [shr_fexp] returns above the overflow threshold: a positive
    mantissa of at most [prec] digits, still worth [2^emax] or more. *)
Lemma shr_fexp_overflow (mx ex : Z) (lx : location) :
  0 < mx -> emax < Zdigits2 mx + ex ->
  let '(mrs, e) := shr_fexp prec emax mx ex lx in
  0 < shr_m mrs /\ Zdigits2 (shr_m mrs) <= prec /\ emax < Zdigits2 (shr_m mrs) + e.
Proof.
  intros Hpos Hbig. unfold shr_fexp, shr.
  assert (Hf : fexp prec emax (Zdigits2 mx + ex) = Zdigits2 mx + ex - 53).
  { unfold fexp, emin, prec, emax in *. lia. }
  rewrite Hf. unfold prec, emax in *.
  assert (Hm : shr_m (shr_record_of_loc mx lx) = mx) by (destruct lx as [|[]]; reflexivity).
  destruct (Zdigits2 mx + ex - 53 - ex) as [|kp|kp] eqn:Hk.
  - rewrite Hm. lia.
  - rewrite iter_pos_nat, shr_iter_m, Hm by (rewrite Hm; lia).
    rewrite positive_nat_Z.
    rewrite (Zdigits2_div_pow2 mx (Zpos kp)) by lia.
    split; [|lia].
    apply Z.div_str_pos. split; [apply Z.pow_pos_nonneg; lia|].
    pose proof (Zdigits2_bounds mx Hpos) as [Blo _].
    eapply Z.le_trans; [|exact Blo]. apply Z.pow_le_mono_r; lia.
  - rewrite Hm. lia.
Qed.

Lemma round_nearest_even_ge (m : Z) (l : location) : m <= round_nearest_even m l.
Proof.
  unfold round_nearest_even. destruct l as [|[]]; try lia. destruct (Z.even m); lia.
Qed.

(** A positive value of [2^emax] or more rounds to infinity. *)
Lemma binary_round_aux_overflow (s : bool) (mx ex : Z) (lx : location) :
  0 < mx -> emax < Zdigits2 mx + ex ->
  binary_round_aux prec emax s mx ex lx = S754_infinity s.
Proof.
  intros Hpos Hbig. unfold binary_round_aux.
  pose proof (shr_fexp_overflow mx ex lx Hpos Hbig) as H1.
  destruct (shr_fexp prec emax mx ex lx) as [mrs' e']. destruct H1 as (Hm' & Hd' & He').
  set (m1 := round_nearest_even (shr_m mrs') (loc_of_shr_record mrs')).
  assert (Hge : shr_m mrs' <= m1) by apply round_nearest_even_ge.
  assert (Hm1 : 0 < m1) by lia.
  pose proof (Zdigits2_le _ _ Hm' Hge) as Hmono.
  assert (Hbig' : emax < Zdigits2 m1 + e') by lia.
  pose proof (shr_fexp_overflow m1 e' loc_Exact Hm1 Hbig') as H2.
  destruct (shr_fexp prec emax m1 e' loc_Exact) as [mrs'' e''].
  destruct H2 as (Hm'' & Hd'' & He'').
  destruct (shr_m mrs'') as [|m''|m'']; try lia.
  destruct (Z.leb_spec e'' (emax - prec)); [lia|reflexivity].
Qed.

Lemma Zdigits2_lower (z a : Z) : 0 < z -> 2 ^ (a - 1) <= z -> a <= Zdigits2 z.
Proof.
  intros Hz Ha.
  destruct (Z.le_gt_cases a (Zdigits2 z)) as [|Hgt]; [assumption|exfalso].
  pose proof (Zdigits2_bounds z Hz) as [_ Bhi].
  pose proof (Zdigits2_pos z Hz).
  assert (2 ^ Zdigits2 z <= 2 ^ (a - 1)) by (apply Z.pow_le_mono_r; lia).
  lia.
Qed.

Lemma binary_round_overflow (s : bool) (M : positive) (E : Z) :
  emax < Zdigits2 (Zpos M) + E -> binary_round prec emax s M E = S754_infinity s.
Proof.
  intros Hbig. unfold binary_round.
  pose proof (shl_align_fst M E (fexp prec emax (Zpos (digits2_pos M) + E))) as Hal.
  unfold shl_align in *.
  destruct (fexp prec emax (Zpos (digits2_pos M) + E) - E) as [|d|d] eqn:Hd.
  - apply binary_round_aux_overflow; [lia|exact Hbig].
  - apply binary_round_aux_overflow; [lia|exact Hbig].
  - apply binary_round_aux_overflow; [lia|].
    cbn [fst] in Hal.
    assert (Hlt : fexp prec emax (Zpos (digits2_pos M) + E) <= E) by lia.
    specialize (Hal Hlt).
    set (delta := E - fexp prec emax (Zpos (digits2_pos M) + E)) in *.
    pose proof (Zdigits2_bounds (Zpos M) ltac:(lia)) as [Blo _].
    pose proof (Zdigits2_pos (Zpos M) ltac:(lia)) as Hdp.
    assert (Hp : 0 < 2 ^ delta) by (apply Z.pow_pos_nonneg; lia).
    assert (Hlow : Zdigits2 (Zpos M) + delta <= Zdigits2 (Zpos (Pos.iter xO M d))).
    { apply Zdigits2_lower; [lia|]. rewrite Hal.
      replace (Zdigits2 (Zpos M) + delta - 1) with (Zdigits2 (Zpos M) - 1 + delta) by lia.
      rewrite Z.pow_add_r by lia. nia. }
    unfold delta in *. lia.
Qed.

(** ** Powers of the growth rate *)

Lemma Prim2SF_growth :
  Prim2SF PRICE_GROWTH_RATE = S754_finite false growth_mantissa growth_exponent.
Proof. reflexivity. Qed.

Lemma pow_growth_pos (n : Z) :
  0 < n ->
  pow PRICE_GROWTH_RATE n =
  SF2Prim (binary_normalize prec emax (Zpos growth_mantissa ^ n) (growth_exponent * n) false).
Proof.
  intros Hn. unfold pow. rewrite Prim2SF_growth. unfold SFpow.
  destruct (Z.eqb_spec n 0); [lia|]. destruct (Z.ltb_spec 0 n); [|lia]. reflexivity.
Qed.

Lemma growth_powers_ok (limit i : nat) (r : spec_float) :
  nth_error (growth_powers limit) i = Some (Some r) ->
  pow PRICE_GROWTH_RATE (1 + Z.of_nat i) = SF2Prim r.
Proof.
  intros Hnth. rewrite pow_growth_pos by lia. f_equal.
  apply (rounded_powers_ok growth_mantissa growth_exponent limit 1%positive
           (Zpos growth_mantissa, Zpos growth_mantissa, 0) growth_exponent);
    [|reflexivity|exact Hnth].
  unfold encloses. rewrite Pos.pow_1_r. change (2 ^ 0) with 1. lia.
Qed.

Lemma encloses_iter (m : positive) (k : nat) :
  encloses (Zpos (m ^ Pos.of_succ_nat k))
    (Nat.iter k (enclosure_mul (Zpos m)) (Zpos m, Zpos m, 0)).
Proof.
  induction k as [|k IH].
  - cbn [Nat.iter nat_rect Pos.of_succ_nat]. unfold encloses.
    rewrite Pos.pow_1_r. change (2 ^ 0) with 1. lia.
  - rewrite Nat.iter_succ. cbn [Pos.of_succ_nat].
    rewrite Pos.pow_succ_r, Pos.mul_comm, Pos2Z.inj_mul.
    apply enclosure_mul_ok; [lia|exact IH].
Qed.

Lemma encloses_at_least (M : Z) (b : Z * Z * Z) (d : Z) :
  encloses M b -> enclosure_at_least b d = true -> 2 ^ d <= M.
Proof.
  destruct b as [[L U] t]. unfold encloses, enclosure_at_least.
  intros (Ht & HL & Hlo & _) Hchk.
  apply andb_true_iff in Hchk as [Hd HdL]. apply Z.leb_le in Hd, HdL.
  replace d with ((d - t) + t) by lia. rewrite Z.pow_add_r by lia.
  assert (0 < 2 ^ t) by (apply Z.pow_pos_nonneg; lia). nia.
Qed.

(** Once [1.15^k] is worth [2^1028] or more, [pow (1.15, n)] is
    [+infinity] for every [n >= k]. *)
Lemma pow_growth_overflow_from (k : nat) (n : Z) :
  enclosure_at_least
    (Nat.iter k (enclosure_mul (Zpos growth_mantissa))
       (Zpos growth_mantissa, Zpos growth_mantissa, 0))
    (52 * (Z.of_nat k + 1) + 1028) = true ->
  Z.of_nat k + 1 <= n ->
  pow PRICE_GROWTH_RATE n = infinity.
Proof.
  intros Hchk Hn. rewrite pow_growth_pos by lia.
  pose proof (encloses_at_least _ _ _ (encloses_iter growth_mantissa k) Hchk) as Hbase.
  rewrite Pos2Z.inj_pow, Zpos_P_of_succ_nat in Hbase.
  replace (Z.succ (Z.of_nat k)) with (Z.of_nat k + 1) in Hbase by lia.
  set (K := Z.of_nat k + 1) in *.
  assert (Hbig : 2 ^ (52 * n + 1028) <= Zpos growth_mantissa ^ n).
  { assert (Hr : exists r, 0 <= r /\ n = K + r) by (exists (n - K); lia).
    destruct Hr as (r & Hr0 & ->).
    replace (52 * (K + r) + 1028) with ((52 * K + 1028) + 52 * r) by lia.
    rewrite (Z.pow_add_r 2 (52 * K + 1028) (52 * r)) by lia.
    rewrite (Z.pow_add_r (Zpos growth_mantissa) K r) by lia.
    apply Z.mul_le_mono_nonneg.
    - apply Z.pow_nonneg; lia.
    - exact Hbase.
    - apply Z.pow_nonneg; lia.
    - rewrite Z.pow_mul_r by lia. apply Z.pow_le_mono_l. split; [lia|].
      vm_compute. discriminate. }
  destruct n as [|np|np]; try lia.
  rewrite <- Pos2Z.inj_pow in *.
  cbn [binary_normalize].
  rewrite binary_round_overflow; [reflexivity|].
  pose proof (Zdigits2_lower (Zpos (growth_mantissa ^ np)) (52 * Zpos np + 1029)
                ltac:(lia)) as Hd.
  replace (52 * Zpos np + 1029 - 1) with (52 * Zpos np + 1028) in Hd by lia.
  specialize (Hd Hbig). unfold emax, growth_exponent. lia.
Qed.

(** From the count 5100 on, [pow (1.15, n)] is [+infinity]. *)
Lemma pow_growth_overflow (n : Z) : 5100 <= n -> pow PRICE_GROWTH_RATE n = infinity.
Proof.
  intros Hn. apply (pow_growth_overflow_from (Z.to_nat 5099)).
  - vm_compute. reflexivity.
  - rewrite Z2Nat.id by lia. lia.
Qed.

(** ** The shape of the cost curve *)

Lemma costAt_zero (b : BuildingDef) (cheaper : bool) :
  costAt b cheaper 0 = cost_of_power b cheaper 1.
Proof. reflexivity. Qed.

Lemma cost_of_power_infinity (b : BuildingDef) (cheaper : bool) :
  b ∈ getBuildings -> cost_of_power b cheaper infinity = infinity.
Proof.
  intros Hb. apply list_elem_of_In in Hb. unfold getBuildings in Hb. cbn in Hb.
  destruct cheaper;
    repeat (destruct Hb as [<-|Hb]; [reflexivity|]); contradiction.
Qed.

Lemma infinity_not_below_itself : (infinity <? infinity)%float = false.
Proof. reflexivity. Qed.

Lemma costs_ok_sound (b : BuildingDef) (cheaper : bool) (T : Z)
    (powers : list (option spec_float)) :
  forall (k : Z) (prev : double),
    costs_ok b cheaper T k prev powers = true ->
    prev = costAt b cheaper (k - 1) ->
    (forall i r, nth_error powers i = Some (Some r) ->
                 pow PRICE_GROWTH_RATE (k + Z.of_nat i) = SF2Prim r) ->
    forall i, (i < length powers)%nat ->
      (k + Z.of_nat i <= T -> cost_strictly_increasing_at b cheaper (k + Z.of_nat i - 1)) /\
      (T <= k + Z.of_nat i -> costAt b cheaper (k + Z.of_nat i) = infinity).
Proof.
  induction powers as [|[p|] powers IH]; intros k prev Hok Hprev Hpow i Hi.
  - cbn in Hi. lia.
  - cbn [costs_ok] in Hok.
    apply andb_true_iff in Hok as [Hok Hrest].
    apply andb_true_iff in Hok as [Hinc Hinf].
    assert (Hk : costAt b cheaper k = cost_of_power b cheaper (SF2Prim p)).
    { unfold costAt. rewrite <- (Hpow 0%nat p eq_refl), Z.add_0_r. reflexivity. }
    destruct i as [|i].
    + rewrite Z.add_0_r. split.
      * intros HT. apply Z.leb_le in HT. rewrite HT in Hinc.
        unfold cost_strictly_increasing_at.
        replace (k - 1 + 1) with k by lia. rewrite Hk, <- Hprev. exact Hinc.
      * intros HT. apply Z.leb_le in HT. rewrite HT in Hinf.
        rewrite Hk. apply FloatAxioms.Leibniz.eqb_spec, Hinf.
    + replace (k + Z.of_nat (S i)) with (k + 1 + Z.of_nat i) by lia.
      apply (IH (k + 1) (cost_of_power b cheaper (SF2Prim p))).
      * exact Hrest.
      * replace (k + 1 - 1) with k by lia. symmetry. exact Hk.
      * intros i' r Hnth.
        replace (k + 1 + Z.of_nat i') with (k + Z.of_nat (S i')) by lia.
        apply Hpow. exact Hnth.
      * cbn in Hi. lia.
  - discriminate Hok.
Qed.

Lemma rounded_powers_length (m e : Z) (n : nat) :
  forall (b : Z * Z * Z) (E : Z), length (rounded_powers m e n b E) = n.
Proof.
  induction n as [|n IH]; intros b E; cbn; [reflexivity|].
  rewrite IH. reflexivity.
Qed.

Lemma growth_powers_length (limit : nat) : length (growth_powers limit) = limit.
Proof. apply rounded_powers_length. Qed.

Lemma cost_curve_ok_5100 :
  all_costs_ok getBuildings overflow_counts (growth_powers (Z.to_nat 5100)) = true.
Proof. vm_compute. reflexivity. Qed.

Lemma overflow_counts_range (id : nat) (T : Z) :
  overflow_counts !! id = Some T -> 1 <= T <= 5100.
Proof.
  unfold overflow_counts.
  do 7 (destruct id as [|id]; [intros [= <-]; lia|]). discriminate.
Qed.

Lemma all_costs_ok_lookup (powers : list (option spec_float)) (cheaper : bool) :
  forall (buildings : list BuildingDef) (overflows : list Z)
         (id : nat) (b : BuildingDef) (T : Z),
    all_costs_ok buildings overflows powers = true ->
    buildings !! id = Some b -> overflows !! id = Some T ->
    costs_ok b cheaper T 1 (cost_of_power b cheaper 1) powers = true.
Proof.
  induction buildings as [|b0 buildings IH]; intros overflows id b T Hall Hb HT.
  - destruct id; discriminate Hb.
  - destruct overflows as [|T0 overflows]; [destruct id; discriminate HT|].
    cbn [all_costs_ok] in Hall.
    apply andb_true_iff in Hall as [Hhere Hrest].
    apply andb_true_iff in Hhere as [Hplain Hcheap].
    destruct id as [|id].
    + injection Hb as <-. injection HT as <-. destruct cheaper; assumption.
    + apply (IH overflows id); assumption.
Qed.

Lemma costs_ok_catalog (id : nat) (b : BuildingDef) (T : Z) (cheaper : bool) :
  getBuildings !! id = Some b -> overflow_counts !! id = Some T ->
  costs_ok b cheaper T 1 (cost_of_power b cheaper 1) (growth_powers (Z.to_nat 5100)) = true.
Proof.
  intros Hb HT.
  exact (all_costs_ok_lookup _ cheaper getBuildings overflow_counts id b T
           cost_curve_ok_5100 Hb HT).
Qed.

(** The curve of one building: strictly increasing below its overflow
    count, [+infinity] from there on. *)
Lemma cost_curve_shape (id : nat) (b : BuildingDef) (T : Z) (cheaper : bool) (n : Z) :
  getBuildings !! id = Some b -> overflow_counts !! id = Some T -> 0 <= n ->
  (n < T -> cost_strictly_increasing_at b cheaper n) /\
  (T <= n -> costAt b cheaper n = infinity).
Proof.
  intros Hb HT Hn.
  assert (Hin : b ∈ getBuildings) by (eapply list_elem_of_lookup_2; exact Hb).
  pose proof (overflow_counts_range id T HT) as HT1.
  pose proof (costs_ok_catalog id b T cheaper Hb HT) as Hok.
  assert (Hprev : cost_of_power b cheaper 1 = costAt b cheaper (1 - 1))
    by (symmetry; apply costAt_zero).
  pose proof (costs_ok_sound b cheaper T _ 1 _ Hok Hprev
                (growth_powers_ok (Z.to_nat 5100))) as Hsound.
  assert (Hlen : forall i, 0 <= i < 5100 ->
                   (Z.to_nat i < length (growth_powers (Z.to_nat 5100)))%nat).
  { intros i Hi. rewrite growth_powers_length. lia. }
  split.
  - intros Hlt.
    destruct (Hsound (Z.to_nat n) (Hlen n ltac:(lia))) as [Hinc _].
    rewrite Z2Nat.id in Hinc by lia.
    replace (1 + n - 1) with n in Hinc by lia. apply Hinc. lia.
  - intros Hge. destruct (Z.le_gt_cases 5100 n) as [Hbig|Hsmall].
    + unfold costAt. rewrite pow_growth_overflow by assumption.
      apply cost_of_power_infinity, Hin.
    + destruct (Hsound (Z.to_nat (n - 1)) (Hlen (n - 1) ltac:(lia))) as [_ Hinf].
      rewrite Z2Nat.id in Hinf by lia.
      replace (1 + (n - 1)) with n in Hinf by lia. apply Hinf. lia.
Qed.

(** C4, the claim as written fails: from 5060 Data Miners on the cost is
    [+infinity] and stops increasing. *)
Lemma cost_strictly_increasing_fails : ~ cost_strictly_increasing.
Proof.
  intros H.
  specialize (H {| b_id := 0; b_name := "Data Miner"; baseCost := 15; income := 1;
                   icon := "💾" |} false 5060 ltac:(apply list_elem_of_here) ltac:(lia)).
  unfold cost_strictly_increasing_at in H.
  destruct (cost_curve_shape 0 _ 5060 false 5060 eq_refl eq_refl ltac:(lia)) as [_ H0].
  destruct (cost_curve_shape 0 _ 5060 false 5061 eq_refl eq_refl ltac:(lia)) as [_ H1].
  change (5060 + 1) with 5061 in H.
  rewrite (H0 ltac:(lia)), (H1 ltac:(lia)) in H. discriminate H.
Qed.

(** C4, amended.  For every building of the catalog and either skill
    state the cost is strictly increasing in the count for as long as it is
    finite: the cost at [n + 1] exceeds the cost at [n] for every [n] below
    the building's overflow count (5060, 5046, 5029, 5012, 4995, 4977 and
    4957 for the seven buildings); from that count on the cost is
    [+infinity] and increases no more. *)
Theorem cost_increasing_until_overflow
    (id : nat) (b : BuildingDef) (T : Z) (cheaper : bool) (n : Z) :
  getBuildings !! id = Some b -> overflow_counts !! id = Some T -> 0 <= n ->
  (n < T -> cost_strictly_increasing_at b cheaper n) /\
  (T <= n ->
   costAt b cheaper n = infinity /\ costAt b cheaper (n + 1) = infinity /\
   ~ cost_strictly_increasing_at b cheaper n).
Proof.
  intros Hb HT Hn.
  destruct (cost_curve_shape id b T cheaper n Hb HT Hn) as [Hinc Hinf].
  split; [exact Hinc|]. intros Hge.
  destruct (cost_curve_shape id b T cheaper (n + 1) Hb HT ltac:(lia)) as [_ Hinf'].
  specialize (Hinf Hge). specialize (Hinf' ltac:(lia)).
  split; [exact Hinf|]. split; [exact Hinf'|].
  unfold cost_strictly_increasing_at. rewrite Hinf, Hinf'. discriminate.
Qed.

Lemma cost_increasing_until_overflow_witness :
  cost_strictly_increasing_at
    {| b_id := 0; b_name := "Data Miner"; baseCost := 15; income := 1; icon := "💾" |}
    false 1.
Proof.
  apply (cost_increasing_until_overflow 0 _ 5060 false 1 eq_refl eq_refl); lia.
Defined.
(** * Signs of sums and products *)

Lemma SFnonneg_inv (x : spec_float) :
  SFnonneg x ->
  match x with
  | S754_infinity true | S754_finite true _ _ => False
  | _ => True
  end.
Proof. destruct x as [s|[]| |[] m e]; try exact (fun _ => I); discriminate. Qed.

Lemma SFadd_nonneg (x y : spec_float) :
  SFnonneg x -> SFnonneg y -> SFnonneg (SFadd prec emax x y).
Proof.
  intros Hx%SFnonneg_inv Hy%SFnonneg_inv.
  destruct x as [[]|[]| |[] mx ex], y as [[]|[]| |[] my ey];
    try contradiction; try reflexivity.
  unfold SFadd. apply binary_normalize_nonneg. cbn [cond_Zopp]. lia.
Qed.

Lemma SFmul_nonneg (x y : spec_float) :
  SFnonneg x -> SFnonneg y -> SFnonneg (SFmul prec emax x y).
Proof.
  intros Hx%SFnonneg_inv Hy%SFnonneg_inv.
  destruct x as [[]|[]| |[] mx ex], y as [[]|[]| |[] my ey];
    try contradiction; try reflexivity.
  unfold SFmul. apply binary_round_aux_nonneg.
Qed.

Lemma not_negative_SFnonneg (x : double) : ~ negative x <-> SFnonneg (Prim2SF x).
Proof.
  unfold negative, SFnonneg. rewrite ltb_spec.
  change (Prim2SF 0) with (S754_zero false).
  destruct (SFltb (Prim2SF x) (S754_zero false)); split; congruence.
Qed.

Lemma add_not_negative (x y : double) :
  ~ negative x -> ~ negative y -> ~ negative (x + y)%float.
Proof.
  rewrite !not_negative_SFnonneg, add_spec. apply SFadd_nonneg.
Qed.

Lemma mul_not_negative (x y : double) :
  ~ negative x -> ~ negative y -> ~ negative (x * y)%float.
Proof.
  rewrite !not_negative_SFnonneg, mul_spec. apply SFmul_nonneg.
Qed.

Lemma double_of_Z_not_negative (z : Z) : 0 <= z -> ~ negative (double_of_Z z).
Proof.
  intros Hz. unfold double_of_Z. destruct (Z.ltb_spec z 0); [lia|].
  rewrite not_negative_SFnonneg, of_uint63_spec.
  apply binary_normalize_nonneg.
  pose proof (Uint63.to_Z_bounded (Uint63.of_Z z)). lia.
Qed.

Lemma nan_add (x : double) : (nan + x)%float = nan.
Proof. apply Prim2SF_inj. rewrite add_spec. reflexivity. Qed.

Lemma leb_nan (x : double) : (x <=? nan)%float = false.
Proof.
  rewrite leb_spec. change (Prim2SF nan) with S754_nan.
  unfold SFleb, SFcompare. destruct (Prim2SF x); reflexivity.
Qed.

Lemma infinity_leb (x : double) : (infinity <=? x)%float = true -> x = infinity.
Proof.
  rewrite leb_spec. change (Prim2SF infinity) with (S754_infinity false).
  intros H. apply Prim2SF_inj. change (Prim2SF infinity) with (S754_infinity false).
  destruct (Prim2SF x) as [s|[]| |s m e]; try discriminate H; reflexivity.
Qed.

Lemma not_negative_nan : ~ negative nan.
Proof. unfold negative. discriminate. Qed.
(** * Sequences of operations *)

(** ** What each operation leaves alone *)

Lemma buyBuilding_frame (g g' : GameEngine) (buildingId : Z) (ok : bool) :
  buyBuilding g buildingId = Some (ok, g') ->
  neuralData g' = neuralData g /\ ownedSkills g' = ownedSkills g /\
  totalClicks g' = totalClicks g /\ totalEarnings g' = totalEarnings g /\
  incomeMultiplier g' = incomeMultiplier g /\
  globalIncomePerSec g' = globalIncomePerSec g /\
  length (buildingCounts g') = length (buildingCounts g).
Proof.
  unfold buyBuilding.
  destruct ((buildingId <? 0) || (Z.of_nat (length getBuildings) <=? buildingId)).
  { intros [= <- <-]. repeat split. }
  destruct (getBuildingCost g buildingId) as [cost|]; [|discriminate].
  destruct (cost <=? money g)%float.
  - cbn [buildingCounts set_money].
    destruct (buildingCounts g !! Z.to_nat buildingId); [|discriminate].
    intros [= <- <-]. cbn. rewrite length_insert. repeat split.
  - intros [= <- <-]. repeat split.
Qed.

Lemma update_frame (g : GameEngine) (deltaTime : double) :
  neuralData (update g deltaTime) = neuralData g /\
  ownedSkills (update g deltaTime) = ownedSkills g /\
  totalClicks (update g deltaTime) = totalClicks g /\
  buildingCounts (update g deltaTime) = buildingCounts g /\
  incomeMultiplier (update g deltaTime) = incomeMultiplier g.
Proof.
  unfold update. destruct (0 <? _)%float; repeat split.
Qed.

Lemma doPrestige_frame (g g' : GameEngine) :
  doPrestige g = Some g' ->
  ownedSkills g' = ownedSkills g /\ totalClicks g' = totalClicks g.
Proof.
  unfold doPrestige. destruct (calculatePrestigePotential g) as [p|]; [|discriminate].
  destruct (0 <? p); intros [= <-]; split; reflexivity.
Qed.

Lemma buySkill_frame (g : GameEngine) (skillId : string) :
  same_economy g (snd (buySkill g skillId)).
Proof.
  rewrite buySkill_unfold.
  assert (H1 : same_economy g
                 match ownedSkills g !! skillId with
                 | Some _ => g
                 | None => set_ownedSkills g (<[skillId := false]> (ownedSkills g))
                 end)
    by (destruct (ownedSkills g !! skillId); repeat split).
  destruct (hasSkill g skillId); [repeat split|].
  destruct (findSkill skillId) as [skill|]; [|exact H1].
  destruct (cost skill <=? neuralData g); [|exact H1].
  destruct H1 as (? & ? & ? & ? & ? & ?). repeat split; cbn; assumption.
Qed.

(** ** Skills are kept *)

Lemma buySkill_keeps_skills (g : GameEngine) (skillId k : string) :
  hasSkill g k = true -> hasSkill (snd (buySkill g skillId)) k = true.
Proof.
  intros Hk. rewrite buySkill_unfold.
  set (g1 := match ownedSkills g !! skillId with
             | Some _ => g
             | None => set_ownedSkills g (<[skillId := false]> (ownedSkills g))
             end).
  assert (Hg1 : hasSkill g1 k = true).
  { subst g1. destruct (ownedSkills g !! skillId) eqn:Hlook; [exact Hk|].
    rewrite hasSkill_insert_false; assumption. }
  destruct (hasSkill g skillId); [exact Hk|].
  destruct (findSkill skillId) as [skill|]; [|exact Hg1].
  destruct (cost skill <=? neuralData g); [|exact Hg1].
  unfold hasSkill. cbn. destruct (decide (skillId = k)) as [->|Hne].
  - rewrite lookup_insert_eq. reflexivity.
  - rewrite lookup_insert_ne by assumption. exact Hg1.
Qed.

Lemma step_keeps_skills (g g' : GameEngine) (op : Op) (k : string) :
  step g op = Some g' -> hasSkill g k = true -> hasSkill g' k = true.
Proof.
  destruct op as [|buildingId|skillId| |deltaTime]; cbn [step].
  - intros [= <-] Hk. exact Hk.
  - destruct (buyBuilding g buildingId) as [[ok g1]|] eqn:Hbuy; [|discriminate].
    intros [= <-] Hk. apply buyBuilding_frame in Hbuy as (_ & Hskills & _).
    rewrite (hasSkill_ownedSkills _ _ _ Hskills). exact Hk.
  - intros [= <-]. apply buySkill_keeps_skills.
  - intros Hdo Hk. apply doPrestige_frame in Hdo as [Hskills _].
    rewrite (hasSkill_ownedSkills _ _ _ Hskills). exact Hk.
  - intros [= <-] Hk. destruct (update_frame g deltaTime) as (_ & Hskills & _).
    rewrite (hasSkill_ownedSkills _ _ _ Hskills). exact Hk.
Qed.

Lemma run_keeps_skills (ops : list Op) :
  forall (g g' : GameEngine) (k : string),
    run g ops = Some g' -> hasSkill g k = true -> hasSkill g' k = true.
Proof.
  induction ops as [|op ops IH]; intros g g' k; cbn [run].
  - intros [= <-] Hk. exact Hk.
  - destruct (step g op) as [g1|] eqn:Hstep; [|discriminate].
    intros Hrun Hk. apply (IH g1 g' k Hrun). eapply step_keeps_skills; eassumption.
Qed.

(** ** The counters *)

Lemma wrap64_range (z : Z) : in_long_long (wrap64 z).
Proof.
  unfold in_long_long, LLONG_MIN, LLONG_MAX, wrap64, wrap.
  pose proof (Z.mod_pos_bound (z + 2 ^ (64 - 1)) (2 ^ 64) ltac:(lia)). lia.
Qed.

Lemma wrap64_add_l (a b : Z) : wrap64 (wrap64 a + b) = wrap64 (a + b).
Proof.
  unfold wrap64, wrap. f_equal.
  replace ((a + 2 ^ (64 - 1)) mod 2 ^ 64 - 2 ^ (64 - 1) + b + 2 ^ (64 - 1))
    with ((a + 2 ^ (64 - 1)) mod 2 ^ 64 + b) by lia.
  rewrite Z.add_mod_idemp_l by lia. f_equal. lia.
Qed.

Lemma step_totalClicks (g g' : GameEngine) (op : Op) :
  step g op = Some g' ->
  totalClicks g' = wrap64 (totalClicks g + clicks [op]) \/
  (totalClicks g' = totalClicks g /\ clicks [op] = 0).
Proof.
  destruct op as [|buildingId|skillId| |deltaTime]; cbn [step clicks].
  - intros [= <-]. left. reflexivity.
  - destruct (buyBuilding g buildingId) as [[ok g1]|] eqn:Hbuy; [|discriminate].
    intros [= <-]. right. apply buyBuilding_frame in Hbuy. tauto.
  - intros [= <-]. right. pose proof (buySkill_frame g skillId) as H.
    unfold same_economy in H. tauto.
  - intros Hdo. right. apply doPrestige_frame in Hdo. tauto.
  - intros [= <-]. right. pose proof (update_frame g deltaTime). tauto.
Qed.

Lemma clicks_cons (op : Op) (ops : list Op) : clicks (op :: ops) = clicks [op] + clicks ops.
Proof. destruct op; cbn [clicks]; lia. Qed.

Lemma run_totalClicks (ops : list Op) :
  forall (g g' : GameEngine),
    in_long_long (totalClicks g) -> run g ops = Some g' ->
    totalClicks g' = wrap64 (totalClicks g + clicks ops).
Proof.
  induction ops as [|op ops IH]; intros g g' Hrange; cbn [run].
  - intros [= <-]. cbn [clicks]. rewrite Z.add_0_r, wrap64_id; auto.
  - destruct (step g op) as [g1|] eqn:Hstep; [|discriminate].
    intros Hrun. rewrite clicks_cons.
    destruct (step_totalClicks _ _ _ Hstep) as [Hclick|[Hsame Hzero]].
    + rewrite (IH g1 g') by (try assumption; rewrite Hclick; apply wrap64_range).
      rewrite Hclick, wrap64_add_l. f_equal. lia.
    + rewrite (IH g1 g') by (try assumption; rewrite Hsame; assumption).
      rewrite Hsame, Hzero. reflexivity.
Qed.

Lemma step_neuralData (g g' : GameEngine) (op : Op) :
  step g op = Some g' -> in_long_long (neuralData g) ->
  in_long_long (neuralData g') /\
  (prestige_fits g [op] -> 0 <= neuralData g -> 0 <= neuralData g').
Proof.
  destruct op as [|buildingId|skillId| |deltaTime]; cbn [step prestige_fits].
  - intros [= <-] Hr. split; [exact Hr|]. intros _ H; exact H.
  - destruct (buyBuilding g buildingId) as [[ok g1]|] eqn:Hbuy; [|discriminate].
    intros [= <-] Hr. apply buyBuilding_frame in Hbuy as (Hnd & _). cbn [snd].
    rewrite Hnd. split; [exact Hr|]. intros _ H; exact H.
  - intros [= <-] Hr. rewrite buySkill_unfold.
    assert (Hnd1 : neuralData
                     match ownedSkills g !! skillId with
                     | Some _ => g
                     | None => set_ownedSkills g (<[skillId := false]> (ownedSkills g))
                     end = neuralData g)
      by (destruct (ownedSkills g !! skillId); reflexivity).
    destruct (hasSkill g skillId); [split; [exact Hr|intros _ H; exact H]|].
    destruct (findSkill skillId) as [skill|] eqn:Hfind;
      [|cbn [snd]; rewrite Hnd1; split; [exact Hr|intros _ H; exact H]].
    destruct (Z.leb_spec (cost skill) (neuralData g)) as [Hle|Hlt];
      [|cbn [snd]; rewrite Hnd1; split; [exact Hr|intros _ H; exact H]].
    cbn. split; [apply wrap64_range|]. intros _ Hnn.
    pose proof (findSkill_cost_nonneg _ _ Hfind).
    rewrite wrap64_id; [lia|].
    unfold in_long_long, LLONG_MIN, LLONG_MAX in *. lia.
  - unfold doPrestige. destruct (calculatePrestigePotential g) as [p|]; [|discriminate].
    destruct (Z.ltb_spec 0 p) as [Hpos|Hnonpos]; intros [= <-] Hr.
    + cbn. split; [apply wrap64_range|]. intros [Hfit _] Hnn.
      rewrite wrap64_id; [lia|].
      unfold in_long_long, LLONG_MIN, LLONG_MAX in *. lia.
    + split; [exact Hr|]. intros _ H; exact H.
  - intros [= <-] Hr. destruct (update_frame g deltaTime) as (Hnd & _).
    rewrite Hnd. split; [exact Hr|]. intros _ H; exact H.
Qed.

Lemma run_neuralData (ops : list Op) :
  forall (g g' : GameEngine),
    run g ops = Some g' -> in_long_long (neuralData g) ->
    in_long_long (neuralData g') /\
    (prestige_fits g ops -> 0 <= neuralData g -> 0 <= neuralData g').
Proof.
  induction ops as [|op ops IH]; intros g g'; cbn [run].
  - intros [= <-] Hr. split; [exact Hr|]. intros _ H; exact H.
  - destruct (step g op) as [g1|] eqn:Hstep; [|discriminate].
    intros Hrun Hr.
    destruct (step_neuralData _ _ _ Hstep Hr) as [Hr1 Hnn1].
    destruct (IH g1 g' Hrun Hr1) as [Hr' Hnn'].
    split; [exact Hr'|]. intros Hfits Hnn.
    cbn [prestige_fits] in Hfits. rewrite Hstep in Hfits. destruct Hfits as [Hop Hrest].
    apply Hnn'; [exact Hrest|]. apply Hnn1; [|exact Hnn].
    cbn [prestige_fits]. rewrite Hstep. split; [exact Hop|exact I].
Qed.

(** ** The economy *)

Lemma income_not_negative (b : BuildingDef) : b ∈ getBuildings -> ~ negative (income b).
Proof.
  intros Hb. apply list_elem_of_In in Hb. unfold getBuildings in Hb. cbn in Hb.
  repeat (destruct Hb as [<-|Hb]; [unfold negative; cbn; discriminate|]). contradiction.
Qed.

Lemma income_fold_not_negative (l : list (BuildingDef * Z)) :
  forall acc : double,
    Forall (fun bc => fst bc ∈ getBuildings /\ 0 <= snd bc) l ->
    ~ negative acc ->
    ~ negative
        (fold_left (fun (acc : double) (bc : BuildingDef * Z) =>
                      (acc + income (fst bc) * double_of_Z (snd bc))%float) l acc).
Proof.
  induction l as [|[b c] l IH]; intros acc Hl Hacc; cbn [fold_left]; [exact Hacc|].
  apply Forall_cons in Hl as [[Hb Hc] Hl]. cbn [fst snd] in *.
  apply IH; [exact Hl|].
  apply add_not_negative; [exact Hacc|].
  apply mul_not_negative; [apply income_not_negative, Hb|].
  apply double_of_Z_not_negative, Hc.
Qed.

Lemma baseIncomeSum_not_negative (counts : list Z) :
  Forall (fun count => 0 <= count) counts -> ~ negative (baseIncomeSum counts).
Proof.
  intros Hcounts. unfold baseIncomeSum. apply income_fold_not_negative.
  - apply Forall_forall. intros [b c] Hin. cbn [fst snd]. split.
    + eapply elem_of_zip_l, Hin.
    + rewrite Forall_forall in Hcounts. eapply Hcounts, elem_of_zip_r, Hin.
  - unfold negative. discriminate.
Qed.

Lemma income_rate_not_negative (g : GameEngine) :
  Forall (fun count => 0 <= count) (buildingCounts g) ->
  incomeMultiplier g = 1%float ->
  ~ negative (globalIncomePerSec (calculateIncomePerSec g)).
Proof.
  intros Hcounts Hmult. rewrite calculateIncomePerSec_unfold, Hmult.
  cbn [globalIncomePerSec set_globalIncomePerSec].
  pose proof (baseIncomeSum_not_negative _ Hcounts) as Hsum.
  apply mul_not_negative; [|unfold negative; discriminate].
  destruct (hasSkill g "auto_click"); [|exact Hsum].
  apply add_not_negative; [exact Hsum|].
  apply mul_not_negative; [exact Hsum|unfold negative; discriminate].
Qed.

Lemma counts_not_negative (g : GameEngine) :
  economy_invariant g -> Forall (fun count => 0 <= count) (buildingCounts g).
Proof.
  intros (_ & _ & _ & _ & _ & [H|[_ H]]);
    (eapply Forall_impl; [exact H|]); cbn; intros; lia.
Qed.

(** Adding a non-negative amount to [money] and [totalEarnings]. *)
Lemma economy_addMoney (g : GameEngine) (amount : double) :
  economy_invariant g -> ~ negative amount -> economy_invariant (addMoney g amount).
Proof.
  intros (Hlen & Hmult & Hmoney & Hearn & Hrate & Hcounts) Hamount.
  unfold economy_invariant, addMoney. cbn.
  repeat split; try assumption; try (apply add_not_negative; assumption).
  destruct Hcounts as [Hok|[Hnan Hok]]; [left; exact Hok|right].
  split; [rewrite Hnan; apply nan_add|exact Hok].
Qed.

Lemma economy_click (g : GameEngine) : economy_invariant g -> economy_invariant (click g).
Proof.
  intros Hinv. unfold click.
  apply economy_addMoney.
  - destruct Hinv as (? & ? & ? & ? & ? & ?). repeat split; assumption.
  - cbn [globalIncomePerSec set_totalClicks].
    destruct Hinv as (_ & _ & _ & _ & Hrate & _).
    apply add_not_negative; [unfold negative; discriminate|].
    apply mul_not_negative; [exact Hrate|unfold negative; discriminate].
Qed.

Lemma economy_update (g : GameEngine) (deltaTime : double) :
  economy_invariant g -> (0 <=? deltaTime)%float = true ->
  economy_invariant (update g deltaTime).
Proof.
  intros Hinv Hdt. pose proof (counts_not_negative g Hinv) as Hcounts.
  destruct Hinv as (Hlen & Hmult & Hmoney & Hearn & Hrate & Hbound).
  pose proof (income_rate_not_negative g Hcounts Hmult) as Hnew.
  assert (Hinv1 : economy_invariant (calculateIncomePerSec g)).
  { rewrite calculateIncomePerSec_unfold in *. repeat split; assumption. }
  unfold update. destruct (0 <? _)%float; [|exact Hinv1].
  apply economy_addMoney; [exact Hinv1|].
  apply mul_not_negative; [exact Hnew|apply nonneg_not_negative, Hdt].
Qed.

Lemma economy_buySkill (g : GameEngine) (skillId : string) :
  economy_invariant g -> economy_invariant (snd (buySkill g skillId)).
Proof.
  intros Hinv. destruct (buySkill_frame g skillId) as (Hm & Hc & _ & He & Hi & Hr).
  unfold economy_invariant in *. rewrite Hm, Hc, He, Hi, Hr. exact Hinv.
Qed.

Lemma economy_doPrestige (g g' : GameEngine) :
  economy_invariant g -> doPrestige g = Some g' -> economy_invariant g'.
Proof.
  intros Hinv. unfold doPrestige.
  destruct (calculatePrestigePotential g) as [p|]; [|discriminate].
  destruct (0 <? p); intros [= <-]; [|exact Hinv].
  destruct Hinv as (Hlen & _ & _ & Hearn & Hrate & _).
  unfold economy_invariant. cbn. rewrite length_replicate.
  repeat split; try assumption; try (unfold negative; discriminate).
  left. apply Forall_replicate. lia.
Qed.

(** At 5100 units every building costs [+infinity]. *)
Lemma cost_at_limit (b : BuildingDef) (cheaper : bool) :
  b ∈ getBuildings -> costAt b cheaper 5100 = infinity.
Proof.
  intros Hb. unfold costAt. rewrite pow_growth_overflow by lia.
  apply cost_of_power_infinity, Hb.
Qed.

Lemma economy_buyBuilding (g g' : GameEngine) (buildingId : Z) (ok : bool) :
  economy_invariant g -> buyBuilding g buildingId = Some (ok, g') ->
  economy_invariant g'.
Proof.
  intros Hinv Hbuy.
  destruct (Z.lt_ge_cases buildingId 0) as [Hneg|Hid0].
  { rewrite buyBuilding_outside in Hbuy by (left; exact Hneg).
    injection Hbuy as <- <-. exact Hinv. }
  destruct (Z.le_gt_cases (Z.of_nat (length getBuildings)) buildingId) as [Hbig|Hid1].
  { rewrite buyBuilding_outside in Hbuy by (right; exact Hbig).
    injection Hbuy as <- <-. exact Hinv. }
  destruct Hinv as (Hlen & Hmult & Hmoney & Hearn & Hrate & Hbound).
  destruct (lookup_lt_is_Some_2 getBuildings (Z.to_nat buildingId) ltac:(lia)) as [b Hb].
  destruct (lookup_lt_is_Some_2 (buildingCounts g) (Z.to_nat buildingId)
              ltac:(rewrite Hlen; lia)) as [count Hcount].
  pose proof (getBuildingCost_eq g buildingId b count Hid0 Hb Hcount) as Hcost.
  rewrite (buyBuilding_unfold _ _ _ _ Hcost Hcount) in Hbuy.
  destruct (costAt b (hasSkill g "cheaper") count <=? money g)%float eqn:Hle;
    injection Hbuy as <- <-; [|repeat split; assumption].
  assert (Hin : b ∈ getBuildings) by (eapply list_elem_of_lookup_2; exact Hb).
  unfold economy_invariant, bought. cbn. rewrite length_insert.
  repeat split; try assumption; [apply sub_not_negative, Hle|].
  destruct Hbound as [Hok|[Hnan _]]; [|rewrite Hnan, leb_nan in Hle; discriminate].
  pose proof (Forall_lookup_1 _ _ _ _ Hok Hcount) as Hrange. cbn in Hrange.
  rewrite wrap32_id by (unfold in_int, INT_MAX; lia).
  destruct (Z.eq_dec count 5100) as [->|Hbelow].
  - right. rewrite (cost_at_limit b _ Hin) in Hle |- *.
    apply infinity_leb in Hle. rewrite Hle. split; [reflexivity|].
    apply Forall_insert; [|lia].
    eapply Forall_impl; [exact Hok|]. cbn. intros; lia.
  - left. apply Forall_insert; [exact Hok|lia].
Qed.

Lemma economy_step (g g' : GameEngine) (op : Op) :
  economy_invariant g -> allowed op -> step g op = Some g' -> economy_invariant g'.
Proof.
  intros Hinv Hallowed. destruct op as [|buildingId|skillId| |deltaTime]; cbn [step].
  - intros [= <-]. apply economy_click, Hinv.
  - destruct (buyBuilding g buildingId) as [[ok g1]|] eqn:Hbuy; [|discriminate].
    intros [= <-]. eapply economy_buyBuilding; eassumption.
  - intros [= <-]. apply economy_buySkill, Hinv.
  - apply economy_doPrestige, Hinv.
  - intros [= <-]. apply economy_update; assumption.
Qed.

Lemma economy_run (ops : list Op) :
  forall (g g' : GameEngine),
    economy_invariant g -> Forall allowed ops -> run g ops = Some g' ->
    economy_invariant g'.
Proof.
  induction ops as [|op ops IH]; intros g g' Hinv Hallowed; cbn [run].
  - intros [= <-]. exact Hinv.
  - apply Forall_cons in Hallowed as [Hop Hops].
    destruct (step g op) as [g1|] eqn:Hstep; [|discriminate].
    apply IH; [|exact Hops]. eapply economy_step; eassumption.
Qed.

Lemma economy_new (now junkSaveTime : Z) (junkIncome : double) :
  ~ negative junkIncome -> economy_invariant (newGameEngine now junkSaveTime junkIncome).
Proof.
  intros Hjunk. unfold economy_invariant. cbn.
  repeat split; try assumption; try (unfold negative; discriminate).
  left. repeat constructor; lia.
Qed.

(** ** The invariant *)

(** C10, the claim as written fails: two rounds of clicking, buying one
    Data Miner, waiting [7e43] seconds and cashing in add about [8.4e18] to
    [neuralData] each, and the second addition wraps it below zero. *)
Lemma invariant_as_specified_fails : ~ invariant_as_specified.
Proof.
  intros H.
  assert (Hrun : exists g,
            run (newGameEngine 0 0 0) (prestige_round ++ prestige_round) = Some g /\
            neuralData g < 0).
  { eexists. split; [vm_compute; reflexivity|]. reflexivity. }
  destruct Hrun as (g & Hrun & Hneg).
  destruct (H 0 0 0%float (prestige_round ++ prestige_round) [] g g) as [Hinv _].
  - rewrite app_nil_r. unfold prestige_round.
    repeat (apply Forall_app; split); repeat constructor.
  - exact Hrun.
  - reflexivity.
  - destruct Hinv as (_ & _ & Hnd & _). lia.
Qed.

(** The constructor never sets [globalIncomePerSec]; a click on a fresh
    engine reads whatever was there, and a negative leftover makes [money]
    negative. *)
Lemma uninitialised_rate_reaches_money :
  exists g, run (newGameEngine 0 0 (-100)) [Click] = Some g /\ negative (money g).
Proof. eexists. split; reflexivity. Qed.

(** C10, amended.  From a freshly constructed engine whose income-rate
    member does not start out negative, every sequence of [click],
    [buyBuilding], [buySkill], [doPrestige] and [update] with
    [deltaTime >= 0] that has a defined result keeps: one counter per
    catalog building, each between 0 and 5101; [money] and [totalEarnings]
    never negative; [totalClicks] equal to the number of clicks reduced to
    64 bits, hence non-negative for up to [LLONG_MAX] clicks; [neuralData]
    within [long long], and non-negative as long as no prestige added more
    than it could take; and every owned skill owned ever after. *)
Theorem reachable_invariant
    (now junkSaveTime : Z) (junkIncome : double) (ops ops' : list Op)
    (g g' : GameEngine) :
  ~ negative junkIncome ->
  Forall allowed (ops ++ ops') ->
  run (newGameEngine now junkSaveTime junkIncome) ops = Some g ->
  run g ops' = Some g' ->
  length (buildingCounts g) = length getBuildings /\
  Forall (fun count => 0 <= count <= 5101) (buildingCounts g) /\
  ~ negative (money g) /\ ~ negative (totalEarnings g) /\
  totalClicks g = wrap64 (clicks ops) /\
  (clicks ops <= LLONG_MAX -> 0 <= totalClicks g) /\
  in_long_long (neuralData g) /\
  (prestige_fits (newGameEngine now junkSaveTime junkIncome) ops -> 0 <= neuralData g) /\
  (forall skillId, hasSkill g skillId = true -> hasSkill g' skillId = true).
Proof.
  intros Hjunk Hallowed Hrun Hrun'.
  apply Forall_app in Hallowed as [Hops _].
  pose proof (economy_run ops _ _ (economy_new now junkSaveTime junkIncome Hjunk) Hops Hrun)
    as (Hlen & _ & Hmoney & Hearn & _ & Hcounts).
  assert (Hzero : in_long_long 0) by (unfold in_long_long, LLONG_MIN, LLONG_MAX; lia).
  pose proof (run_totalClicks ops (newGameEngine now junkSaveTime junkIncome) g
                Hzero Hrun) as Hclicks.
  cbn [totalClicks newGameEngine] in Hclicks. rewrite Z.add_0_l in Hclicks.
  destruct (run_neuralData ops (newGameEngine now junkSaveTime junkIncome) g
              Hrun Hzero) as [Hnd Hnn].
  assert (Hnonneg : 0 <= clicks ops).
  { clear. induction ops as [|[] ops IH]; cbn [clicks]; lia. }
  split; [exact Hlen|]. split.
  { destruct Hcounts as [Hok|[_ Hok]]; [|exact Hok].
    eapply Forall_impl; [exact Hok|]. cbn. intros; lia. }
  split; [exact Hmoney|]. split; [exact Hearn|]. split; [exact Hclicks|]. split.
  { rewrite Hclicks. intros Hfew. rewrite wrap64_id; [exact Hnonneg|].
    unfold in_long_long, LLONG_MIN, LLONG_MAX in *. lia. }
  split; [exact Hnd|]. split.
  { intros Hfits. apply Hnn; [exact Hfits|]. cbn. lia. }
  intros skillId. apply (run_keeps_skills ops' g g' skillId Hrun').
Qed.

Lemma reachable_invariant_witness :
  ~ negative 0 /\
  Forall allowed ([Click; Update 2] ++ [BuyBuilding 0]) /\
  ~ negative (money (click (newGameEngine 0 0 0))).
Proof.
  assert (Hjunk : ~ negative 0) by (unfold negative; discriminate).
  assert (Hallowed : Forall allowed ([Click; Update 2] ++ [BuyBuilding 0]))
    by (repeat constructor).
  split; [exact Hjunk|]. split; [exact Hallowed|].
  destruct (reachable_invariant 0 0 0%float [Click; Update 2] [BuyBuilding 0]
              (update (click (newGameEngine 0 0 0)) 2)
              (update (click (newGameEngine 0 0 0)) 2)
              Hjunk Hallowed eq_refl eq_refl) as (_ & _ & Hmoney & _).
  intros Hneg. apply Hmoney. unfold negative in *. rewrite <- Hneg. reflexivity.
Defined.

(** * Further properties of the engine *)

(** ** Skill purchase and the skill map *)

(** X1.  A declined [buySkill] is not always a no-op on the representation:
    [ownedSkills[skillId]] has already created the key.  The call returns
    the state itself when the key was in the map, and the state with a new
    [false] entry (one more key) when it was not. *)
Theorem buySkill_declined_state (g : GameEngine) (skillId : string) :
  fst (buySkill g skillId) = false ->
  (is_Some (ownedSkills g !! skillId) -> snd (buySkill g skillId) = g) /\
  (ownedSkills g !! skillId = None ->
   snd (buySkill g skillId) = set_ownedSkills g (<[skillId := false]> (ownedSkills g)) /\
   size (ownedSkills (snd (buySkill g skillId))) = S (size (ownedSkills g))).
Proof.
  rewrite buySkill_unfold. unfold hasSkill.
  destruct (ownedSkills g !! skillId) as [[|]|] eqn:Hlook; cbn zeta.
  - intros _. split; [reflexivity|discriminate].
  - destruct (findSkill skillId) as [skill|]; [destruct (cost skill <=? neuralData g)|];
      cbn [fst snd]; try discriminate; intros _; (split; [reflexivity|discriminate]).
  - destruct (findSkill skillId) as [skill|]; [destruct (cost skill <=? neuralData g)|];
      cbn [fst snd]; try discriminate; intros _;
      (split; [intros [? [=]]|]); intros _; (split; [reflexivity|]);
      cbn; apply map_size_insert_None, Hlook.
Qed.

Lemma buySkill_declined_state_witness :
  fst (buySkill (newGameEngine 0 0 0) "warp") = false /\
  size (ownedSkills (snd (buySkill (newGameEngine 0 0 0) "warp"))) = 1%nat.
Proof.
  assert (H : fst (buySkill (newGameEngine 0 0 0) "warp") = false) by reflexivity.
  split; [exact H|].
  destruct (buySkill_declined_state (newGameEngine 0 0 0) "warp" H) as [_ Hnew].
  destruct (Hnew eq_refl) as [_ Hsize]. exact Hsize.
Defined.

Lemma skillsValue_ext (g g' : GameEngine) :
  (forall k, hasSkill g' k = hasSkill g k) -> skillsValue g' = skillsValue g.
Proof.
  intros H. unfold skillsValue, getSkills. cbn [fold_right s_id cost].
  rewrite !H. reflexivity.
Qed.

(** X2.  [buySkill] moves neural data into the skill and neither creates nor
    destroys any: [neuralData] plus the cost of the catalog skills owned is
    the same before and after, whether the purchase goes through or not. *)
Theorem buySkill_conserves_neuralData (g : GameEngine) (skillId : string) :
  in_long_long (neuralData g) ->
  neuralData (snd (buySkill g skillId)) + skillsValue (snd (buySkill g skillId))
  = neuralData g + skillsValue g.
Proof.
  intros Hrange. rewrite buySkill_unfold.
  set (g1 := match ownedSkills g !! skillId with
             | Some _ => g
             | None => set_ownedSkills g (<[skillId := false]> (ownedSkills g))
             end).
  assert (Hg1 : forall k, hasSkill g1 k = hasSkill g k).
  { intros k. subst g1. destruct (ownedSkills g !! skillId) eqn:Hlook; [reflexivity|].
    apply hasSkill_insert_false, Hlook. }
  assert (Hnd1 : neuralData g1 = neuralData g)
    by (subst g1; destruct (ownedSkills g !! skillId); reflexivity).
  assert (Hsame : neuralData g1 + skillsValue g1 = neuralData g + skillsValue g)
    by (rewrite Hnd1, (skillsValue_ext g g1 Hg1); reflexivity).
  destruct (hasSkill g skillId) eqn:Howned; [reflexivity|].
  destruct (findSkill skillId) as [skill|] eqn:Hfind; [|exact Hsame].
  destruct (Z.leb_spec (cost skill) (neuralData g)) as [Hle|Hlt]; [|exact Hsame].
  cbn [snd]. pose proof (findSkill_cost_nonneg _ _ Hfind) as Hcost.
  cbn [neuralData set_ownedSkills set_neuralData].
  rewrite wrap64_id by (unfold in_long_long, LLONG_MIN, LLONG_MAX in *; lia).
  assert (Hnew : forall k,
            hasSkill (set_ownedSkills
                        (set_neuralData g1 (neuralData g - cost skill))
                        (<[skillId := true]> (ownedSkills g1))) k
            = if decide (skillId = k) then true else hasSkill g k).
  { intros k. unfold hasSkill at 1. cbn. destruct (decide (skillId = k)) as [->|Hne].
    - rewrite lookup_insert_eq. reflexivity.
    - rewrite lookup_insert_ne by assumption. exact (Hg1 k). }
  unfold skillsValue, getSkills. cbn [fold_right s_id cost]. rewrite !Hnew.
  unfold findSkill, getSkills in Hfind. cbn -[String.eqb] in Hfind.
  assert (Hcases : skillId = "auto_click" \/ skillId = "cheaper" \/
                   skillId = "offline" \/ skillId = "hack_freq").
  { repeat match type of Hfind with
           | context [String.eqb ?a skillId] =>
               destruct (String.eqb_spec a skillId) as [<-|?]; [tauto|]
           end.
    discriminate Hfind. }
  destruct Hcases as [-> | [-> | [-> | ->]]];
    injection Hfind as <-; rewrite Howned;
    repeat match goal with
           | |- context [decide (?a = ?b)] =>
               destruct (decide (a = b)) as [?|?]; [try discriminate|try congruence]
           end;
    cbn [cost]; lia.
Qed.

Lemma buySkill_conserves_neuralData_witness :
  in_long_long 12 /\
  neuralData (snd (buySkill (set_neuralData (newGameEngine 0 0 0) 12) "cheaper")) = 2 /\
  skillsValue (snd (buySkill (set_neuralData (newGameEngine 0 0 0) 12) "cheaper")) = 10.
Proof.
  assert (Hr : in_long_long 12) by (unfold in_long_long, LLONG_MIN, LLONG_MAX; lia).
  split; [exact Hr|].
  pose proof (buySkill_conserves_neuralData
                (set_neuralData (newGameEngine 0 0 0) 12) "cheaper" Hr) as H.
  assert (Hnd : neuralData (snd (buySkill (set_neuralData (newGameEngine 0 0 0) 12) "cheaper")) = 2)
    by reflexivity.
  split; [exact Hnd|]. rewrite Hnd in H.
  change (neuralData (set_neuralData (newGameEngine 0 0 0) 12)) with 12 in H.
  change (skillsValue (set_neuralData (newGameEngine 0 0 0) 12)) with 0 in H. lia.
Defined.

(** Along any run, a skill that [hasSkill] reports is one of the catalog:
    only a catalog match ever stores [true]. *)
Lemma step_owns_catalog_skills (g g' : GameEngine) (op : Op) :
  (forall k, hasSkill g k = true -> is_Some (findSkill k)) ->
  step g op = Some g' ->
  forall k, hasSkill g' k = true -> is_Some (findSkill k).
Proof.
  intros Hinv. destruct op as [|buildingId|skillId| |deltaTime]; cbn [step].
  - intros [= <-]. exact Hinv.
  - destruct (buyBuilding g buildingId) as [[ok g1]|] eqn:Hbuy; [|discriminate].
    intros [= <-] k. apply buyBuilding_frame in Hbuy as (_ & Hskills & _).
    rewrite (hasSkill_ownedSkills _ _ _ Hskills). apply Hinv.
  - intros [= <-] k. rewrite buySkill_unfold.
    set (g1 := match ownedSkills g !! skillId with
               | Some _ => g
               | None => set_ownedSkills g (<[skillId := false]> (ownedSkills g))
               end).
    assert (Hg1 : forall k, hasSkill g1 k = hasSkill g k).
    { intros k'. subst g1. destruct (ownedSkills g !! skillId) eqn:Hlook; [reflexivity|].
      apply hasSkill_insert_false, Hlook. }
    destruct (hasSkill g skillId); [apply Hinv|].
    destruct (findSkill skillId) as [skill|] eqn:Hfind;
      [|cbn [snd]; rewrite Hg1; apply Hinv].
    destruct (cost skill <=? neuralData g); [|cbn [snd]; rewrite Hg1; apply Hinv].
    cbn [snd]. unfold hasSkill at 1. cbn [ownedSkills set_ownedSkills set_neuralData].
    destruct (decide (skillId = k)) as [Heq|Hne].
    + intros _. rewrite <- Heq, Hfind. eexists; reflexivity.
    + rewrite lookup_insert_ne by assumption. intros Hk. apply Hinv.
      rewrite <- Hg1. exact Hk.
  - intros Hdo k. apply doPrestige_frame in Hdo as [Hskills _].
    rewrite (hasSkill_ownedSkills _ _ _ Hskills). apply Hinv.
  - intros [= <-] k. destruct (update_frame g deltaTime) as (_ & Hskills & _).
    rewrite (hasSkill_ownedSkills _ _ _ Hskills). apply Hinv.
Qed.

(** X3.  From a fresh engine, whatever the sequence of operations, every skill
    the engine owns is a skill of the catalog. *)
Theorem owned_skills_are_catalog_skills
    (now junkSaveTime : Z) (junkIncome : double) (ops : list Op)
    (g : GameEngine) (skillId : string) :
  run (newGameEngine now junkSaveTime junkIncome) ops = Some g ->
  hasSkill g skillId = true ->
  exists skill, skill ∈ getSkills /\ s_id skill = skillId.
Proof.
  intros Hrun Hk.
  assert (Hall : forall ops g0 g,
            (forall k, hasSkill g0 k = true -> is_Some (findSkill k)) ->
            run g0 ops = Some g ->
            forall k, hasSkill g k = true -> is_Some (findSkill k)).
  { clear. induction ops as [|op ops IH]; intros g0 g Hinv; cbn [run].
    - intros [= <-]. exact Hinv.
    - destruct (step g0 op) as [g1|] eqn:Hstep; [|discriminate].
      apply IH. eapply step_owns_catalog_skills; eassumption. }
  destruct (Hall ops _ g (fun k (H : hasSkill (newGameEngine now junkSaveTime junkIncome) k = true) =>
                           ltac:(discriminate H)) Hrun skillId Hk) as [skill Hfind].
  exists skill. unfold findSkill in Hfind.
  apply find_some in Hfind as [Hin Heq].
  split; [apply list_elem_of_In, Hin|apply String.eqb_eq, Heq].
Qed.

Lemma owned_skills_are_catalog_skills_witness :
  exists skill, skill ∈ getSkills /\ s_id skill = "auto_click".
Proof.
  assert (Hrun : exists g,
            run (newGameEngine 0 0 0) (prestige_round ++ [BuySkill "auto_click"]) = Some g /\
            hasSkill g "auto_click" = true).
  { eexists. split; [vm_compute; reflexivity|reflexivity]. }
  destruct Hrun as (g & Hrun & Hk).
  exact (owned_skills_are_catalog_skills 0 0 0%float _ g "auto_click" Hrun Hk).
Defined.

(** ** Prestige *)

(** X4.  [doPrestige] is idempotent: whatever a call returns, a second call
    returns the same state, because a reset leaves no money to convert. *)
Theorem doPrestige_idempotent (g g' : GameEngine) :
  doPrestige g = Some g' -> doPrestige g' = Some g'.
Proof.
  unfold doPrestige.
  destruct (calculatePrestigePotential g) as [p|] eqn:Hp; [|discriminate].
  destruct (0 <? p) eqn:Hpos; intros [= <-].
  - reflexivity.
  - rewrite Hp, Hpos. reflexivity.
Qed.

Lemma doPrestige_idempotent_witness :
  exists g', doPrestige (set_money (newGameEngine 0 0 0) 9000000) = Some g' /\
             neuralData g' = 3 /\ doPrestige g' = Some g'.
Proof.
  eexists. split; [reflexivity|]. split; [reflexivity|].
  apply (doPrestige_idempotent (set_money (newGameEngine 0 0 0) 9000000)). reflexivity.
Defined.

(** ** The multiplier *)

Lemma step_incomeMultiplier (g g' : GameEngine) (op : Op) :
  step g op = Some g' ->
  incomeMultiplier g' = incomeMultiplier g \/ incomeMultiplier g' = 1%float.
Proof.
  destruct op as [|buildingId|skillId| |deltaTime]; cbn [step].
  - intros [= <-]. left. reflexivity.
  - destruct (buyBuilding g buildingId) as [[ok g1]|] eqn:Hbuy; [|discriminate].
    intros [= <-]. left. apply buyBuilding_frame in Hbuy. tauto.
  - intros [= <-]. left. pose proof (buySkill_frame g skillId) as H.
    unfold same_economy in H. tauto.
  - unfold doPrestige. destruct (calculatePrestigePotential g) as [p|]; [|discriminate].
    destruct (0 <? p); intros [= <-]; [right|left]; reflexivity.
  - intros [= <-]. left. pose proof (update_frame g deltaTime). tauto.
Qed.

(** X5.  No operation gives [incomeMultiplier] a value other than 1.0: from a
    fresh engine it is 1.0 after every sequence of operations, whatever the
    uninitialised members held and whatever [deltaTime]s were passed. *)
Theorem incomeMultiplier_is_always_one
    (now junkSaveTime : Z) (junkIncome : double) (ops : list Op) (g : GameEngine) :
  run (newGameEngine now junkSaveTime junkIncome) ops = Some g ->
  incomeMultiplier g = 1%float.
Proof.
  assert (Hall : forall ops g0 g,
            incomeMultiplier g0 = 1%float -> run g0 ops = Some g ->
            incomeMultiplier g = 1%float).
  { clear. induction ops as [|op ops IH]; intros g0 g Hone; cbn [run].
    - intros [= <-]. exact Hone.
    - destruct (step g0 op) as [g1|] eqn:Hstep; [|discriminate].
      apply IH. destruct (step_incomeMultiplier _ _ _ Hstep) as [H|H]; congruence. }
  apply Hall. reflexivity.
Qed.

Lemma incomeMultiplier_is_always_one_witness :
  exists g, run (newGameEngine 0 0 (-100)) (prestige_round ++ [Update (-3)]) = Some g /\
            incomeMultiplier g = 1%float.
Proof.
  assert (Hrun : exists g,
            run (newGameEngine 0 0 (-100)) (prestige_round ++ [Update (-3)]) = Some g)
    by (eexists; vm_compute; reflexivity).
  destruct Hrun as [g Hrun]. exists g. split; [exact Hrun|].
  exact (incomeMultiplier_is_always_one 0 0 (-100)%float _ g Hrun).
Defined.

(** ** Income *)

Lemma baseIncomeSum_no_buildings (counts : list Z) :
  Forall (fun count => count = 0) counts -> baseIncomeSum counts = 0%float.
Proof.
  intros H. unfold baseIncomeSum.
  do 7 (destruct counts as [|c counts]; [reflexivity|apply Forall_cons in H as [-> H]]).
  reflexivity.
Qed.

Lemma zero_mul_not_positive (x : double) : (0 <? 0 * x)%float = false.
Proof.
  rewrite ltb_spec, mul_spec. change (Prim2SF 0) with (S754_zero false).
  destruct (Prim2SF x) as [[]|[]| |[] m e]; reflexivity.
Qed.

Lemma update_idle (g : GameEngine) (deltaTime : double) :
  no_buildings g ->
  update g deltaTime = set_globalIncomePerSec g (0 * incomeMultiplier g)%float.
Proof.
  intros Hnone. unfold update.
  rewrite calculateIncomePerSec_unfold, (baseIncomeSum_no_buildings _ Hnone).
  replace (if hasSkill g "auto_click" then (0 + 0 * 0.05)%float else 0%float)
    with 0%float by (destruct (hasSkill g "auto_click"); reflexivity).
  cbn [globalIncomePerSec set_globalIncomePerSec].
  rewrite zero_mul_not_positive. reflexivity.
Qed.

(** X6.  An engine without buildings earns nothing from the passage of time:
    whatever [deltaTime] is (huge, negative, infinite, NaN) and whatever the
    skills and the multiplier are, [update] leaves [money] and
    [totalEarnings] as they were and stores a rate that is not positive. *)
Theorem update_without_buildings (g : GameEngine) (deltaTime : double) :
  no_buildings g ->
  money (update g deltaTime) = money g /\
  totalEarnings (update g deltaTime) = totalEarnings g /\
  (0 <? globalIncomePerSec (update g deltaTime))%float = false /\
  (incomeMultiplier g = 1%float -> globalIncomePerSec (update g deltaTime) = 0%float).
Proof.
  intros Hnone. rewrite (update_idle g deltaTime Hnone).
  cbn [money totalEarnings globalIncomePerSec set_globalIncomePerSec].
  repeat split.
  - apply zero_mul_not_positive.
  - intros ->. reflexivity.
Qed.

Lemma update_without_buildings_witness :
  no_buildings (set_money (newGameEngine 0 0 7) 42) /\
  money (update (set_money (newGameEngine 0 0 7) 42) infinity) = 42%float.
Proof.
  assert (H : no_buildings (set_money (newGameEngine 0 0 7) 42))
    by (unfold no_buildings; cbn; repeat constructor).
  split; [exact H|].
  destruct (update_without_buildings (set_money (newGameEngine 0 0 7) 42) infinity H)
    as [Hmoney _].
  exact Hmoney.
Defined.

(** X7.  [update] starts from the counters, never from the stored rate: the
    result does not depend on what [globalIncomePerSec] held before.  In
    particular the member the constructor leaves uninitialised is harmless
    once [update] has run. *)
Theorem update_forgets_stored_rate (g : GameEngine) (stored deltaTime : double) :
  update (set_globalIncomePerSec g stored) deltaTime = update g deltaTime /\
  forall now junkSaveTime junk junk',
    update (newGameEngine now junkSaveTime junk) deltaTime
    = update (newGameEngine now junkSaveTime junk') deltaTime.
Proof.
  assert (H : forall g stored,
            update (set_globalIncomePerSec g stored) deltaTime = update g deltaTime).
  { clear. intros g stored. unfold update. rewrite !calculateIncomePerSec_unfold.
    reflexivity. }
  split; [apply H|]. intros now junkSaveTime junk junk'.
  rewrite <- (H (newGameEngine now junkSaveTime junk') junk). reflexivity.
Qed.

(** X8.  [doPrestige] resets the counters but not the stored rate: right after
    a successful prestige a click still pays the old click value, and the
    next [update], of any length, finds no buildings, stores a rate of 0 and
    leaves [money] at 0. *)
Theorem income_after_prestige (g : GameEngine) (p : Z) :
  calculatePrestigePotential g = Some p -> 0 < p ->
  exists g', doPrestige g = Some g' /\
    money (click g') = (0 + clickValue g)%float /\
    forall deltaTime,
      money (update g' deltaTime) = 0%float /\
      globalIncomePerSec (update g' deltaTime) = 0%float.
Proof.
  intros Hp Hpos. unfold doPrestige. rewrite Hp.
  apply Z.ltb_lt in Hpos. rewrite Hpos. eexists. split; [reflexivity|].
  split; [reflexivity|]. intros deltaTime.
  rewrite update_idle.
  - split; reflexivity.
  - unfold no_buildings. cbn. apply Forall_replicate. reflexivity.
Qed.

Lemma income_after_prestige_witness :
  calculatePrestigePotential
    (calculateIncomePerSec
       (set_money (set_buildingCounts (newGameEngine 0 0 0) [100; 0; 0; 0; 0; 0; 0])
          4000000)) = Some 2 /\
  exists g', money (click g') = 6%float /\ money (update g' 10) = 0%float.
Proof.
  assert (Hp : calculatePrestigePotential
                 (calculateIncomePerSec
                    (set_money
                       (set_buildingCounts (newGameEngine 0 0 0) [100; 0; 0; 0; 0; 0; 0])
                       4000000)) = Some 2) by reflexivity.
  split; [exact Hp|].
  destruct (income_after_prestige _ 2 Hp ltac:(lia)) as (g' & _ & Hclick & Hupdate).
  exists g'. split; [rewrite Hclick; reflexivity|apply Hupdate].
Defined.

(** ** The price of the first unit *)

Lemma first_unit_costs (b : BuildingDef) :
  b ∈ getBuildings ->
  costAt b false 0 = baseCost b /\
  forall cheaper, (costAt b cheaper 0 <=? 0)%float = false.
Proof.
  intros Hb. apply list_elem_of_In in Hb. unfold getBuildings in Hb. cbn in Hb.
  repeat (destruct Hb as [<-|Hb];
          [split; [reflexivity|intros []; reflexivity]|]).
  contradiction.
Qed.

(** X9.  While a building's counter is 0 its price, without the discount, is
    exactly its base cost, and an engine with no money (a fresh one, or one
    that has just gone through a prestige) is declined that purchase with or
    without the discount. *)
Theorem first_unit_price (g : GameEngine) (buildingId : Z) (b : BuildingDef) :
  0 <= buildingId ->
  getBuildings !! Z.to_nat buildingId = Some b ->
  buildingCounts g !! Z.to_nat buildingId = Some 0 ->
  (hasSkill g "cheaper" = false -> getBuildingCost g buildingId = Some (baseCost b)) /\
  (money g = 0%float -> buyBuilding g buildingId = Some (false, g)).
Proof.
  intros Hid Hb Hcount.
  pose proof (getBuildingCost_eq g buildingId b 0 Hid Hb Hcount) as Hcost.
  destruct (first_unit_costs b ltac:(eapply list_elem_of_lookup_2; exact Hb))
    as [Hbase Hpos].
  split.
  - intros Hplain. rewrite Hcost, Hplain, Hbase. reflexivity.
  - intros Hmoney. rewrite (buyBuilding_unfold _ _ _ _ Hcost Hcount), Hmoney, Hpos.
    reflexivity.
Qed.

Lemma first_unit_price_witness :
  getBuildingCost (newGameEngine 0 0 0) 3 = Some 12000%float /\
  buyBuilding (newGameEngine 0 0 0) 3 = Some (false, newGameEngine 0 0 0).
Proof.
  destruct (first_unit_price (newGameEngine 0 0 0) 3
              {| b_id := 3; b_name := "AI Cluster"; baseCost := 12000; income := 85;
                 icon := "🧠" |} ltac:(lia) eq_refl eq_refl) as [Hcost Hbuy].
  split; [apply Hcost; reflexivity|apply Hbuy; reflexivity].
Defined.

(** ** Whole numbers *)

Lemma digits2_pos_iter_xO (m k : positive) :
  Zpos (digits2_pos (Pos.iter xO m k)) = Zpos (digits2_pos m) + Zpos k.
Proof.
  change (Zpos (digits2_pos (Pos.iter xO m k))) with (Zdigits2 (Zpos (Pos.iter xO m k))).
  apply Zdigits2_unique; [|lia].
  rewrite iter_xO_mul. pose proof (digits2_pos_bounds m) as [Blo Bhi].
  assert (Hp : 0 < 2 ^ Zpos k) by (apply Z.pow_pos_nonneg; lia).
  replace (Zpos (digits2_pos m) + Zpos k - 1) with (Zpos (digits2_pos m) - 1 + Zpos k) by lia.
  rewrite !Z.pow_add_r by lia. split; nia.
Qed.

(** A full mantissa with an exponent in range is its own rounding. *)
Lemma binary_round_aux_exact (s : bool) (mz : positive) (ez : Z) :
  Zpos (digits2_pos mz) = 53 -> -1074 <= ez <= 971 ->
  binary_round_aux prec emax s (Zpos mz) ez loc_Exact = S754_finite s mz ez.
Proof.
  intros Hd He. unfold binary_round_aux, shr_fexp. cbn [Zdigits2]. rewrite Hd.
  replace (fexp prec emax (53 + ez) - ez) with 0
    by (unfold fexp, emin, prec, emax; lia).
  cbn [shr shr_record_of_loc shr_m loc_of_shr_record round_nearest_even Zdigits2].
  rewrite Hd.
  replace (fexp prec emax (53 + ez) - ez) with 0
    by (unfold fexp, emin, prec, emax; lia).
  cbn [shr shr_record_of_loc shr_m].
  destruct (Z.leb_spec ez (emax - prec)) as [|Hgt]; [reflexivity|].
  unfold emax, prec in Hgt. lia.
Qed.

(** Converting an integer of at most 53 bits is exact. *)
Lemma binary_round_integer (s : bool) (m : positive) :
  Zpos (digits2_pos m) <= 53 ->
  exists mz ez,
    binary_round prec emax s m 0 = S754_finite s mz ez /\
    Zpos (digits2_pos mz) = 53 /\ -52 <= ez <= 0 /\
    Zpos mz = Zpos m * 2 ^ (- ez).
Proof.
  intros Hd. pose proof (Pos2Z.is_pos (digits2_pos m)) as Hd0.
  unfold binary_round, shl_align.
  replace (fexp prec emax (Zpos (digits2_pos m) + 0)) with (Zpos (digits2_pos m) - 53)
    by (unfold fexp, emin, prec, emax; lia).
  destruct (Zpos (digits2_pos m) - 53 - 0) as [|k|k] eqn:Hk; try lia.
  - exists m, 0. rewrite binary_round_aux_exact by lia.
    repeat split; first [lia | change (2 ^ (- 0)) with 1; lia].
  - exists (Pos.iter xO m k), (Zpos (digits2_pos m) - 53).
    assert (Hdk : Zpos (digits2_pos (Pos.iter xO m k)) = 53)
      by (rewrite digits2_pos_iter_xO; lia).
    rewrite binary_round_aux_exact by lia.
    repeat split; first [lia | rewrite iter_xO_mul; f_equal; f_equal; lia].
Qed.

Lemma binary_normalize_integer (z : Z) (szero : bool) :
  Zdigits2 z <= 53 ->
  let r := binary_normalize prec emax z 0 szero in
  valid_binary r = true /\ whole r /\ (0 <= z -> SFunsigned r).
Proof.
  intros Hd. destruct z as [|m|m]; cbn [binary_normalize].
  - repeat split.
  - destruct (binary_round_integer false m Hd) as (mz & ez & -> & Hdz & He & Hval).
    split; [|split].
    + cbn. unfold bounded, canonical_mantissa. rewrite Hdz.
      apply andb_true_iff. split; [apply Z.eqb_eq|apply Z.leb_le];
        unfold fexp, emin, prec, emax; lia.
    + cbn. intros _. rewrite Hval. apply Z.mod_mul.
      apply Z.pow_nonzero; lia.
    + intros _. exact I.
  - destruct (binary_round_integer true m Hd) as (mz & ez & -> & Hdz & He & Hval).
    split; [|split].
    + cbn. unfold bounded, canonical_mantissa. rewrite Hdz.
      apply andb_true_iff. split; [apply Z.eqb_eq|apply Z.leb_le];
        unfold fexp, emin, prec, emax; lia.
    + cbn. intros _. rewrite Hval. apply Z.mod_mul.
      apply Z.pow_nonzero; lia.
    + lia.
Qed.

Lemma SFfloor_spec (x : spec_float) :
  valid_binary x = true ->
  valid_binary (SFfloor x) = true /\ whole (SFfloor x) /\
  (SFunsigned x -> SFunsigned (SFfloor x)).
Proof.
  intros Hv. destruct x as [s|s| |s m e];
    try (split; [exact Hv|split; [exact I|exact (fun H => H)]]).
  unfold SFfloor. destruct (Z.leb_spec 0 e) as [He|He].
  { split; [exact Hv|]. split; [cbn; lia|exact (fun H => H)]. }
  apply valid_finite_inv in Hv as [Hcanon _].
  assert (Hdm : Zdigits2 (Zpos m) <= 53) by (cbn; lia).
  assert (Hp : 0 < 2 ^ (- e)) by (apply Z.pow_pos_nonneg; lia).
  assert (Hp2 : 2 <= 2 ^ (- e)).
  { change 2 with (2 ^ 1) at 1. apply Z.pow_le_mono_r; lia. }
  set (z := Z.shiftr (cond_Zopp s (Zpos m)) (- e)).
  assert (Hz : z = cond_Zopp s (Zpos m) / 2 ^ (- e))
    by (unfold z; apply Z.shiftr_div_pow2; lia).
  assert (Hdz : Zdigits2 z <= 53).
  { destruct s; cbn [cond_Zopp] in Hz.
    - assert (Hneg : - Zpos m <= z <= -1).
      { rewrite Hz. split.
        - apply Z.div_le_lower_bound; [lia|]. nia.
        - assert (- Zpos m / 2 ^ (- e) < 0); [|lia].
          apply Z.div_lt_upper_bound; lia. }
      destruct z as [|q|q]; try lia.
      change (Zdigits2 (Zneg q)) with (Zdigits2 (Zpos q)).
      etransitivity; [apply (Zdigits2_le (Zpos q) (Zpos m)); lia|exact Hdm].
    - assert (Hpos : 0 <= z <= Zpos m).
      { rewrite Hz. split; [apply Z.div_pos; lia|].
        apply Z.div_le_upper_bound; [lia|]. nia. }
      destruct z as [|q|q]; try lia; [cbn; lia|].
      etransitivity; [apply (Zdigits2_le (Zpos q) (Zpos m)); lia|exact Hdm]. }
  destruct (binary_normalize_integer z s Hdz) as (Hvalid & Hwhole & Hsign).
  split; [exact Hvalid|]. split; [exact Hwhole|].
  destruct s; [contradiction|]. intros _. apply Hsign.
  rewrite Hz. cbn [cond_Zopp]. apply Z.div_pos; lia.
Qed.

Lemma Prim2SF_floor (x : double) : Prim2SF (floor x) = SFfloor (Prim2SF x).
Proof.
  unfold floor. apply Prim2SF_SF2Prim.
  apply SFfloor_spec, Prim2SF_valid.
Qed.

(** X10.  Every cost [getBuildingCost] returns is a whole number (or an
    infinity, or NaN): when its binary exponent is negative, the mantissa
    has that many trailing zero bits. *)
Theorem building_cost_is_whole (g : GameEngine) (buildingId : Z) (cost : double) :
  getBuildingCost g buildingId = Some cost -> whole (Prim2SF cost).
Proof.
  unfold getBuildingCost.
  destruct (buildingId <? 0); [discriminate|].
  destruct (getBuildings !! Z.to_nat buildingId) as [b|]; [|discriminate].
  destruct (buildingCounts g !! Z.to_nat buildingId) as [count|]; [|discriminate].
  intros [= <-]. rewrite Prim2SF_floor. apply SFfloor_spec, Prim2SF_valid.
Qed.

Lemma building_cost_is_whole_witness :
  getBuildingCost (set_buildingCounts (newGameEngine 0 0 0) [0; 0; 0; 1; 0; 0; 0]) 3
  = Some 13799%float /\
  whole (Prim2SF 13799).
Proof.
  assert (H : getBuildingCost
                (set_buildingCounts (newGameEngine 0 0 0) [0; 0; 0; 1; 0; 0; 0]) 3
              = Some 13799%float) by reflexivity.
  split; [exact H|]. exact (building_cost_is_whole _ _ _ H).
Defined.

(** ** The potential is never negative *)

Lemma SFsqrt_unsigned (x : spec_float) : SFunsigned (SFsqrt prec emax x).
Proof.
  destruct x as [[]|[]| |[] m e]; try exact I.
  unfold SFsqrt. destruct (SFsqrt_core_binary prec emax (Zpos m) e) as [[mz ez] lz].
  destruct (binary_round_aux_cases false mz ez lz) as [H|[(m' & e' & H)|[H|H]]];
    cbn zeta in H; rewrite H; exact I.
Qed.

Lemma SFtrunc_unsigned (x : spec_float) (z : Z) :
  SFunsigned x -> SFtrunc x = Some z -> 0 <= z.
Proof.
  destruct x as [s|s| |[] m e]; cbn [SFunsigned SFtrunc cond_Zopp];
    try discriminate; try contradiction.
  - intros _ [= <-]. lia.
  - intros _ [= <-]. destruct (Z.leb_spec 0 e) as [He|He].
    + assert (0 <= 2 ^ e) by (apply Z.pow_nonneg; lia). nia.
    + apply Z.div_pos; [lia|]. apply Z.pow_pos_nonneg; lia.
Qed.

(** X11.  [calculatePrestigePotential] never returns a negative number, so a
    prestige whose addition fits [long long] never lowers [neuralData]. *)
Theorem potential_is_not_negative (g : GameEngine) (p : Z) :
  calculatePrestigePotential g = Some p ->
  0 <= p /\
  forall g', doPrestige g = Some g' ->
             in_long_long (neuralData g) -> neuralData g + p <= LLONG_MAX ->
             neuralData g <= neuralData g'.
Proof.
  intros Hp.
  assert (Hnn : 0 <= p).
  { unfold calculatePrestigePotential in Hp.
    destruct (money g <? 1000000)%float; [injection Hp as <-; lia|].
    unfold long_long_of_double in Hp.
    destruct (SFtrunc _) as [z|] eqn:Htrunc; [|discriminate].
    destruct ((LLONG_MIN <=? z) && (z <=? LLONG_MAX)); [|discriminate].
    injection Hp as <-. refine (SFtrunc_unsigned _ z _ Htrunc).
    rewrite Prim2SF_floor.
    destruct (SFfloor_spec _ (Prim2SF_valid (sqrt (money g / 1000000)%float)))
      as (_ & _ & Hsign).
    apply Hsign. rewrite sqrt_spec. apply SFsqrt_unsigned. }
  split; [exact Hnn|].
  intros g' Hdo Hrange Hfit. unfold doPrestige in Hdo. rewrite Hp in Hdo.
  destruct (0 <? p); injection Hdo as <-; [|lia].
  cbn. rewrite wrap64_id; [lia|].
  unfold in_long_long, LLONG_MIN, LLONG_MAX in *. lia.
Qed.

Lemma potential_is_not_negative_witness :
  calculatePrestigePotential (set_money (newGameEngine 0 0 0) 9000000) = Some 3 /\
  0 <= 3 /\
  forall g', doPrestige (set_money (newGameEngine 0 0 0) 9000000) = Some g' ->
             in_long_long (neuralData (set_money (newGameEngine 0 0 0) 9000000)) ->
             neuralData (set_money (newGameEngine 0 0 0) 9000000) + 3 <= LLONG_MAX ->
             neuralData (set_money (newGameEngine 0 0 0) 9000000) <= neuralData g'.
Proof.
  assert (H : calculatePrestigePotential (set_money (newGameEngine 0 0 0) 9000000)
              = Some 3) by reflexivity.
  split; [exact H|]. exact (potential_is_not_negative _ _ H).
Defined.

(** ** Skills nothing reads *)

Lemma hasSkill_withSkill (g : GameEngine) (skillId k : string) (owned : bool) :
  skillId <> k -> hasSkill (withSkill g skillId owned) k = hasSkill g k.
Proof.
  intros Hne. unfold hasSkill, withSkill. cbn [ownedSkills set_ownedSkills].
  rewrite lookup_insert_ne by assumption. reflexivity.
Qed.

Lemma buySkill_withSkill (g : GameEngine) (skillId k : string) (owned : bool) :
  skillId <> k ->
  buySkill (withSkill g skillId owned) k
  = (fst (buySkill g k), withSkill (snd (buySkill g k)) skillId owned).
Proof.
  intros Hne.
  assert (Hlook : ownedSkills (withSkill g skillId owned) !! k = ownedSkills g !! k)
    by (unfold withSkill; cbn; apply lookup_insert_ne; assumption).
  rewrite !buySkill_unfold, hasSkill_withSkill, Hlook by assumption.
  change (neuralData (withSkill g skillId owned)) with (neuralData g).
  destruct (hasSkill g k); [reflexivity|]. cbn zeta.
  destruct (findSkill k) as [skill|]; [destruct (cost skill <=? neuralData g)|];
    destruct (ownedSkills g !! k) eqn:Hk; cbn [fst snd]; f_equal;
    unfold withSkill, set_ownedSkills, set_neuralData; cbn; try reflexivity;
    f_equal; apply map_eq; intros i;
    destruct (decide (i = k)) as [Hik|?]; destruct (decide (i = skillId)) as [His|?];
    try congruence; subst; simplify_map_eq; done.
Qed.

Lemma getBuildingCost_withSkill (g : GameEngine) (skillId : string) (owned : bool)
    (buildingId : Z) :
  skillId <> "cheaper" ->
  getBuildingCost (withSkill g skillId owned) buildingId = getBuildingCost g buildingId.
Proof.
  intros Hne. unfold getBuildingCost. rewrite hasSkill_withSkill by assumption.
  reflexivity.
Qed.

Lemma step_withSkill (g : GameEngine) (skillId : string) (owned : bool) (op : Op) :
  skillId <> "auto_click" -> skillId <> "cheaper" -> op <> BuySkill skillId ->
  step (withSkill g skillId owned) op
  = (fun g' => withSkill g' skillId owned) <$> step g op.
Proof.
  intros Hauto Hcheaper Hop. destruct op as [|buildingId|k| |deltaTime]; cbn [step].
  - reflexivity.
  - unfold buyBuilding. rewrite getBuildingCost_withSkill by assumption.
    destruct ((buildingId <? 0) || (Z.of_nat (length getBuildings) <=? buildingId));
      [reflexivity|].
    destruct (getBuildingCost g buildingId) as [cost|]; [|reflexivity].
    change (money (withSkill g skillId owned)) with (money g).
    destruct (cost <=? money g)%float; [|reflexivity].
    cbn [buildingCounts set_money withSkill set_ownedSkills].
    destruct (buildingCounts g !! Z.to_nat buildingId); reflexivity.
  - rewrite buySkill_withSkill by congruence. reflexivity.
  - unfold doPrestige.
    change (calculatePrestigePotential (withSkill g skillId owned))
      with (calculatePrestigePotential g).
    destruct (calculatePrestigePotential g) as [p|]; [|reflexivity].
    destruct (0 <? p); reflexivity.
  - unfold update. rewrite !calculateIncomePerSec_unfold, hasSkill_withSkill by assumption.
    cbn [globalIncomePerSec set_globalIncomePerSec buildingCounts incomeMultiplier
         withSkill set_ownedSkills].
    destruct (0 <? _)%float; reflexivity.
Qed.

(** X12.  Only "auto_click" and "cheaper" are ever looked up by the economy: for
    any other id (the catalog's "offline" and "hack_freq" among them),
    owning it or not makes no difference to a run that does not buy it.  The
    run from the state with the entry set goes through the same states, but
    for that entry. *)
Theorem unread_skills_change_nothing
    (g : GameEngine) (skillId : string) (owned : bool) (ops : list Op) :
  skillId <> "auto_click" -> skillId <> "cheaper" ->
  Forall (fun op => op <> BuySkill skillId) ops ->
  run (withSkill g skillId owned) ops
  = (fun g' => withSkill g' skillId owned) <$> run g ops.
Proof.
  intros Hauto Hcheaper Hops. revert g.
  induction Hops as [|op ops Hop _ IH]; intros g; cbn [run]; [reflexivity|].
  rewrite (step_withSkill g skillId owned op Hauto Hcheaper Hop).
  destruct (step g op) as [g1|]; cbn; [apply IH|reflexivity].
Qed.

Lemma unread_skills_change_nothing_witness :
  exists g',
    run (set_neuralData (newGameEngine 0 0 0) 10) [Click; BuySkill "cheaper"; Update 2]
    = Some g' /\
    run (withSkill (set_neuralData (newGameEngine 0 0 0) 10) "offline" true)
        [Click; BuySkill "cheaper"; Update 2]
    = Some (withSkill g' "offline" true) /\
    hasSkill g' "cheaper" = true.
Proof.
  eexists. split; [vm_compute; reflexivity|]. split; [|reflexivity].
  rewrite (unread_skills_change_nothing
             (set_neuralData (newGameEngine 0 0 0) 10) "offline" true
             [Click; BuySkill "cheaper"; Update 2]
             ltac:(discriminate) ltac:(discriminate)
             ltac:(repeat constructor; discriminate)).
  reflexivity.
Defined.

(** ** Indexing *)

Lemma step_counts_length (g g' : GameEngine) (op : Op) :
  step g op = Some g' -> length (buildingCounts g') = length (buildingCounts g).
Proof.
  destruct op as [|buildingId|skillId| |deltaTime]; cbn [step].
  - intros [= <-]. reflexivity.
  - destruct (buyBuilding g buildingId) as [[ok g1]|] eqn:Hbuy; [|discriminate].
    intros [= <-]. apply buyBuilding_frame in Hbuy. tauto.
  - intros [= <-]. pose proof (buySkill_frame g skillId) as H.
    unfold same_economy in H. destruct H as (_ & -> & _). reflexivity.
  - unfold doPrestige. destruct (calculatePrestigePotential g) as [p|]; [|discriminate].
    destruct (0 <? p); intros [= <-]; [|reflexivity].
    cbn. apply length_replicate.
  - intros [= <-]. destruct (update_frame g deltaTime) as (_ & _ & _ & -> & _).
    reflexivity.
Qed.

Lemma getBuildingCost_defined (g : GameEngine) (buildingId : Z) :
  length (buildingCounts g) = length getBuildings ->
  0 <= buildingId < Z.of_nat (length getBuildings) ->
  is_Some (getBuildingCost g buildingId) /\
  is_Some (buildingCounts g !! Z.to_nat buildingId).
Proof.
  intros Hlen Hid.
  destruct (lookup_lt_is_Some_2 getBuildings (Z.to_nat buildingId) ltac:(lia)) as [b Hb].
  destruct (lookup_lt_is_Some_2 (buildingCounts g) (Z.to_nat buildingId) ltac:(lia))
    as [count Hcount].
  split; [|eexists; exact Hcount].
  rewrite (getBuildingCost_eq g buildingId b count ltac:(lia) Hb Hcount).
  eexists; reflexivity.
Qed.

Lemma buyBuilding_defined (g : GameEngine) (buildingId : Z) :
  length (buildingCounts g) = length getBuildings ->
  is_Some (buyBuilding g buildingId).
Proof.
  intros Hlen.
  destruct (Z.lt_ge_cases buildingId 0) as [Hneg|Hnn];
    [rewrite buyBuilding_outside by (left; exact Hneg); eexists; reflexivity|].
  destruct (Z.le_gt_cases (Z.of_nat (length getBuildings)) buildingId) as [Hbig|Hin];
    [rewrite buyBuilding_outside by (right; exact Hbig); eexists; reflexivity|].
  destruct (getBuildingCost_defined g buildingId Hlen ltac:(lia))
    as [[cost Hcost] [count Hcount]].
  rewrite (buyBuilding_unfold g buildingId cost count Hcost Hcount).
  destruct (cost <=? money g)%float; eexists; reflexivity.
Qed.

Lemma run_counts_length (ops : list Op) (g g' : GameEngine) :
  run g ops = Some g' -> length (buildingCounts g') = length (buildingCounts g).
Proof.
  revert g. induction ops as [|op ops IH]; intros g; cbn [run].
  - intros [= <-]. reflexivity.
  - destruct (step g op) as [g1|] eqn:Hstep; [|discriminate].
    intros Hrun. rewrite (IH _ Hrun). exact (step_counts_length _ _ _ Hstep).
Qed.

(** X13.  [buildingCounts] keeps the catalog's length from the constructor
    on, so no state a run from a fresh engine reaches lets the unchecked
    [operator[]] of [getBuildingCost] and [buyBuilding] leave the vector:
    every catalog id has its counter and its price, and [buyBuilding],
    which checks the id against the catalog and not against the vector,
    finds the element it reads and increments. *)
Theorem indexing_stays_in_range
    (now junkSaveTime : Z) (junkIncome : double) (ops : list Op) (g : GameEngine) :
  run (newGameEngine now junkSaveTime junkIncome) ops = Some g ->
  length (buildingCounts g) = length getBuildings /\
  (forall buildingId, 0 <= buildingId < Z.of_nat (length getBuildings) ->
     is_Some (buildingCounts g !! Z.to_nat buildingId) /\
     is_Some (getBuildingCost g buildingId)) /\
  (forall buildingId, is_Some (buyBuilding g buildingId)).
Proof.
  intros Hrun.
  assert (Hlen : length (buildingCounts g) = length getBuildings).
  { rewrite (run_counts_length _ _ _ Hrun). cbn. reflexivity. }
  split; [exact Hlen|]. split.
  - intros buildingId Hid.
    destruct (getBuildingCost_defined g buildingId Hlen Hid) as [Hcost Hcount].
    split; assumption.
  - intros buildingId. apply buyBuilding_defined, Hlen.
Qed.

Lemma indexing_stays_in_range_witness :
  exists g,
    run (newGameEngine 0 0 0) prestige_round = Some g /\
    length (buildingCounts g) = 7%nat /\
    is_Some (getBuildingCost g 6) /\ is_Some (buyBuilding g 6).
Proof.
  assert (Hrun : exists g, run (newGameEngine 0 0 0) prestige_round = Some g)
    by (eexists; vm_compute; reflexivity).
  destruct Hrun as [g Hrun]. exists g.
  destruct (indexing_stays_in_range 0 0 0%float _ g Hrun) as (Hlen & Hcost & Hbuy).
  split; [exact Hrun|]. split; [exact Hlen|].
  split; [apply (Hcost 6); cbn; lia|apply Hbuy].
Defined.

(** ** The clock members *)

Lemma step_withTimes (g : GameEngine) (start saved : Z) (op : Op) :
  step (withTimes g start saved) op = (fun g' => withTimes g' start saved) <$> step g op.
Proof.
  destruct op as [|buildingId|skillId| |deltaTime]; cbn [step].
  - reflexivity.
  - unfold buyBuilding.
    change (getBuildingCost (withTimes g start saved) buildingId)
      with (getBuildingCost g buildingId).
    destruct ((buildingId <? 0) || (Z.of_nat (length getBuildings) <=? buildingId));
      [reflexivity|].
    destruct (getBuildingCost g buildingId) as [cost|]; [|reflexivity].
    change (money (withTimes g start saved)) with (money g).
    destruct (cost <=? money g)%float; [|reflexivity].
    cbn [buildingCounts set_money withTimes].
    destruct (buildingCounts g !! Z.to_nat buildingId); reflexivity.
  - rewrite !buySkill_unfold.
    change (hasSkill (withTimes g start saved) skillId) with (hasSkill g skillId).
    destruct (hasSkill g skillId); [reflexivity|]. cbn zeta.
    change (ownedSkills (withTimes g start saved)) with (ownedSkills g).
    change (neuralData (withTimes g start saved)) with (neuralData g).
    destruct (findSkill skillId) as [skill|]; [destruct (cost skill <=? neuralData g)|];
      destruct (ownedSkills g !! skillId); reflexivity.
  - unfold doPrestige.
    change (calculatePrestigePotential (withTimes g start saved))
      with (calculatePrestigePotential g).
    destruct (calculatePrestigePotential g) as [p|]; [|reflexivity].
    destruct (0 <? p); reflexivity.
  - unfold update. rewrite !calculateIncomePerSec_unfold.
    change (hasSkill (withTimes g start saved) "auto_click") with (hasSkill g "auto_click").
    cbn [globalIncomePerSec set_globalIncomePerSec buildingCounts incomeMultiplier withTimes].
    destruct (0 <? _)%float; reflexivity.
Qed.

Lemma run_withTimes (ops : list Op) (g : GameEngine) (start saved : Z) :
  run (withTimes g start saved) ops = (fun g' => withTimes g' start saved) <$> run g ops.
Proof.
  revert g. induction ops as [|op ops IH]; intros g; cbn [run]; [reflexivity|].
  rewrite step_withTimes. destruct (step g op) as [g1|]; cbn; [apply IH|reflexivity].
Qed.

(** X14.  No method reads or writes [startTime] or [lastSaveTime]: a run from an
    engine constructed at another time, or over other bytes in the
    uninitialised [lastSaveTime], goes through the same states but for these
    two members, and the two members still hold at the end what the
    constructor left in them. *)
Theorem clock_members_are_inert
    (now junkSaveTime now' junkSaveTime' : Z) (junkIncome : double) (ops : list Op) :
  run (newGameEngine now' junkSaveTime' junkIncome) ops
  = (fun g => withTimes g now' junkSaveTime')
      <$> run (newGameEngine now junkSaveTime junkIncome) ops /\
  forall g, run (newGameEngine now junkSaveTime junkIncome) ops = Some g ->
            startTime g = now /\ lastSaveTime g = junkSaveTime.
Proof.
  split.
  - apply (run_withTimes ops (newGameEngine now junkSaveTime junkIncome)).
  - intros g Hrun.
    pose proof (run_withTimes ops (newGameEngine 0 0 junkIncome) now junkSaveTime) as H.
    change (withTimes (newGameEngine 0 0 junkIncome) now junkSaveTime)
      with (newGameEngine now junkSaveTime junkIncome) in H.
    rewrite Hrun in H. destruct (run (newGameEngine 0 0 junkIncome) ops) as [g0|];
      [|discriminate].
    injection H as ->. split; reflexivity.
Qed.

Lemma clock_members_are_inert_witness :
  exists g,
    run (newGameEngine 1700000000 (-7) 3) prestige_round = Some g /\
    startTime g = 1700000000 /\ lastSaveTime g = -7.
Proof.
  assert (Hrun : exists g, run (newGameEngine 1700000000 (-7) 3) prestige_round = Some g)
    by (eexists; vm_compute; reflexivity).
  destruct Hrun as [g Hrun]. exists g. split; [exact Hrun|].
  destruct (clock_members_are_inert 1700000000 (-7) 0 0 3%float prestige_round) as [_ H].
  exact (H g Hrun).
Defined.

(** * Floating-point order *)

(** ** The prestige threshold *)

Lemma shr_fexp_top (mx ex : Z) (lx : location) :
  0 < mx -> -1021 <= Zdigits2 mx + ex ->
  let '(mrs, e) := shr_fexp prec emax mx ex lx in
  0 < shr_m mrs /\ Zdigits2 (shr_m mrs) + e = Zdigits2 mx + ex.
Proof.
  intros Hpos Hnormal. unfold shr_fexp, shr.
  assert (Hf : fexp prec emax (Zdigits2 mx + ex) = Zdigits2 mx + ex - 53).
  { unfold fexp, emin, prec, emax in *. lia. }
  rewrite Hf.
  assert (Hm : shr_m (shr_record_of_loc mx lx) = mx) by (destruct lx as [|[]]; reflexivity).
  destruct (Zdigits2 mx + ex - 53 - ex) as [|kp|kp] eqn:Hk.
  - rewrite Hm. lia.
  - rewrite iter_pos_nat, shr_iter_m, Hm by (rewrite Hm; lia).
    rewrite positive_nat_Z.
    rewrite (Zdigits2_div_pow2 mx (Zpos kp)) by lia.
    split; [|lia].
    apply Z.div_str_pos. split; [apply Z.pow_pos_nonneg; lia|].
    pose proof (Zdigits2_bounds mx Hpos) as [Blo _].
    eapply Z.le_trans; [|exact Blo]. apply Z.pow_le_mono_r; lia.
  - rewrite Hm. lia.
Qed.

(** Rounding never lowers the position of the leading bit. *)
Lemma binary_round_aux_top (mx ex : Z) (lx : location) :
  0 < mx -> 1 <= Zdigits2 mx + ex ->
  at_least_one (binary_round_aux prec emax false mx ex lx).
Proof.
  intros Hpos Htop. unfold binary_round_aux.
  pose proof (shr_fexp_top mx ex lx Hpos ltac:(lia)) as H1.
  destruct (shr_fexp prec emax mx ex lx) as [mrs' e']. destruct H1 as (Hm' & Hd').
  set (m1 := round_nearest_even (shr_m mrs') (loc_of_shr_record mrs')).
  assert (Hge : shr_m mrs' <= m1) by apply round_nearest_even_ge.
  assert (Hm1 : 0 < m1) by lia.
  pose proof (Zdigits2_le _ _ Hm' Hge) as Hmono.
  pose proof (shr_fexp_top m1 e' loc_Exact Hm1 ltac:(lia)) as H2.
  destruct (shr_fexp prec emax m1 e' loc_Exact) as [mrs'' e''].
  destruct H2 as (Hm'' & Hd'').
  destruct (shr_m mrs'') as [|m''|m''] eqn:Hm3; try lia.
  destruct (Z.leb_spec e'' (emax - prec)); [|exact I].
  cbn [at_least_one]. cbn [Zdigits2] in Hd''. lia.
Qed.

Lemma valid_at_least_one (m : positive) (e : Z) :
  valid_binary (S754_finite false m e) = true ->
  1 <= Zpos (digits2_pos m) + e ->
  Zpos (digits2_pos m) = 53 /\ -52 <= e /\ 2 ^ 52 <= Zpos m.
Proof.
  intros Hv Htop. apply valid_finite_inv in Hv as [Hcanon _].
  assert (Hd : Zpos (digits2_pos m) = 53) by lia.
  split; [exact Hd|]. split; [lia|].
  pose proof (digits2_pos_bounds m) as [Hlo _]. rewrite Hd in Hlo. exact Hlo.
Qed.

Lemma SFdiv_million (x : spec_float) :
  valid_binary x = true ->
  SFleb (Prim2SF 1000000) x = true ->
  at_least_one (SFdiv prec emax x (Prim2SF 1000000)).
Proof.
  change (Prim2SF 1000000) with (S754_finite false 8589934592000000 (-33)).
  intros Hv Hle. destruct x as [[]|[]| |[] mx ex]; try discriminate Hle; try exact I.
  unfold SFleb, SFcompare in Hle.
  assert (Hex : -33 < ex \/ ex = -33 /\ 8589934592000000 <= Zpos mx).
  { destruct (Z.compare_spec (-33) ex) as [Heq|Hlt|Hgt]; [right|left; exact Hlt|discriminate].
    split; [lia|]. change (Pcompare 8589934592000000 mx Eq) with (8589934592000000 ?= mx)%positive in Hle.
    destruct (Pos.compare_spec 8589934592000000 mx) as [Hm|Hm|Hm]; try discriminate; lia. }
  clear Hle.
  destruct (valid_at_least_one mx ex Hv) as (Hd & _ & Hmx).
  { apply valid_finite_inv in Hv as [Hcanon _]. lia. }
  unfold SFdiv, SFdiv_core_binary. cbn [Zdigits2 xorb]. rewrite Hd.
  change (Zpos (digits2_pos 8589934592000000)) with 53.
  replace (Z.min (fexp prec emax (53 + ex - (53 + -33))) (ex - -33)) with (ex - 20)
    by (unfold fexp, emin, prec, emax; lia).
  replace (ex - -33 - (ex - 20)) with 53 by lia.
  cbv iota. rewrite Z.shiftl_mul_pow2 by lia.
  pose proof (Z_div_mod (Zpos mx * 2 ^ 53) 8589934592000000 ltac:(lia)) as Hdiv.
  destruct (Z.div_eucl (Zpos mx * 2 ^ 53) 8589934592000000) as [q r].
  destruct Hdiv as [Heq Hr].
  change (2 ^ 53) with 9007199254740992 in Heq.
  change (2 ^ 52) with 4503599627370496 in Hmx.
  assert (Hq : 2 ^ 52 <= q) by (change (2 ^ 52) with 4503599627370496; lia).
  apply binary_round_aux_top; [lia|].
  destruct Hex as [Hgt|[-> Hbig]].
  - pose proof (Zdigits2_lower q 53 ltac:(lia) Hq). lia.
  - assert (Hq' : 2 ^ (54 - 1) <= q) by (change (2 ^ (54 - 1)) with 9007199254740992; lia).
    pose proof (Zdigits2_lower q 54 ltac:(lia) Hq'). lia.
Qed.

Lemma SFsqrt_at_least_one (x : spec_float) :
  valid_binary x = true -> at_least_one x -> at_least_one (SFsqrt prec emax x).
Proof.
  intros Hv Hx. destruct x as [[]|[]| |[] m e]; try contradiction; try exact I.
  cbn [at_least_one] in Hx.
  destruct (valid_at_least_one m e Hv Hx) as (Hd & He & Hm).
  unfold SFsqrt, SFsqrt_core_binary. cbn [Zdigits2]. rewrite Hd.
  rewrite !Z.div2_div.
  assert (Hhalf : (53 + e + 1) / 2 = e / 2 + 27).
  { replace (53 + e + 1) with (e + 27 * 2) by lia. apply Z.div_add. lia. }
  pose proof (Z.div_mod e 2 ltac:(lia)) as Hdm.
  pose proof (Z.mod_pos_bound e 2 ltac:(lia)) as Hmod.
  rewrite Hhalf.
  replace (Z.min (fexp prec emax (e / 2 + 27)) (e / 2)) with (e / 2 - 26)
    by (unfold fexp, emin, prec, emax; lia).
  assert (Hs : e - 2 * (e / 2 - 26) = 52 + e mod 2) by lia.
  rewrite Hs.
  destruct (52 + e mod 2) as [|s|s] eqn:Hshift; try lia.
  rewrite Z.shiftl_mul_pow2 by lia.
  assert (Hbig : 2 ^ 52 * 2 ^ 52 <= Zpos m * 2 ^ Zpos s).
  { apply Z.mul_le_mono_nonneg; try lia. apply Z.pow_le_mono_r; lia. }
  pose proof (Z.sqrtrem_spec (Zpos m * 2 ^ Zpos s) ltac:(lia)) as Hsqrt.
  destruct (Z.sqrtrem (Zpos m * 2 ^ Zpos s)) as [q r].
  destruct Hsqrt as [Heq Hr].
  assert (Hq : 2 ^ 52 <= q).
  { destruct (Z.le_gt_cases (2 ^ 52) q) as [|Hlt]; [assumption|exfalso].
    assert (0 <= q) by lia.
    assert ((q + 1) * (q + 1) <= 2 ^ 52 * 2 ^ 52)
      by (apply Z.mul_le_mono_nonneg; lia).
    lia. }
  assert (0 < 2 ^ 52) by (apply Z.pow_pos_nonneg; lia).
  apply binary_round_aux_top; [lia|].
  pose proof (Zdigits2_lower q 53 ltac:(lia) Hq). lia.
Qed.

Lemma SFtrunc_floor_at_least_one (x : spec_float) (z : Z) :
  valid_binary x = true -> at_least_one x ->
  SFtrunc (SFfloor x) = Some z -> 1 <= z.
Proof.
  intros Hv Hx. destruct x as [[]|[]| |[] m e]; try contradiction; try discriminate.
  cbn [at_least_one] in Hx.
  destruct (valid_at_least_one m e Hv Hx) as (Hd & He & Hm).
  assert (H52 : 0 < 2 ^ 52) by (apply Z.pow_pos_nonneg; lia).
  unfold SFfloor. destruct (Z.leb_spec 0 e) as [Hnn|Hneg].
  - cbn [SFtrunc cond_Zopp]. destruct (Z.leb_spec 0 e); [|lia].
    intros [= <-]. assert (0 < 2 ^ e) by (apply Z.pow_pos_nonneg; lia). nia.
  - cbn [cond_Zopp]. rewrite Z.shiftr_div_pow2 by lia.
    assert (Hp : 0 < 2 ^ (- e)) by (apply Z.pow_pos_nonneg; lia).
    assert (Hple : 2 ^ (- e) <= 2 ^ 52) by (apply Z.pow_le_mono_r; lia).
    assert (Hq : 1 <= Zpos m / 2 ^ (- e)).
    { apply Z.div_le_lower_bound; lia. }
    assert (Hqle : Zpos m / 2 ^ (- e) <= Zpos m).
    { apply Z.div_le_upper_bound; [lia|]. nia. }
    destruct (Zpos m / 2 ^ (- e)) as [|q|q] eqn:Hdiv; try lia.
    cbn [binary_normalize].
    assert (Hdq : Zpos (digits2_pos q) <= 53).
    { rewrite <- Hd. apply (Zdigits2_le (Zpos q) (Zpos m)); lia. }
    destruct (binary_round_integer false q Hdq) as (mz & ez & -> & _ & Hez & Hval).
    cbn [SFtrunc cond_Zopp]. intros [= <-].
    destruct (Z.leb_spec 0 ez) as [Hz|Hz].
    + replace ez with 0 in * by lia. cbn in Hval. lia.
    + rewrite Hval. rewrite Z.div_mul; [lia|]. apply Z.pow_nonzero; lia.
Qed.

(** X15.  The threshold of the prestige: whenever
    [calculatePrestigePotential] has a defined result, that result is
    positive if and only if [money >= 1000000]. *)
Theorem prestige_threshold (g : GameEngine) (p : Z) :
  calculatePrestigePotential g = Some p ->
  (0 < p <-> (1000000 <=? money g)%float = true).
Proof.
  unfold calculatePrestigePotential. rewrite ltb_spec, leb_spec.
  unfold long_long_of_double. rewrite Prim2SF_floor, sqrt_spec, div_spec.
  unfold SF64sqrt, SF64div.
  pose proof (Prim2SF_valid (money g)) as Hv.
  pose proof (Prim2SF_valid (money g / 1000000)) as Hvdiv. rewrite div_spec in Hvdiv.
  pose proof (Prim2SF_valid (sqrt (money g / 1000000))) as Hvsqrt.
  rewrite sqrt_spec, div_spec in Hvsqrt. unfold SF64sqrt, SF64div in Hvdiv, Hvsqrt.
  destruct (SFleb (Prim2SF 1000000) (Prim2SF (money g))) eqn:Hle.
  - assert (Hlt : SFltb (Prim2SF (money g)) (Prim2SF 1000000) = false).
    { unfold SFleb in Hle. unfold SFltb. rewrite SFcompare_antisym.
      destruct (SFcompare (Prim2SF 1000000) (Prim2SF (money g))) as [[]|];
        try discriminate; reflexivity. }
    rewrite Hlt.
    destruct (SFtrunc _) as [z|] eqn:Htrunc; [|discriminate].
    destruct ((LLONG_MIN <=? z) && (z <=? LLONG_MAX)); [|discriminate].
    intros [= <-]. split; [reflexivity|]. intros _.
    pose proof (SFtrunc_floor_at_least_one _ z Hvsqrt
                  (SFsqrt_at_least_one _ Hvdiv (SFdiv_million _ Hv Hle)) Htrunc).
    lia.
  - destruct (SFltb (Prim2SF (money g)) (Prim2SF 1000000)) eqn:Hlt.
    { intros [= <-]. split; [lia|discriminate]. }
    (* neither below nor at least one million: [money] is NaN *)
    assert (Hnan : Prim2SF (money g) = S754_nan).
    { unfold SFleb in Hle. unfold SFltb in Hlt. rewrite SFcompare_antisym in Hlt.
      destruct (Prim2SF (money g)) as [[]|[]| |[] m e]; try reflexivity;
        destruct (SFcompare _ _) as [[]|] eqn:Hc; try discriminate; discriminate Hc. }
    rewrite Hnan. discriminate.
Qed.

Lemma prestige_threshold_witness :
  calculatePrestigePotential (set_money (newGameEngine 0 0 0) 1000000) = Some 1 /\
  (0 < 1 <-> PrimFloat.leb 1000000 (money (set_money (newGameEngine 0 0 0) 1000000)) = true).
Proof.
  assert (H : calculatePrestigePotential (set_money (newGameEngine 0 0 0) 1000000) = Some 1)
    by reflexivity.
  split; [exact H|]. exact (prestige_threshold _ 1 H).
Defined.

(** ** Rounding does not cross a double: from below *)

Lemma fexp_mono (a b : Z) : a <= b -> fexp prec emax a <= fexp prec emax b.
Proof. unfold fexp, emin, prec, emax. lia. Qed.

Lemma fexp_ge_emin (a : Z) : -1074 <= fexp prec emax a.
Proof. unfold fexp, emin, prec, emax. lia. Qed.

(** What [shr_fexp] returns: the mantissa shifted down to the canonical
    exponent, when that exponent is higher. *)
Lemma shr_fexp_value (m e : Z) (l : location) :
  0 <= m ->
  let n := Z.max 0 (fexp prec emax (Zdigits2 m + e) - e) in
  shr_m (fst (shr_fexp prec emax m e l)) = m / 2 ^ n /\
  snd (shr_fexp prec emax m e l) = e + n.
Proof.
  intros Hpos. cbn zeta. unfold shr_fexp, shr.
  assert (Hm : shr_m (shr_record_of_loc m l) = m) by (destruct l as [|[]]; reflexivity).
  destruct (fexp prec emax (Zdigits2 m + e) - e) as [|kp|kp] eqn:Hk; cbn [fst snd].
  - rewrite Hm. cbn. rewrite Z.div_1_r. lia.
  - rewrite iter_pos_nat, shr_iter_m, Hm by (rewrite Hm; lia).
    rewrite positive_nat_Z. rewrite Z.max_r by lia. split; reflexivity.
  - rewrite Hm. rewrite Z.max_l by lia. cbn. rewrite Z.div_1_r. lia.
Qed.

Lemma Zdigits2_mul_pow2 (m k : Z) :
  0 < m -> 0 <= k -> Zdigits2 (m * 2 ^ k) = Zdigits2 m + k.
Proof.
  intros Hm Hk. pose proof (Zdigits2_bounds m Hm) as [Hlo Hhi].
  pose proof (Zdigits2_pos m Hm) as Hd.
  assert (Hp : 0 < 2 ^ k) by (apply Z.pow_pos_nonneg; lia).
  apply Zdigits2_unique; [|nia].
  replace (Zdigits2 m + k - 1) with (Zdigits2 m - 1 + k) by lia.
  rewrite !Z.pow_add_r by lia. nia.
Qed.

(** Rounding to nearest does not go below a double that the exact value is
    not below. *)
Lemma binary_round_aux_not_below (mx : positive) (ex M e0 : Z) (l : location) :
  fexp prec emax (Zpos (digits2_pos mx) + ex) = ex ->
  e0 <= ex -> Zpos mx * 2 ^ (ex - e0) <= M ->
  not_below mx ex (binary_round_aux prec emax false M e0 l).
Proof.
  intros Hcanon He0 Hle.
  assert (Hp : 0 < 2 ^ (ex - e0)) by (apply Z.pow_pos_nonneg; lia).
  assert (HM : 0 < M) by nia.
  assert (Hdig : Zpos (digits2_pos mx) + (ex - e0) <= Zdigits2 M).
  { change (Zpos (digits2_pos mx)) with (Zdigits2 (Zpos mx)).
    rewrite <- (Zdigits2_mul_pow2 (Zpos mx) (ex - e0)) by lia.
    apply Zdigits2_le; lia. }
  pose proof (fexp_mono (Zpos (digits2_pos mx) + ex) (Zdigits2 M + e0) ltac:(lia)) as Hec.
  rewrite Hcanon in Hec.
  unfold binary_round_aux.
  pose proof (shr_fexp_value M e0 l ltac:(lia)) as H1. cbn zeta in H1.
  destruct (shr_fexp prec emax M e0 l) as [mrs' e']. cbn [fst snd] in H1.
  destruct H1 as [Hm1 He1].
  set (ec := fexp prec emax (Zdigits2 M + e0)) in *.
  rewrite Z.max_r in Hm1, He1 by lia.
  replace (e0 + (ec - e0)) with ec in He1 by lia. subst e'.
  (* the truncated mantissa *)
  assert (Hm1pos : 0 < shr_m mrs' /\ (ec = ex -> Zpos mx <= shr_m mrs')).
  { rewrite Hm1. split.
    - destruct (Z.eq_dec ec ex) as [Heq|Hne].
      + rewrite Heq. apply Z.div_str_pos. split; [lia|nia].
      + assert (Hnorm : ec = Zdigits2 M + e0 - 53).
        { pose proof (fexp_ge_emin (Zpos (digits2_pos mx) + ex)).
          unfold ec, fexp, emin, prec, emax in *. lia. }
        apply Z.div_str_pos. split; [apply Z.pow_pos_nonneg; lia|].
        pose proof (Zdigits2_bounds M HM) as [Blo _].
        eapply Z.le_trans; [|exact Blo]. apply Z.pow_le_mono_r; lia.
    - intros ->. apply Z.div_le_lower_bound; lia. }
  destruct Hm1pos as [Hm1pos Hm1ge].
  set (m2 := round_nearest_even (shr_m mrs') (loc_of_shr_record mrs')).
  assert (Hge : shr_m mrs' <= m2) by apply round_nearest_even_ge.
  assert (Hm2 : 0 < m2) by lia.
  pose proof (shr_fexp_value m2 ec loc_Exact ltac:(lia)) as H2. cbn zeta in H2.
  destruct (shr_fexp prec emax m2 ec loc_Exact) as [mrs'' e'']. cbn [fst snd] in H2.
  destruct H2 as [Hm3 He3].
  set (n2 := Z.max 0 (fexp prec emax (Zdigits2 m2 + ec) - ec)) in *.
  assert (Hm3pos : 0 < shr_m mrs'').
  { rewrite Hm3. destruct (Z.eq_dec n2 0) as [->|Hn2].
    - cbn. rewrite Z.div_1_r. exact Hm2.
    - assert (Hnorm : n2 = Zdigits2 m2 - 53).
      { pose proof (fexp_ge_emin (Zdigits2 M + e0)).
        unfold n2, ec, fexp, emin, prec, emax in *. lia. }
      apply Z.div_str_pos. split; [apply Z.pow_pos_nonneg; lia|].
      pose proof (Zdigits2_bounds m2 Hm2) as [Blo _].
      eapply Z.le_trans; [|exact Blo]. apply Z.pow_le_mono_r; lia. }
  destruct (shr_m mrs'') as [|m3|m3] eqn:Hshr; try lia.
  destruct (Z.leb_spec e'' (emax - prec)); [|exact I].
  cbn [not_below]. destruct (Z.eq_dec n2 0) as [Hn2|Hn2].
  - rewrite Hn2 in Hm3, He3. cbn in Hm3. rewrite Z.div_1_r in Hm3.
    destruct (Z.eq_dec ec ex) as [Heq|Hne]; [right|left; lia].
    split; [lia|]. specialize (Hm1ge Heq). lia.
  - left. unfold n2 in *. lia.
Qed.

Lemma not_below_ltb (mx : positive) (ex : Z) (r : spec_float) :
  not_below mx ex r -> SFltb r (S754_finite false mx ex) = false.
Proof.
  destruct r as [s|[]| |[] m e]; try contradiction; try reflexivity.
  cbn [not_below]. unfold SFltb, SFcompare. intros Hr.
  destruct (Z.compare_spec e ex) as [Heq|Hlt|Hgt]; [|lia|reflexivity].
  change (Pcompare m mx Eq) with (m ?= mx)%positive.
  destruct (Pos.compare_spec m mx) as [Hm|Hm|Hm]; try reflexivity. lia.
Qed.

Lemma SFltb_irrefl (x : spec_float) : SFltb x x = false.
Proof.
  destruct x as [[]|[]| |[] m e]; try reflexivity; unfold SFltb, SFcompare;
    rewrite Z.compare_refl;
    change (Pcompare m m Eq) with (m ?= m)%positive; rewrite Pos.compare_refl;
    reflexivity.
Qed.

Lemma SFadd_finite_not_below (mx my : positive) (ex ey : Z) :
  valid_binary (S754_finite false mx ex) = true ->
  not_below mx ex
    (SFadd prec emax (S754_finite false mx ex) (S754_finite false my ey)).
Proof.
  intros Hv. apply valid_finite_inv in Hv as [Hcanon _].
  unfold SFadd. cbn [cond_Zopp].
  set (ez := Z.min ex ey).
  assert (Hx : Zpos (fst (shl_align mx ex ez)) = Zpos mx * 2 ^ (ex - ez))
    by (apply shl_align_fst; lia).
  destruct (shl_align mx ex ez) as [ax ?]. destruct (shl_align my ey ez) as [ay ?].
  cbn [fst] in *. change (Zpos ax + Zpos ay) with (Zpos (ax + ay)).
  cbn [binary_normalize]. unfold binary_round.
  set (ef := fexp prec emax (Zpos (digits2_pos (ax + ay)) + ez)).
  assert (Hal : forall mz ez', shl_align (ax + ay) ez ef = (mz, ez') ->
                  ez' <= ez /\ Zpos mz = Zpos (ax + ay) * 2 ^ (ez - ez')).
  { intros mz ez'. unfold shl_align.
    destruct (ef - ez) as [|d|d] eqn:Hd; intros [= <- <-].
    - rewrite Z.sub_diag, Z.mul_1_r. lia.
    - rewrite Z.sub_diag, Z.mul_1_r. lia.
    - split; [lia|]. rewrite iter_xO_mul. f_equal. f_equal. lia. }
  destruct (shl_align (ax + ay) ez ef) as [mz ez'].
  destruct (Hal mz ez' eq_refl) as [Hez Hmz].
  apply binary_round_aux_not_below.
  - unfold fexp, emin, prec, emax. exact Hcanon.
  - lia.
  - rewrite Hmz, Pos2Z.inj_add, Hx.
    replace (ex - ez') with ((ex - ez) + (ez - ez')) by lia.
    rewrite Z.pow_add_r by lia.
    assert (0 < 2 ^ (ex - ez)) by (apply Z.pow_pos_nonneg; lia).
    assert (0 < 2 ^ (ez - ez')) by (apply Z.pow_pos_nonneg; lia).
    nia.
Qed.

Lemma SFadd_not_below (x y : spec_float) :
  valid_binary x = true -> SFnonneg x -> SFnonneg y ->
  SFltb (SFadd prec emax x y) x = false.
Proof.
  intros Hv Hx Hy. apply SFnonneg_inv in Hx. apply SFnonneg_inv in Hy.
  destruct x as [sx|[]| |[] mx ex]; try contradiction;
    destruct y as [sy|[]| |[] my ey]; try contradiction; try reflexivity;
    try (destruct sx; reflexivity); try (destruct sx, sy; reflexivity).
  - apply SFltb_irrefl.
  - apply not_below_ltb, SFadd_finite_not_below, Hv.
Qed.

(** Adding an amount that is not negative gives a result that is not below
    the first operand. *)
Lemma add_not_below (x y : double) :
  ~ negative x -> ~ negative y -> (x + y <? x)%float = false.
Proof.
  intros Hx Hy. rewrite ltb_spec, add_spec.
  apply SFadd_not_below; [apply Prim2SF_valid| |]; apply not_negative_SFnonneg; assumption.
Qed.

Lemma ltb_irrefl (x : double) : (x <? x)%float = false.
Proof. rewrite ltb_spec. apply SFltb_irrefl. Qed.

Lemma positive_not_negative (x : double) : (0 <? x)%float = true -> ~ negative x.
Proof.
  unfold negative. rewrite !ltb_spec. unfold SFltb. rewrite (SFcompare_antisym (Prim2SF 0)).
  destruct (SFcompare (Prim2SF 0) (Prim2SF x)) as [[]|]; cbn; congruence.
Qed.

(** X16.  Earning never loses: when [money] and [totalEarnings] are not negative,
    neither is lower after an [update] over a [deltaTime] that is not
    negative, nor after a [click] on a stored rate that is not negative. *)
Theorem earning_never_loses (g : GameEngine) :
  ~ negative (money g) -> ~ negative (totalEarnings g) ->
  (forall deltaTime, (0 <=? deltaTime)%float = true ->
     (money (update g deltaTime) <? money g)%float = false /\
     (totalEarnings (update g deltaTime) <? totalEarnings g)%float = false) /\
  (~ negative (globalIncomePerSec g) ->
     (money (click g) <? money g)%float = false /\
     (totalEarnings (click g) <? totalEarnings g)%float = false).
Proof.
  intros Hmoney Hearn. split.
  - intros deltaTime Hdt. unfold update.
    destruct (0 <? globalIncomePerSec (calculateIncomePerSec g))%float eqn:Hrate.
    + rewrite calculateIncomePerSec_unfold in *.
      cbn [addMoney money totalEarnings set_money set_totalEarnings
           set_globalIncomePerSec globalIncomePerSec] in *.
      assert (Hamount : forall r, (0 <? r)%float = true -> ~ negative (r * deltaTime)%float).
      { intros r Hr. apply mul_not_negative;
          [apply positive_not_negative, Hr|apply nonneg_not_negative, Hdt]. }
      split; apply add_not_below; try assumption; apply Hamount, Hrate.
    + rewrite calculateIncomePerSec_unfold. cbn. split; apply ltb_irrefl.
  - intros Hrate. unfold click.
    cbn [addMoney money totalEarnings set_money set_totalEarnings set_totalClicks
         globalIncomePerSec].
    assert (Hvalue : ~ negative (1 + globalIncomePerSec g * 0.05)%float).
    { apply add_not_negative; [unfold negative; discriminate|].
      apply mul_not_negative; [exact Hrate|unfold negative; discriminate]. }
    split; apply add_not_below; assumption.
Qed.

Lemma earning_never_loses_witness :
  money (update (set_buildingCounts (set_money (newGameEngine 0 0 0) 10)
                   [3; 0; 0; 0; 0; 0; 0]) 2) = 16%float /\
  PrimFloat.ltb
    (money (update (set_buildingCounts (set_money (newGameEngine 0 0 0) 10)
                      [3; 0; 0; 0; 0; 0; 0]) 2)) 10 = false.
Proof.
  split; [reflexivity|].
  refine (proj1 (proj1 (earning_never_loses
                   (set_buildingCounts (set_money (newGameEngine 0 0 0) 10)
                      [3; 0; 0; 0; 0; 0; 0]) _ _) 2%float _));
    [unfold negative; cbn; discriminate|unfold negative; cbn; discriminate|reflexivity].
Defined.

(** ** Rounding does not cross a double: from above *)

Lemma round_nearest_even_le (m : Z) (l : location) : round_nearest_even m l <= m + 1.
Proof. destruct l as [|[]]; cbn; try lia. destruct (Z.even m); lia. Qed.

(** The first shift of an exact value, and what rounding makes of it. *)
Lemma shr_fexp_round (m e : Z) :
  0 < m ->
  let n := Z.max 0 (fexp prec emax (Zdigits2 m + e) - e) in
  let mrs := fst (shr_fexp prec emax m e loc_Exact) in
  let m2 := round_nearest_even (shr_m mrs) (loc_of_shr_record mrs) in
  m / 2 ^ n <= m2 <= m / 2 ^ n + 1 /\ (m mod 2 ^ n = 0 -> m2 = m / 2 ^ n).
Proof.
  intros Hpos. cbn zeta.
  pose proof (shr_fexp_value m e loc_Exact ltac:(lia)) as [Hm _]. cbn zeta in Hm.
  split.
  - rewrite <- Hm. split; [apply round_nearest_even_ge|apply round_nearest_even_le].
  - intros Hmod. rewrite <- Hm. revert Hmod. unfold shr_fexp, shr. cbn [shr_record_of_loc].
    destruct (fexp prec emax (Zdigits2 m + e) - e) as [|kp|kp]; cbn [fst];
      try reflexivity.
    rewrite iter_pos_nat, Z.max_r by lia. rewrite <- (positive_nat_Z kp).
    intros Hmod.
    pose proof (shr_iter_spec m (Pos.to_nat kp) ltac:(lia)) as [_ Hsticky].
    cbn zeta in Hsticky. rewrite Hmod in Hsticky. cbn in Hsticky.
    destruct (Nat.iter (Pos.to_nat kp) shr_1 _) as [mj [] []]; try discriminate Hsticky.
    reflexivity.
Qed.

(** Rounding to nearest does not go above a double that the exact value is
    not above. *)
Lemma binary_round_aux_not_above (mx : positive) (ex M e0 : Z) :
  fexp prec emax (Zpos (digits2_pos mx) + ex) = ex -> ex <= 971 ->
  0 < M -> e0 <= fexp prec emax (Zdigits2 M + e0) ->
  M <= Zpos mx * 2 ^ (ex - e0) -> e0 <= ex ->
  not_above mx ex (binary_round_aux prec emax false M e0 loc_Exact).
Proof.
  intros Hcanon Hmax HM Halign Hle He0.
  assert (Hp : 0 < 2 ^ (ex - e0)) by (apply Z.pow_pos_nonneg; lia).
  assert (Hdig : Zdigits2 M <= Zpos (digits2_pos mx) + (ex - e0)).
  { change (Zpos (digits2_pos mx)) with (Zdigits2 (Zpos mx)).
    rewrite <- (Zdigits2_mul_pow2 (Zpos mx) (ex - e0)) by lia.
    apply Zdigits2_le; lia. }
  pose proof (fexp_mono (Zdigits2 M + e0) (Zpos (digits2_pos mx) + ex) ltac:(lia)) as Hec.
  rewrite Hcanon in Hec.
  unfold binary_round_aux.
  pose proof (shr_fexp_value M e0 loc_Exact ltac:(lia)) as H1.
  pose proof (shr_fexp_round M e0 HM) as H1r. cbn zeta in H1, H1r.
  destruct (shr_fexp prec emax M e0 loc_Exact) as [mrs' e']. cbn [fst snd] in H1, H1r.
  destruct H1 as [Hm1 He1]. destruct H1r as [Hm2 Hexact].
  set (ec := fexp prec emax (Zdigits2 M + e0)) in *.
  rewrite Z.max_r in Hm1, He1, Hm2, Hexact by lia.
  replace (e0 + (ec - e0)) with ec in He1 by lia. subst e'.
  set (m2 := round_nearest_even (shr_m mrs') (loc_of_shr_record mrs')) in *.
  set (n := ec - e0) in *.
  assert (Hpn : 0 < 2 ^ n) by (apply Z.pow_pos_nonneg; lia).
  assert (Hpx : 0 < 2 ^ (ex - ec)) by (apply Z.pow_pos_nonneg; lia).
  assert (Hsplit : Zpos mx * 2 ^ (ex - e0) = Zpos mx * 2 ^ (ex - ec) * 2 ^ n).
  { replace (ex - e0) with (ex - ec + n) by lia. rewrite Z.pow_add_r by lia. lia. }
  (* the rounded mantissa stays under the bound, scaled to the same exponent *)
  assert (Hm2le : m2 <= Zpos mx * 2 ^ (ex - ec)).
  { set (X := Zpos mx * 2 ^ (ex - ec)) in *.
    assert (Hdiv : M / 2 ^ n <= X).
    { apply Z.div_le_upper_bound; lia. }
    destruct (Z.eq_dec (M mod 2 ^ n) 0) as [Hmod|Hmod]; [rewrite (Hexact Hmod); exact Hdiv|].
    assert (M / 2 ^ n < X); [|lia].
    pose proof (Z.div_mod M (2 ^ n) ltac:(lia)) as Hdm.
    pose proof (Z.mod_pos_bound M (2 ^ n) Hpn) as Hmb.
    destruct (Z.eq_dec (M / 2 ^ n) X) as [Heq|]; [|lia].
    rewrite Heq in Hdm. nia. }
  assert (Hm2nn : 0 <= m2).
  { assert (0 <= M / 2 ^ n) by (apply Z.div_pos; lia). lia. }
  pose proof (shr_fexp_value m2 ec loc_Exact ltac:(lia)) as H2. cbn zeta in H2.
  destruct (shr_fexp prec emax m2 ec loc_Exact) as [mrs'' e'']. cbn [fst snd] in H2.
  destruct H2 as [Hm3 He3].
  destruct (Z.eq_dec m2 0) as [Hzero|Hm2nz].
  { (* everything was shifted out and rounded down *)
    rewrite Hzero, Z.div_0_l in Hm3 by (apply Z.pow_nonzero; lia).
    rewrite Hm3. exact I. }
  assert (Hm2pos : 0 < m2) by lia.
  assert (Hd2 : Zdigits2 m2 + ec <= Zpos (digits2_pos mx) + ex).
  { change (Zpos (digits2_pos mx)) with (Zdigits2 (Zpos mx)).
    replace (Zdigits2 (Zpos mx) + ex) with (Zdigits2 (Zpos mx) + (ex - ec) + ec) by lia.
    rewrite <- (Zdigits2_mul_pow2 (Zpos mx) (ex - ec)) by lia.
    pose proof (Zdigits2_le m2 _ Hm2pos Hm2le). lia. }
  pose proof (fexp_mono _ _ Hd2) as Hec2. rewrite Hcanon in Hec2.
  set (n2 := Z.max 0 (fexp prec emax (Zdigits2 m2 + ec) - ec)) in *.
  assert (Hn2 : 0 <= n2 <= ex - ec) by (unfold n2; lia).
  assert (Hpn2 : 0 < 2 ^ n2) by (apply Z.pow_pos_nonneg; lia).
  assert (Hm3pos : 0 < shr_m mrs'').
  { rewrite Hm3. destruct (Z.eq_dec n2 0) as [Hz|Hnz].
    - rewrite Hz. cbn. rewrite Z.div_1_r. exact Hm2pos.
    - assert (Hnorm : n2 = Zdigits2 m2 - 53).
      { pose proof (fexp_ge_emin (Zdigits2 M + e0)).
        unfold n2, ec, fexp, emin, prec, emax in *. lia. }
      apply Z.div_str_pos. split; [lia|].
      pose proof (Zdigits2_bounds m2 Hm2pos) as [Blo _].
      eapply Z.le_trans; [|exact Blo]. apply Z.pow_le_mono_r; lia. }
  destruct (shr_m mrs'') as [|m3|m3] eqn:Hshr; try lia.
  destruct (Z.leb_spec e'' (emax - prec)) as [|Hover];
    [|unfold emax, prec in Hover; lia].
  cbn [not_above]. destruct (Z.eq_dec e'' ex) as [Heq|Hne]; [right|left; lia].
  split; [exact Heq|]. rewrite Hm3.
  assert (Hn2eq : n2 = ex - ec) by lia.
  apply Z.div_le_upper_bound; [lia|]. rewrite Hn2eq. lia.
Qed.

(** ** Subtraction, validity of rounded results, and the sign of prices *)

Lemma shl_align_spec (p : positive) (ez ef : Z) :
  let '(mz, ez') := shl_align p ez ef in
  ez' = Z.min ez ef /\ Zpos mz = Zpos p * 2 ^ (ez - ez') /\
  Zpos (digits2_pos mz) + ez' = Zpos (digits2_pos p) + ez.
Proof.
  unfold shl_align. destruct (ef - ez) as [|d|d] eqn:Hd.
  - rewrite Z.sub_diag, Z.mul_1_r. lia.
  - rewrite Z.sub_diag, Z.mul_1_r. lia.
  - split; [lia|]. rewrite digits2_pos_iter_xO, iter_xO_mul.
    split; [f_equal; f_equal|]; lia.
Qed.

Lemma not_above_ltb (mx : positive) (ex : Z) (r : spec_float) :
  not_above mx ex r -> SFltb (S754_finite false mx ex) r = false.
Proof.
  destruct r as [[]|[]| |[] m e]; try contradiction; try reflexivity.
  cbn [not_above]. unfold SFltb, SFcompare. intros Hr.
  destruct (Z.compare_spec ex e) as [Heq|Hlt|Hgt]; [|lia|reflexivity].
  change (Pcompare mx m Eq) with (mx ?= m)%positive.
  destruct (Pos.compare_spec mx m) as [Hm|Hm|Hm]; try reflexivity. lia.
Qed.

Lemma SFsub_finite_not_above (mx my : positive) (ex ey : Z) :
  valid_binary (S754_finite false mx ex) = true ->
  valid_binary (S754_finite false my ey) = true ->
  not_above mx ex
    (SFsub prec emax (S754_finite false mx ex) (S754_finite false my ey)).
Proof.
  intros Hvx Hvy. apply valid_finite_inv in Hvx as [Hcanon Hmax].
  apply valid_finite_inv in Hvy as [Hcanony _].
  unfold SFsub. cbn [cond_Zopp].
  set (ez := Z.min ex ey).
  assert (Hx : Zpos (fst (shl_align mx ex ez)) = Zpos mx * 2 ^ (ex - ez))
    by (apply shl_align_fst; lia).
  destruct (shl_align mx ex ez) as [ax ?]. destruct (shl_align my ey ez) as [ay ?].
  cbn [fst] in *.
  destruct (Zpos ax - Zpos ay) as [|p|p] eqn:Hdiff; cbn [binary_normalize].
  - exact I.
  - unfold binary_round.
    pose proof (shl_align_spec p ez (fexp prec emax (Zpos (digits2_pos p) + ez))) as Hal.
    destruct (shl_align p ez _) as [mz ez']. destruct Hal as (Hez & Hmz & Hdz).
    assert (Hp1 : 0 < 2 ^ (ex - ez)) by (apply Z.pow_pos_nonneg; lia).
    assert (Hp2 : 0 < 2 ^ (ez - ez')) by (apply Z.pow_pos_nonneg; lia).
    apply binary_round_aux_not_above.
    + unfold fexp, emin, prec, emax. exact Hcanon.
    + exact Hmax.
    + lia.
    + cbn [Zdigits2]. rewrite Hdz. lia.
    + rewrite Hmz. replace (ex - ez') with ((ex - ez) + (ez - ez')) by lia.
      rewrite Z.pow_add_r by lia. nia.
    + lia.
  - unfold binary_round. destruct (shl_align p ez _) as [mz ez'].
    destruct (binary_round_aux_cases true (Zpos mz) ez' loc_Exact)
      as [H|[(m' & e' & H)|[H|H]]]; cbn zeta in H; rewrite H; exact I.
Qed.

Lemma SFsub_not_above (x y : spec_float) :
  valid_binary x = true -> valid_binary y = true ->
  SFnonneg x -> SFnonneg y -> SFltb x (SFsub prec emax x y) = false.
Proof.
  intros Hvx Hvy Hx Hy. apply SFnonneg_inv in Hx. apply SFnonneg_inv in Hy.
  destruct x as [sx|[]| |[] mx ex]; try contradiction;
    destruct y as [sy|[]| |[] my ey]; try contradiction; try reflexivity;
    try (destruct sx; reflexivity); try (destruct sx, sy; reflexivity).
  - apply SFltb_irrefl.
  - apply not_above_ltb, SFsub_finite_not_above; assumption.
Qed.

Lemma sub_not_above (x y : double) :
  ~ negative x -> ~ negative y -> (x <? x - y)%float = false.
Proof.
  intros Hx Hy. rewrite ltb_spec, sub_spec.
  apply SFsub_not_above; try apply Prim2SF_valid; apply not_negative_SFnonneg; assumption.
Qed.

Lemma leb_not_negative (x y : double) :
  ~ negative y -> (y <=? x)%float = true -> ~ negative x.
Proof.
  rewrite !not_negative_SFnonneg, leb_spec. intros Hy Hle.
  apply SFnonneg_inv in Hy.
  destruct (Prim2SF y) as [sy|[]| |[] my ey]; try contradiction;
    destruct (Prim2SF x) as [sx|[]| |[] mx ex]; try discriminate Hle; try reflexivity;
    destruct sy; discriminate Hle.
Qed.

(** ** Rounding gives doubles *)

Lemma binary_round_aux_valid (s : bool) (M e0 : Z) (l : location) :
  0 <= M -> e0 <= fexp prec emax (Zdigits2 M + e0) ->
  valid_binary (binary_round_aux prec emax s M e0 l) = true.
Proof.
  intros HM Halign. unfold binary_round_aux.
  pose proof (shr_fexp_value M e0 l HM) as H1. cbn zeta in H1.
  destruct (shr_fexp prec emax M e0 l) as [mrs' e']. cbn [fst snd] in H1.
  destruct H1 as [Hm1 He1].
  set (ec := fexp prec emax (Zdigits2 M + e0)) in *.
  rewrite Z.max_r in Hm1, He1 by lia.
  replace (e0 + (ec - e0)) with ec in He1 by lia. subst e'.
  set (n := ec - e0) in *.
  assert (Hpn : 0 < 2 ^ n) by (apply Z.pow_pos_nonneg; lia).
  set (m2 := round_nearest_even (shr_m mrs') (loc_of_shr_record mrs')).
  assert (Hge : shr_m mrs' <= m2) by apply round_nearest_even_ge.
  assert (Hm1nn : 0 <= shr_m mrs') by (rewrite Hm1; apply Z.div_pos; lia).
  (* the rounded mantissa is on the canonical exponent or above it *)
  assert (Hcanon2 : 0 < m2 -> ec <= fexp prec emax (Zdigits2 m2 + ec)).
  { intros Hm2.
    destruct (Z.eq_dec (shr_m mrs') 0) as [Hzero|Hnz].
    - (* everything was shifted out: the exponent is the lowest one *)
      assert (Hec : ec = -1074); [|rewrite Hec; apply fexp_ge_emin].
      destruct (Z.eq_dec M 0) as [HM0|HM0].
      + unfold ec in *. rewrite HM0 in *. cbn [Zdigits2] in *. clear - Halign.
        unfold fexp, emin, prec, emax in *. lia.
      + assert (Hd : Zdigits2 M <= n).
        { destruct (Z.le_gt_cases (Zdigits2 M) n) as [|Hlt]; [assumption|exfalso].
          pose proof (Zdigits2_bounds M ltac:(lia)) as [Blo _].
          assert (0 < M / 2 ^ n); [|lia].
          apply Z.div_str_pos. split; [lia|].
          eapply Z.le_trans; [|exact Blo]. apply Z.pow_le_mono_r; lia. }
        unfold n, ec, fexp, emin, prec, emax in *. lia.
    - assert (HMpos : 0 < M).
      { destruct (Z.eq_dec M 0) as [HM0|]; [|lia]. exfalso. apply Hnz.
        rewrite Hm1, HM0. apply Z.div_0_l. lia. }
      assert (Hn : n < Zdigits2 M).
      { destruct (Z.le_gt_cases (Zdigits2 M) n) as [Hle|]; [exfalso|assumption].
        pose proof (Zdigits2_bounds M ltac:(lia)) as [_ Bhi].
        apply Hnz. rewrite Hm1. apply Z.div_small. split; [lia|].
        eapply Z.lt_le_trans; [exact Bhi|]. apply Z.pow_le_mono_r; lia. }
      assert (Hd1 : Zdigits2 (shr_m mrs') = Zdigits2 M - n).
      { rewrite Hm1. apply Zdigits2_div_pow2; lia. }
      pose proof (Zdigits2_le (shr_m mrs') m2 ltac:(lia) Hge) as Hd2.
      unfold ec at 1. apply fexp_mono. lia. }
  pose proof (shr_fexp_value m2 ec loc_Exact ltac:(lia)) as H2. cbn zeta in H2.
  destruct (shr_fexp prec emax m2 ec loc_Exact) as [mrs'' e'']. cbn [fst snd] in H2.
  destruct H2 as [Hm3 He3].
  destruct (shr_m mrs'') as [|m3|m3] eqn:Hshr; try reflexivity.
  destruct (Z.leb_spec e'' (emax - prec)) as [Hfit|]; [|reflexivity].
  assert (Hm2 : 0 < m2).
  { destruct (Z.eq_dec m2 0) as [Hz|]; [|lia]. rewrite Hz in Hm3.
    rewrite Z.div_0_l in Hm3 by (apply Z.pow_nonzero; lia). discriminate. }
  specialize (Hcanon2 Hm2).
  rewrite Z.max_r in Hm3, He3 by lia.
  set (f2 := fexp prec emax (Zdigits2 m2 + ec)) in *.
  replace (ec + (f2 - ec)) with f2 in He3 by lia.
  assert (Hn2 : f2 - ec < Zdigits2 m2).
  { pose proof (Zdigits2_pos m2 Hm2). pose proof (fexp_ge_emin (Zdigits2 M + e0)).
    unfold f2, ec, fexp, emin, prec, emax in *. lia. }
  assert (Hd3 : Zpos (digits2_pos m3) = Zdigits2 m2 - (f2 - ec)).
  { change (Zpos (digits2_pos m3)) with (Zdigits2 (Zpos m3)). rewrite Hm3.
    apply Zdigits2_div_pow2; lia. }
  cbn [valid_binary]. unfold bounded, canonical_mantissa.
  apply andb_true_iff. split; [apply Z.eqb_eq|apply Z.leb_le; exact Hfit].
  rewrite Hd3, He3. unfold f2. f_equal. lia.
Qed.

Lemma binary_round_valid (s : bool) (p : positive) (e : Z) :
  valid_binary (binary_round prec emax s p e) = true.
Proof.
  unfold binary_round.
  pose proof (shl_align_spec p e (fexp prec emax (Zpos (digits2_pos p) + e))) as Hal.
  destruct (shl_align p e _) as [mz ez']. destruct Hal as (Hez & _ & Hdz).
  apply binary_round_aux_valid; [lia|]. cbn [Zdigits2]. rewrite Hdz. lia.
Qed.

Lemma binary_normalize_valid (z e : Z) (szero : bool) :
  valid_binary (binary_normalize prec emax z e szero) = true.
Proof. destruct z; cbn [binary_normalize]; [reflexivity|apply binary_round_valid..]. Qed.

(** The quotient [SFdiv_core_binary] hands to the rounding is on the
    canonical exponent or below it. *)
Lemma SFdiv_core_binary_aligned (m1 m2 : positive) (e1 e2 : Z) :
  let '(q, e', l) := SFdiv_core_binary prec emax (Zpos m1) e1 (Zpos m2) e2 in
  0 <= q /\ e' <= fexp prec emax (Zdigits2 q + e').
Proof.
  unfold SFdiv_core_binary. cbn [Zdigits2].
  set (d1 := Zpos (digits2_pos m1)). set (d2 := Zpos (digits2_pos m2)).
  set (e' := Z.min (fexp prec emax (d1 + e1 - (d2 + e2))) (e1 - e2)).
  set (s := e1 - e2 - e').
  assert (Hs : 0 <= s) by (unfold s, e'; lia).
  assert (Hm' : match s with
                | 0 => Zpos m1
                | Zpos _ => Z.shiftl (Zpos m1) s
                | Zneg _ => 0
                end = Zpos m1 * 2 ^ s).
  { destruct s as [|sp|sp] eqn:Hsp; [cbn; lia| |lia].
    apply Z.shiftl_mul_pow2. lia. }
  rewrite Hm'.
  pose proof (Z_div_mod (Zpos m1 * 2 ^ s) (Zpos m2) ltac:(lia)) as Hdiv.
  destruct (Z.div_eucl (Zpos m1 * 2 ^ s) (Zpos m2)) as [q r].
  destruct Hdiv as [Heq Hr].
  assert (Hps : 0 < 2 ^ s) by (apply Z.pow_pos_nonneg; lia).
  assert (Hq : 0 <= q) by nia.
  split; [exact Hq|].
  assert (Hdq : d1 + s - d2 <= Zdigits2 q).
  { destruct (Z.eq_dec q 0) as [Hq0|Hq0].
    - (* the dividend is below the divisor *)
      rewrite Hq0 in *. cbn [Zdigits2].
      pose proof (digits2_pos_bounds m1) as [Blo1 _].
      pose proof (digits2_pos_bounds m2) as [_ Bhi2]. fold d1 in Blo1. fold d2 in Bhi2.
      destruct (Z.le_gt_cases (d1 + s - d2) 0) as [|Hgt]; [assumption|exfalso].
      assert (2 ^ d2 <= 2 ^ (d1 - 1 + s)) by (apply Z.pow_le_mono_r; lia).
      rewrite Z.pow_add_r in * by (unfold d1; lia). nia.
    - apply Zdigits2_lower; [lia|].
      pose proof (digits2_pos_bounds m1) as [Blo1 _].
      pose proof (digits2_pos_bounds m2) as [_ Bhi2]. fold d1 in Blo1. fold d2 in Bhi2.
      destruct (Z.le_gt_cases (2 ^ (d1 + s - d2 - 1)) q) as [|Hlt]; [assumption|exfalso].
      destruct (Z.le_gt_cases (d1 + s - d2 - 1) 0) as [Hsmall|Hbig].
      + assert (2 ^ (d1 + s - d2 - 1) <= 2 ^ 0) by (apply Z.pow_le_mono_r; lia).
        change (2 ^ 0) with 1 in *. lia.
      + (* q + 1 <= 2^k, so m1 * 2^s < m2 * 2^k < 2^(d2 + k) <= 2^(d1 - 1 + s) *)
        set (k := d1 + s - d2 - 1) in *.
        assert (Hk : 2 ^ (d1 - 1 + s) = 2 ^ d2 * 2 ^ k).
        { rewrite <- Z.pow_add_r by (unfold d2; lia). f_equal. unfold k. lia. }
        rewrite Z.pow_add_r in Hk by (unfold d1; lia).
        assert (0 < 2 ^ k) by (apply Z.pow_pos_nonneg; lia).
        nia. }
  apply Z.le_trans with (fexp prec emax (d1 + e1 - (d2 + e2))); [unfold e'; lia|].
  apply fexp_mono. unfold s in Hdq. lia.
Qed.

Lemma SFpow_valid (s : bool) (m : positive) (e n : Z) :
  valid_binary (SFpow (S754_finite s m e) n) = true.
Proof.
  unfold SFpow. destruct (Z.eqb_spec n 0) as [|Hn0]; [reflexivity|].
  destruct (Z.ltb_spec 0 n) as [|Hneg]; [apply binary_normalize_valid|].
  assert (Hpow : 0 < Zpos m ^ (- n)) by (apply Z.pow_pos_nonneg; lia).
  destruct (Zpos m ^ (- n)) as [|p|p]; try lia.
  pose proof (SFdiv_core_binary_aligned 1 p 0 (e * - n)) as H.
  destruct (SFdiv_core_binary prec emax 1 0 (Zpos p) (e * - n)) as [[q e'] l].
  apply binary_round_aux_valid; tauto.
Qed.

Lemma SFpow_nonneg (m : positive) (e n : Z) : SFnonneg (SFpow (S754_finite false m e) n).
Proof.
  unfold SFpow. destruct (n =? 0); [reflexivity|].
  destruct (Z.ltb_spec 0 n).
  - apply binary_normalize_nonneg. cbn [cond_Zopp]. apply Z.pow_nonneg. lia.
  - destruct (SFdiv_core_binary _ _ _ _ _ _) as [[q e'] l]. cbn [andb].
    apply binary_round_aux_nonneg.
Qed.

Lemma pow_not_negative (n : Z) : ~ negative (pow PRICE_GROWTH_RATE n).
Proof.
  apply not_negative_SFnonneg. unfold pow.
  change (Prim2SF PRICE_GROWTH_RATE) with (S754_finite false 5179139571476070 (-52)).
  rewrite Prim2SF_SF2Prim by apply SFpow_valid. apply SFpow_nonneg.
Qed.

Lemma SFunsigned_nonneg (x : spec_float) : SFunsigned x -> SFnonneg x.
Proof. destruct x as [[]|[]| |[] m e]; try contradiction; reflexivity. Qed.

Lemma floor_not_negative (x : double) : ~ negative x -> ~ negative (floor x).
Proof.
  rewrite !not_negative_SFnonneg, Prim2SF_floor. intros Hx.
  apply SFunsigned_nonneg.
  destruct (SFfloor_spec _ (Prim2SF_valid x)) as (_ & _ & Hsign).
  apply Hsign. exact (SFnonneg_inv _ Hx).
Qed.

Lemma getBuildingCost_not_negative (g : GameEngine) (buildingId : Z) (cost : double) :
  getBuildingCost g buildingId = Some cost -> ~ negative cost.
Proof.
  unfold getBuildingCost.
  destruct (buildingId <? 0); [discriminate|].
  destruct (getBuildings !! Z.to_nat buildingId) as [b|] eqn:Hb; [|discriminate].
  destruct (buildingCounts g !! Z.to_nat buildingId) as [count|]; [|discriminate].
  intros [= <-]. apply floor_not_negative.
  apply mul_not_negative; [apply mul_not_negative|].
  - apply list_elem_of_lookup_2, list_elem_of_In in Hb.
    unfold getBuildings in Hb. cbn in Hb.
    repeat (destruct Hb as [<-|Hb]; [unfold negative; cbn; discriminate|]).
    contradiction.
  - apply pow_not_negative.
  - destruct (hasSkill g "cheaper"); unfold negative; discriminate.
Qed.

(** X17.  No price is negative, whatever the counter holds (a counter that
    wrapped round to a negative number included), and a purchase never leaves
    more money than there was: [buyBuilding] takes or leaves, it never
    gives. *)
Theorem spending_never_gains (g : GameEngine) (buildingId : Z) :
  (forall cost, getBuildingCost g buildingId = Some cost -> ~ negative cost) /\
  (forall ok g', buyBuilding g buildingId = Some (ok, g') ->
     (money g <? money g')%float = false).
Proof.
  split; [intros cost; apply getBuildingCost_not_negative|].
  intros ok g'. unfold buyBuilding.
  destruct ((buildingId <? 0) || (Z.of_nat (length getBuildings) <=? buildingId)).
  { intros [= _ <-]. apply ltb_irrefl. }
  destruct (getBuildingCost g buildingId) as [cost|] eqn:Hcost; [|discriminate].
  pose proof (getBuildingCost_not_negative _ _ _ Hcost) as Hsign.
  destruct (cost <=? money g)%float eqn:Hle.
  - cbn [buildingCounts set_money].
    destruct (buildingCounts g !! Z.to_nat buildingId); [|discriminate].
    intros [= _ <-]. cbn [money set_buildingCounts set_money].
    apply sub_not_above; [|exact Hsign].
    exact (leb_not_negative _ _ Hsign Hle).
  - intros [= _ <-]. apply ltb_irrefl.
Qed.

Lemma spending_never_gains_witness :
  exists g',
    buyBuilding (set_money (newGameEngine 0 0 0) 100) 0 = Some (true, g') /\
    money g' = 85%float /\
    PrimFloat.ltb (money (set_money (newGameEngine 0 0 0) 100)) (money g') = false.
Proof.
  assert (Hbuy : exists g',
            buyBuilding (set_money (newGameEngine 0 0 0) 100) 0 = Some (true, g') /\
            money g' = 85%float)
    by (eexists; split; [vm_compute; reflexivity|reflexivity]).
  destruct Hbuy as (g' & Hbuy & Hmoney). exists g'.
  split; [exact Hbuy|]. split; [exact Hmoney|].
  exact (proj2 (spending_never_gains (set_money (newGameEngine 0 0 0) 100) 0) true g' Hbuy).
Defined.

(** ** The discount *)

Lemma not_above_not_below (mx : positive) (ex : Z) (r1 r2 : spec_float) :
  not_above mx ex r1 -> not_below mx ex r2 -> SFltb r2 r1 = false.
Proof.
  destruct r2 as [[]|[]| |[] m2 e2]; try contradiction;
    destruct r1 as [[]|[]| |[] m1 e1]; try contradiction; try reflexivity.
  cbn [not_above not_below]. intros H1 H2. unfold SFltb, SFcompare.
  destruct (Z.compare_spec e2 e1) as [Heq|Hlt|Hgt]; [|lia|reflexivity].
  change (Pcompare m2 m1 Eq) with (m2 ?= m1)%positive.
  destruct (Pos.compare_spec m2 m1) as [Hm|Hm|Hm]; try reflexivity. lia.
Qed.

Lemma fexp_pred (a : Z) : fexp prec emax a - 1 <= fexp prec emax (a - 1).
Proof. unfold fexp, emin, prec, emax. lia. Qed.

Lemma SFmul_one_not_below (mx : positive) (ex : Z) :
  valid_binary (S754_finite false mx ex) = true ->
  not_below mx ex
    (SFmul prec emax (S754_finite false mx ex) (S754_finite false 4503599627370496 (-52))).
Proof.
  intros Hv. apply valid_finite_inv in Hv as [Hcanon _].
  cbn [SFmul xorb]. apply binary_round_aux_not_below.
  - unfold fexp, emin, prec, emax. exact Hcanon.
  - lia.
  - replace (ex - (ex + -52)) with 52 by lia. rewrite Pos2Z.inj_mul. lia.
Qed.

Lemma SFmul_discount_not_above (mx : positive) (ex : Z) :
  valid_binary (S754_finite false mx ex) = true ->
  not_above mx ex
    (SFmul prec emax (S754_finite false mx ex) (S754_finite false 8106479329266893 (-53))).
Proof.
  intros Hv. apply valid_finite_inv in Hv as [Hcanon Hmax].
  cbn [SFmul xorb]. apply binary_round_aux_not_above.
  - unfold fexp, emin, prec, emax. exact Hcanon.
  - exact Hmax.
  - lia.
  - (* the product has at least 52 digits more than [mx] *)
    assert (Hd : Zpos (digits2_pos mx) + 52 <= Zdigits2 (Zpos (mx * 8106479329266893))).
    { change (Zpos (digits2_pos mx)) with (Zdigits2 (Zpos mx)).
      rewrite <- (Zdigits2_mul_pow2 (Zpos mx) 52) by lia.
      apply Zdigits2_le; [lia|]. rewrite Pos2Z.inj_mul.
      change (2 ^ 52) with 4503599627370496. lia. }
    pose proof (fexp_mono (Zpos (digits2_pos mx) + ex - 1)
                  (Zdigits2 (Zpos (mx * 8106479329266893)) + (ex + -53)) ltac:(lia)) as Hm.
    pose proof (fexp_pred (Zpos (digits2_pos mx) + ex)) as Hp.
    unfold fexp, emin, prec, emax in Hm, Hp |- *. lia.
  - replace (ex - (ex + -53)) with 53 by lia. rewrite Pos2Z.inj_mul.
    change (2 ^ 53) with 9007199254740992. lia.
  - lia.
Qed.

(** Multiplying by 0.9 does not give more than multiplying by 1.0. *)
Lemma SFmul_discount (x : spec_float) :
  valid_binary x = true -> SFnonneg x ->
  SFltb (SFmul prec emax x (Prim2SF 1)) (SFmul prec emax x (Prim2SF DISCOUNT_RATE)) = false.
Proof.
  change (Prim2SF 1) with (S754_finite false 4503599627370496 (-52)).
  change (Prim2SF DISCOUNT_RATE) with (S754_finite false 8106479329266893 (-53)).
  intros Hv Hx. apply SFnonneg_inv in Hx.
  destruct x as [[]|[]| |[] mx ex]; try contradiction; try reflexivity.
  apply (not_above_not_below mx ex);
    [apply SFmul_discount_not_above|apply SFmul_one_not_below]; exact Hv.
Qed.

(** On zeros and finite doubles the comparison is the comparison of the
    scaled values. *)
Lemma SFcompare_scaled (x y : spec_float) :
  valid_binary x = true -> valid_binary y = true -> SFfinite x -> SFfinite y ->
  SFcompare x y = Some (SFscaled x ?= SFscaled y).
Proof.
  intros Hvx Hvy Hfx Hfy.
  destruct x as [sx|sx| |sx mx ex]; try contradiction;
    destruct y as [sy|sy| |sy my ey]; try contradiction; cbn [SFscaled SFcompare].
  - reflexivity.
  - pose proof (valid_finite_inv _ _ _ Hvy) as [Hcy _].
    assert (0 < 2 ^ (ey + 1074)) by (apply Z.pow_pos_nonneg; lia).
    f_equal. symmetry. destruct sy; cbn [cond_Zopp];
      [apply Z.compare_gt_iff|apply Z.compare_lt_iff]; nia.
  - pose proof (valid_finite_inv _ _ _ Hvx) as [Hcx _].
    assert (0 < 2 ^ (ex + 1074)) by (apply Z.pow_pos_nonneg; lia).
    f_equal. symmetry. destruct sx; cbn [cond_Zopp];
      [apply Z.compare_lt_iff|apply Z.compare_gt_iff]; nia.
  - pose proof (valid_finite_inv _ _ _ Hvx) as [Hcx _].
    pose proof (valid_finite_inv _ _ _ Hvy) as [Hcy _].
    assert (Hpx : 0 < 2 ^ (ex + 1074)) by (apply Z.pow_pos_nonneg; lia).
    assert (Hpy : 0 < 2 ^ (ey + 1074)) by (apply Z.pow_pos_nonneg; lia).
    (* the order of the magnitudes *)
    assert (Hmag : match ex ?= ey with
                   | Eq => Pos.compare_cont Eq mx my
                   | Lt => Lt
                   | Gt => Gt
                   end = (Zpos mx * 2 ^ (ex + 1074) ?= Zpos my * 2 ^ (ey + 1074))).
    { symmetry. destruct (Z.compare_spec ex ey) as [Heq|Hlt|Hgt].
      - subst ey. change (Pos.compare_cont Eq mx my) with (mx ?= my)%positive.
        destruct (Pos.compare_spec mx my) as [Hm|Hm|Hm];
          [apply Z.compare_eq_iff|apply Z.compare_lt_iff|apply Z.compare_gt_iff];
          [congruence|nia..].
      - apply Z.compare_lt_iff.
        pose proof (valid_exp_lt _ _ _ _ _ _ Hvx Hvy Hlt) as Hm.
        replace (ey + 1074) with ((ey - ex) + (ex + 1074)) by lia.
        rewrite (Z.pow_add_r 2 (ey - ex) (ex + 1074)), Z.mul_assoc by lia.
        apply Z.mul_lt_mono_pos_r; assumption.
      - apply Z.compare_gt_iff.
        pose proof (valid_exp_lt _ _ _ _ _ _ Hvy Hvx Hgt) as Hm.
        replace (ex + 1074) with ((ex - ey) + (ey + 1074)) by lia.
        rewrite (Z.pow_add_r 2 (ex - ey) (ey + 1074)), Z.mul_assoc by lia.
        apply Z.mul_lt_mono_pos_r; assumption. }
    f_equal. destruct sx, sy; cbn [cond_Zopp].
    + (* both negative *)
      rewrite !Z.mul_opp_l, Z.compare_opp.
      rewrite (Z.compare_antisym (Zpos mx * 2 ^ (ex + 1074))), <- Hmag.
      destruct (ex ?= ey); reflexivity.
    + symmetry. apply Z.compare_lt_iff. nia.
    + symmetry. apply Z.compare_gt_iff. nia.
    + exact Hmag.
Qed.

Lemma SFfloor_scaled (x : spec_float) :
  valid_binary x = true -> SFfinite x ->
  SFfinite (SFfloor x) /\
  SFscaled (SFfloor x) = SFscaled x / 2 ^ 1074 * 2 ^ 1074.
Proof.
  intros Hv Hf. destruct x as [s|s| |s m e]; try contradiction.
  { split; [exact I|]. cbn [SFfloor SFscaled]. rewrite Z.div_0_l; [reflexivity|].
    apply Z.pow_nonzero; lia. }
  assert (HK : 0 < 2 ^ 1074) by (apply Z.pow_pos_nonneg; lia).
  unfold SFfloor. destruct (Z.leb_spec 0 e) as [He|He].
  { split; [exact I|]. cbn [SFscaled]. rewrite Z.pow_add_r, Z.mul_assoc by lia.
    rewrite Z.div_mul by lia. reflexivity. }
  apply valid_finite_inv in Hv as [Hcanon _].
  assert (Hdm : Zdigits2 (Zpos m) <= 53) by (cbn; lia).
  assert (Hp : 0 < 2 ^ (- e)) by (apply Z.pow_pos_nonneg; lia).
  assert (Hp2 : 2 <= 2 ^ (- e)).
  { change 2 with (2 ^ 1) at 1. apply Z.pow_le_mono_r; lia. }
  assert (Hpe : 0 < 2 ^ (e + 1074)) by (apply Z.pow_pos_nonneg; lia).
  set (z := Z.shiftr (cond_Zopp s (Zpos m)) (- e)).
  assert (Hz : z = cond_Zopp s (Zpos m) / 2 ^ (- e))
    by (unfold z; apply Z.shiftr_div_pow2; lia).
  assert (Hrhs : SFscaled (S754_finite s m e) / 2 ^ 1074 = z).
  { cbn [SFscaled]. rewrite Hz.
    replace (2 ^ 1074) with (2 ^ (- e) * 2 ^ (e + 1074))
      by (rewrite <- Z.pow_add_r by lia; f_equal; lia).
    apply Z.div_mul_cancel_r; lia. }
  rewrite Hrhs.
  assert (Hrange : - Zpos m <= z <= Zpos m).
  { rewrite Hz. destruct s; cbn [cond_Zopp].
    - split; [apply Z.div_le_lower_bound; [lia|nia]|].
      assert (- Zpos m / 2 ^ (- e) < 0); [|lia].
      apply Z.div_lt_upper_bound; lia.
    - split; [assert (0 <= Zpos m / 2 ^ (- e)) by (apply Z.div_pos; lia); lia|].
      apply Z.div_le_upper_bound; [lia|nia]. }
  assert (Hscale : forall (sz : bool) (q mz : positive) (ez : Z),
            -52 <= ez <= 0 -> Zpos mz = Zpos q * 2 ^ (- ez) ->
            cond_Zopp sz (Zpos mz) * 2 ^ (ez + 1074)
            = cond_Zopp sz (Zpos q) * 2 ^ 1074).
  { intros sz q mz ez Hez Hval.
    replace (2 ^ 1074) with (2 ^ (- ez) * 2 ^ (ez + 1074))
      by (rewrite <- Z.pow_add_r by lia; f_equal; lia).
    destruct sz; cbn [cond_Zopp]; rewrite Hval; ring. }
  destruct z as [|q|q]; cbn [binary_normalize].
  - split; [exact I|reflexivity].
  - assert (Hd : Zpos (digits2_pos q) <= 53).
    { etransitivity; [apply (Zdigits2_le (Zpos q) (Zpos m)); lia|exact Hdm]. }
    destruct (binary_round_integer false q Hd) as (mz & ez & -> & _ & Hez & Hval).
    split; [exact I|]. cbn [SFscaled]. exact (Hscale false q mz ez Hez Hval).
  - assert (Hd : Zpos (digits2_pos q) <= 53).
    { etransitivity; [apply (Zdigits2_le (Zpos q) (Zpos m)); lia|exact Hdm]. }
    destruct (binary_round_integer true q Hd) as (mz & ez & -> & _ & Hez & Hval).
    split; [exact I|]. cbn [SFscaled]. exact (Hscale true q mz ez Hez Hval).
Qed.

(** [floor] keeps the order. *)
Lemma SFfloor_mono (x y : spec_float) :
  valid_binary x = true -> valid_binary y = true ->
  SFltb y x = false -> SFltb (SFfloor y) (SFfloor x) = false.
Proof.
  intros Hvx Hvy Hle.
  assert (Hcase : (SFfinite x /\ SFfinite y) \/ ~ (SFfinite x /\ SFfinite y)).
  { destruct x, y; cbn; tauto. }
  destruct Hcase as [[Hfx Hfy]|Hnot].
  - destruct (SFfloor_scaled x Hvx Hfx) as [Hffx Hsx].
    destruct (SFfloor_scaled y Hvy Hfy) as [Hffy Hsy].
    destruct (SFfloor_spec x Hvx) as (Hvfx & _). destruct (SFfloor_spec y Hvy) as (Hvfy & _).
    unfold SFltb in *.
    rewrite (SFcompare_scaled _ _ Hvfy Hvfx Hffy Hffx), Hsx, Hsy.
    rewrite (SFcompare_scaled _ _ Hvy Hvx Hfy Hfx) in Hle.
    assert (HK : 0 < 2 ^ 1074) by (apply Z.pow_pos_nonneg; lia).
    assert (Hord : SFscaled x <= SFscaled y).
    { destruct (Z.compare_spec (SFscaled y) (SFscaled x)); first [lia|discriminate Hle]. }
    pose proof (Z.div_le_mono _ _ (2 ^ 1074) HK Hord) as Hdiv.
    destruct (Z.compare_spec (SFscaled y / 2 ^ 1074 * 2 ^ 1074)
                             (SFscaled x / 2 ^ 1074 * 2 ^ 1074)); try reflexivity.
    nia.
  - assert (Hfy : SFfinite y -> SFfinite (SFfloor y))
      by (intros H; apply (SFfloor_scaled y Hvy H)).
    assert (Hfx : SFfinite x -> SFfinite (SFfloor x))
      by (intros H; apply (SFfloor_scaled x Hvx H)).
    destruct y as [sy|[]| |sy my ey];
      destruct x as [sx|[]| |sx mx ex];
      try (exfalso; apply Hnot; split; exact I);
      try discriminate Hle; try reflexivity;
      try (destruct sy; discriminate Hle);
      try (specialize (Hfy I); destruct (SFfloor (S754_finite sy my ey)) as [?|?| |? ? ?];
           try contradiction; destruct sy; reflexivity);
      try (specialize (Hfx I); destruct (SFfloor (S754_finite sx mx ex)) as [[]|[]| |[] ? ?];
           try contradiction; reflexivity).
Qed.

Lemma baseCost_not_negative (b : BuildingDef) :
  b ∈ getBuildings -> ~ negative (baseCost b).
Proof.
  intros Hb. apply list_elem_of_In in Hb. unfold getBuildings in Hb. cbn in Hb.
  repeat (destruct Hb as [<-|Hb]; [unfold negative; cbn; discriminate|]).
  contradiction.
Qed.

(** X18.  The skill "cheaper" never makes a building more expensive: for every
    building and every counter, the price with the skill is not above the
    price without it. *)
Theorem discount_never_raises_price
    (g : GameEngine) (buildingId : Z) (cost cost' : double) :
  getBuildingCost g buildingId = Some cost ->
  getBuildingCost (withSkill g "cheaper" true) buildingId = Some cost' ->
  (cost <? cost')%float = false.
Proof.
  unfold getBuildingCost.
  assert (Hskill : hasSkill (withSkill g "cheaper" true) "cheaper" = true).
  { unfold hasSkill, withSkill. cbn [ownedSkills set_ownedSkills].
    rewrite lookup_insert_eq. reflexivity. }
  rewrite Hskill. change (buildingCounts (withSkill g "cheaper" true)) with (buildingCounts g).
  destruct (buildingId <? 0); [discriminate|].
  destruct (getBuildings !! Z.to_nat buildingId) as [b|] eqn:Hb; [|discriminate].
  destruct (buildingCounts g !! Z.to_nat buildingId) as [count|]; [|discriminate].
  intros [= <-] [= <-].
  destruct (hasSkill g "cheaper"); [apply ltb_irrefl|].
  rewrite ltb_spec, !Prim2SF_floor.
  apply SFfloor_mono; try apply Prim2SF_valid.
  rewrite !mul_spec. apply SFmul_discount.
  - rewrite <- mul_spec. apply Prim2SF_valid.
  - rewrite <- mul_spec. apply not_negative_SFnonneg.
    apply mul_not_negative; [|apply pow_not_negative].
    apply baseCost_not_negative. eapply list_elem_of_lookup_2. exact Hb.
Qed.

Lemma discount_never_raises_price_witness :
  getBuildingCost (set_buildingCounts (newGameEngine 0 0 0) [0; 0; 0; 1; 0; 0; 0]) 3
  = Some 13799%float /\
  getBuildingCost
    (withSkill (set_buildingCounts (newGameEngine 0 0 0) [0; 0; 0; 1; 0; 0; 0])
       "cheaper" true) 3
  = Some 12419%float /\
  PrimFloat.ltb 13799 12419 = false.
Proof.
  assert (H : getBuildingCost
                (set_buildingCounts (newGameEngine 0 0 0) [0; 0; 0; 1; 0; 0; 0]) 3
              = Some 13799%float) by reflexivity.
  assert (H' : getBuildingCost
                 (withSkill (set_buildingCounts (newGameEngine 0 0 0) [0; 0; 0; 1; 0; 0; 0])
                    "cheaper" true) 3
               = Some 12419%float) by reflexivity.
  split; [exact H|]. split; [exact H'|].
  exact (discount_never_raises_price _ _ _ _ H H').
Defined.

(** * The power in the price *)





